(** * Porter: the bundler and the asset reader

    A shallow embedding of [packages/porter/src/bundle.js] (class [Bundle])
    and of the asset reader of the middleware ([readAsset] and its helpers),
    with the properties of the specification proved, or refuted, on them.

    Objects live in a store and are named by references, as on the
    JavaScript heap: a module graph may be cyclic, several bundles of one
    packet share the packet, and [Bundle.create] is about object identity. *)

From Stdlib Require Import ZArith Lia Ascii String.
From stdpp Require Import base option list gmap strings.

Local Open Scope string_scope.
Local Open Scope list_scope.
Local Open Scope nat_scope.

(** ** Values of the host platform *)

(** What [JSON.stringify] is applied to. *)
#[local] Unset Elimination Schemes.
Inductive JSON :=
| JNull
| JBool (b : bool)
| JStr (s : string)
| JArr (items : list JSON)
| JObj (props : list (string * JSON)).
#[local] Set Elimination Schemes.

(** Errors thrown by the code under study, or handed up by the host. *)
Inductive Error :=
| UnparsedEntry (name dir : string)
    (* new Error(`unparsed entry ${name} (${packet.dir})`) *)
| UnableToFind (entry : option string) (name version : string)
    (* new Error(`unable to find ${entries[0]} in packet ${name} v${version}`) *)
| TypeError (what : string)
    (* a property read on, or a method call of, undefined *)
| HostError (what : string)
    (* raised by a collaborator: transpiler, minifier, file system *)
| Diverged.
    (* the traversal ran out of fuel; [iterator_never_diverges] excludes it *)

Inductive Result (A : Type) :=
| Ok (a : A)
| Throw (e : Error).
Arguments Ok {A} a.
Arguments Throw {A} e.

(** The keys of [extMap]; a bundle's [format] is one of them. *)
Inductive Format := Js | Wasm | Css.

Global Instance Format_eq_dec : EqDecision Format.
Proof. solve_decision. Defined.

Definition format_ext (f : Format) : string :=
  match f with Js => ".js" | Wasm => ".wasm" | Css => ".css" end.

Definition extMap (f : Format) : list string :=
  match f with
  | Js => [ ".js"; ".jsx"; ".ts"; ".tsx"; ".json" ]
  | Wasm => [ ".wasm" ]
  | Css => [ ".css"; ".less" ]
  end.

(** [Array.prototype.includes] on an array of strings. *)
Definition includes (xs : list string) (x : string) : bool :=
  bool_decide (x ∈ xs).

(** A source map as the transpiler or the minifier hands it over; its
    content is never inspected by the bundler. *)
Definition RawMap := string.

(** An object configuring the loader, as a map of its own properties. *)
Abbreviation LoaderConfig := (gmap string JSON).

(** ** The object graph *)

Module App.
Record t := {
  root : string;
  preload : list string;
  cache_path : string;                (* app.cache.path *)
}.
End App.

Module Mod.
(** A value stored in [packet.files]: an instance of [Module], or the
    placeholder a FakePacket puts there ([instanceofModule = false]). *)
Record t := {
  id : string;
  file : string;
  fpath : string;
  packet : nat;                       (* reference to the owning Packet *)
  children : list nat;                (* references to Modules *)
  instanceofModule : bool;
  isRootEntry : bool;
  isPreload : bool;
  isWorker : bool;
  fake : bool;
  preloaded : bool;
  isolated : bool;
  lock : JSON;
}.
End Mod.

Module Packet.
Record t := {
  app : App.t;
  name : string;
  version : string;
  dir : string;
  main : option string;
  parent : option nat;                (* reference to a Packet, absent for the root *)
  isolated : bool;
  lock : JSON;
  loaderConfig : LoaderConfig;
  files : gmap string nat;            (* id -> reference to a Module *)
  entries : list (string * nat);      (* own properties in insertion order *)
  bundles : gmap string nat;          (* key -> reference to a Bundle *)
  all : list nat;                     (* packet.all: the packets of the tree *)
}.
End Packet.

Inductive Scope := ScopeModule | ScopePacket | ScopeAll.

Global Instance Scope_eq_dec : EqDecision Scope.
Proof. solve_decision. Defined.

(** A [SourceNode] of the source-map library, as far as the bundler builds
    it: a child is a string, or a node made by [createSourceNode]. *)
Inductive SourceNode :=
| Chunk (text : string)
| Lines (source : string) (lines : list string)
    (* one node per line of [code], joined by a line feed *)
| WithMap (code : string) (map : RawMap).
    (* SourceNode.fromStringWithSourceMap(code, consumer) *)

Module Bundle.
Record t := {
  packet : nat;
  p_entries : option (list string);   (* #entries *)
  loaderConfig : option LoaderConfig;
  loaderCache : gmap string (option (string * option RawMap));
  scope : Scope;
  format : Format;
  p_code : option string;             (* #code *)
  p_map : option (list SourceNode);   (* #map *)
  p_etag : option string;             (* #etag *)
  p_contenthash : option string;      (* #contenthash *)
  p_reloading : option nat;           (* #reloading: a timer handle *)
  updatedAt : option Z;
}.
End Bundle.

(** What the code does to the world outside the object graph. *)
Inductive Effect :=
| Unlink (path : string)                (* fs.unlink(path), failure ignored *)
| Pack (packet : nat).                  (* dep.pack() *)

(** A pending [setTimeout]: when it is due and the bundle whose [_reload]
    it runs. *)
Record Timer := { due : Z; target : nat }.

Record Store := {
  modules : gmap nat Mod.t;
  packets : gmap nat Packet.t;
  bundles : gmap nat Bundle.t;
  timers : list (nat * Timer);         (* pending, in the order they were set *)
  next_timer : nat;
  now : Z;                              (* the clock, in milliseconds *)
  effects : list Effect;                (* oldest first *)
}.

(** ** Collaborators outside [bundle.js]

    Node's [path] and [crypto], the JSON serializer, the minifier, and the
    methods of [module.js] and [packet.js] that [bundle.js] calls. The
    bundler is verified for every implementation of them that answers from
    the module or the packet it is called on: what [mod.obtain()],
    [mod.minify()], [packet.parseLoader()] and [dep.pack()] do to the
    modules, packets and bundles themselves is the business of [module.js]
    and [packet.js] and is left out. *)
Class Host := {
  extname : string -> string;                       (* path.extname *)
  path_join : list string -> string;                (* path.join *)
  path_relative : string -> string -> string;       (* path.relative *)
  md5_hex : string -> string;                       (* md5, hex digest *)
  JSON_stringify : JSON -> string;
  URLSearchParams_toString : LoaderConfig -> string;
  mod_obtain : Mod.t -> Result (string * option RawMap);   (* mod.obtain() *)
  mod_minify : Mod.t -> Result (string * option RawMap);   (* mod.minify() *)
  parseLoader : Packet.t -> LoaderConfig -> Result string; (* packet.parseLoader *)
  uglify_loader : string -> option (string * option RawMap);
    (* UglifyJS.minify: { code, map }, or { error } when the code does not parse *)
}.

(** ** Strings and regular expressions of [bundle.js] *)

(** The class [\w] of a regular expression: [A-Za-z0-9_]. *)
Definition is_word (c : ascii) : bool :=
  let n := nat_of_ascii c in
  (((48 <=? n) && (n <=? 57)) || ((65 <=? n) && (n <=? 90))
   || (n =? 95) || ((97 <=? n) && (n <=? 122)))%nat.

Fixpoint all_word (s : string) : bool :=
  match s with
  | EmptyString => true
  | String c r => is_word c && all_word r
  end.

(** [s] as a whole matches [\.\w+]. *)
Definition is_dot_word (s : string) : bool :=
  match s with
  | String c r => bool_decide (c = "."%char) && negb (bool_decide (r = "")) && all_word r
  | EmptyString => false
  end.

(** [s.replace(rExt, repl)] with [rExt = /(\.\w+)?$/]: the leftmost index
    at which the rest of [s] is an extension or is empty; the replacement
    strings of [bundle.js] hold no [$] pattern. *)
Fixpoint replace_rExt (s repl : string) : string :=
  if is_dot_word s then repl
  else match s with
       | EmptyString => repl
       | String c r => String c (replace_rExt r repl)
       end.

(** [s.endsWith(suffix)]. *)
Definition endsWith (s suffix : string) : bool :=
  let n := String.length s in
  let k := String.length suffix in
  (k <=? n)%nat && bool_decide (substring (n - k) k s = suffix).

(** [chunks.join(sep)] on strings. *)
Fixpoint join (sep : string) (xs : list string) : string :=
  match xs with
  | [] => ""
  | [x] => x
  | x :: rest => x +:+ sep +:+ join sep rest
  end.

(** [code.split('\n')]. *)
Fixpoint split_lines_aux (cur : string) (s : string) : list string :=
  match s with
  | EmptyString => [String.rev cur]
  | String c r =>
      if bool_decide (c = "010"%char) then String.rev cur :: split_lines_aux "" r
      else split_lines_aux (String c cur) r
  end.

Definition split_lines (s : string) : list string := split_lines_aux "" s.

(** [Object.assign(target, source)]: the properties of [source] override
    those of [target]; an [undefined] source has none. *)
Definition Object_assign (target : LoaderConfig) (source : option LoaderConfig) : LoaderConfig :=
  default ∅ source ∪ target.

(** ** Stateful, fallible computations

    A method reads and writes the store and may throw; what it wrote before
    it threw stays written. *)
Definition M (A : Type) : Type := Store -> Result A * Store.

Definition ret {A} (a : A) : M A := fun st => (Ok a, st).

Definition throw {A} (e : Error) : M A := fun st => (Throw e, st).

Definition bind {A B} (m : M A) (k : A -> M B) : M B :=
  fun st =>
    match m st with
    | (Ok a, st') => k a st'
    | (Throw e, st') => (Throw e, st')
    end.

Notation "'let*' x ':=' m 'in' k" := (bind m (fun x => k))
  (at level 10, x pattern, m at level 100, k at level 200).

Definition gets {A} (f : Store -> A) : M A := fun st => (Ok (f st), st).

Definition modify (f : Store -> Store) : M unit := fun st => (Ok tt, f st).

Definition lift {A} (r : Result A) : M A := fun st => (r, st).

(** Dereferencing; a reference the store does not know stands for
    [undefined]. *)
Definition deref {A} (heap : Store -> gmap nat A) (what : string) (r : nat) : M A :=
  fun st =>
    match heap st !! r with
    | Some a => (Ok a, st)
    | None => (Throw (TypeError what), st)
    end.

Definition set_bundle (r : nat) (b : Bundle.t) (st : Store) : Store :=
  {| modules := modules st; packets := packets st;
     bundles := <[r := b]> (bundles st);
     timers := timers st; next_timer := next_timer st; now := now st;
     effects := effects st |}.

Definition set_packet (r : nat) (p : Packet.t) (st : Store) : Store :=
  {| modules := modules st; packets := <[r := p]> (packets st);
     bundles := bundles st;
     timers := timers st; next_timer := next_timer st; now := now st;
     effects := effects st |}.

Definition set_timers (ts : list (nat * Timer)) (next : nat) (st : Store) : Store :=
  {| modules := modules st; packets := packets st; bundles := bundles st;
     timers := ts; next_timer := next; now := now st;
     effects := effects st |}.

Definition set_now (t : Z) (st : Store) : Store :=
  {| modules := modules st; packets := packets st; bundles := bundles st;
     timers := timers st; next_timer := next_timer st; now := t;
     effects := effects st |}.

Definition perform (e : Effect) (st : Store) : Store :=
  {| modules := modules st; packets := packets st; bundles := bundles st;
     timers := timers st; next_timer := next_timer st; now := now st;
     effects := effects st ++ [e] |}.

Definition with_bundles (bs : gmap string nat) (p : Packet.t) : Packet.t :=
  {| Packet.app := Packet.app p; Packet.name := Packet.name p;
     Packet.version := Packet.version p; Packet.dir := Packet.dir p;
     Packet.main := Packet.main p; Packet.parent := Packet.parent p;
     Packet.isolated := Packet.isolated p; Packet.lock := Packet.lock p;
     Packet.loaderConfig := Packet.loaderConfig p;
     Packet.files := Packet.files p; Packet.entries := Packet.entries p;
     Packet.bundles := bs; Packet.all := Packet.all p |}.

Definition with_loaderConfig (c : LoaderConfig) (p : Packet.t) : Packet.t :=
  {| Packet.app := Packet.app p; Packet.name := Packet.name p;
     Packet.version := Packet.version p; Packet.dir := Packet.dir p;
     Packet.main := Packet.main p; Packet.parent := Packet.parent p;
     Packet.isolated := Packet.isolated p; Packet.lock := Packet.lock p;
     Packet.loaderConfig := c;
     Packet.files := Packet.files p; Packet.entries := Packet.entries p;
     Packet.bundles := Packet.bundles p; Packet.all := Packet.all p |}.

(** The fields of a bundle that its methods assign. *)
Definition with_cache (code : option string) (map : option (list SourceNode))
    (etag contenthash : option string) (b : Bundle.t) : Bundle.t :=
  {| Bundle.packet := Bundle.packet b; Bundle.p_entries := Bundle.p_entries b;
     Bundle.loaderConfig := Bundle.loaderConfig b;
     Bundle.loaderCache := Bundle.loaderCache b;
     Bundle.scope := Bundle.scope b; Bundle.format := Bundle.format b;
     Bundle.p_code := code; Bundle.p_map := map; Bundle.p_etag := etag;
     Bundle.p_contenthash := contenthash;
     Bundle.p_reloading := Bundle.p_reloading b;
     Bundle.updatedAt := Bundle.updatedAt b |}.

Definition with_contenthash (h : option string) (b : Bundle.t) : Bundle.t :=
  with_cache (Bundle.p_code b) (Bundle.p_map b) (Bundle.p_etag b) h b.

Definition with_loaderCache (c : gmap string (option (string * option RawMap)))
    (b : Bundle.t)
    : Bundle.t :=
  {| Bundle.packet := Bundle.packet b; Bundle.p_entries := Bundle.p_entries b;
     Bundle.loaderConfig := Bundle.loaderConfig b;
     Bundle.loaderCache := c;
     Bundle.scope := Bundle.scope b; Bundle.format := Bundle.format b;
     Bundle.p_code := Bundle.p_code b; Bundle.p_map := Bundle.p_map b;
     Bundle.p_etag := Bundle.p_etag b;
     Bundle.p_contenthash := Bundle.p_contenthash b;
     Bundle.p_reloading := Bundle.p_reloading b;
     Bundle.updatedAt := Bundle.updatedAt b |}.

Definition with_reloading (h : option nat) (b : Bundle.t) : Bundle.t :=
  {| Bundle.packet := Bundle.packet b; Bundle.p_entries := Bundle.p_entries b;
     Bundle.loaderConfig := Bundle.loaderConfig b;
     Bundle.loaderCache := Bundle.loaderCache b;
     Bundle.scope := Bundle.scope b; Bundle.format := Bundle.format b;
     Bundle.p_code := Bundle.p_code b; Bundle.p_map := Bundle.p_map b;
     Bundle.p_etag := Bundle.p_etag b;
     Bundle.p_contenthash := Bundle.p_contenthash b;
     Bundle.p_reloading := h;
     Bundle.updatedAt := Bundle.updatedAt b |}.

Definition with_updatedAt (t : Z) (b : Bundle.t) : Bundle.t :=
  {| Bundle.packet := Bundle.packet b; Bundle.p_entries := Bundle.p_entries b;
     Bundle.loaderConfig := Bundle.loaderConfig b;
     Bundle.loaderCache := Bundle.loaderCache b;
     Bundle.scope := Bundle.scope b; Bundle.format := Bundle.format b;
     Bundle.p_code := Bundle.p_code b; Bundle.p_map := Bundle.p_map b;
     Bundle.p_etag := Bundle.p_etag b;
     Bundle.p_contenthash := Bundle.p_contenthash b;
     Bundle.p_reloading := Bundle.p_reloading b;
     Bundle.updatedAt := Some t |}.

(** A string that is neither [null] nor empty, as [if (s)] tests it. *)
Definition truthy (s : option string) : option string :=
  match s with
  | Some t => if bool_decide (t = "") then None else Some t
  | None => None
  end.

(** The line feed and the double quote. *)
Definition LF : string := String "010"%char "".

Definition DQ : string := String "034"%char "".

(** The text of a node, and of [node.join(LF)] serialized. *)
Definition node_text (n : SourceNode) : string :=
  match n with
  | Chunk t => t
  | Lines _ ls => join LF ls
  | WithMap code _ => code
  end.

Definition toString (children : list SourceNode) : string :=
  join LF (node_text <$> children).

(** [packet.files[name]]: the object behind the reference, if any. *)
Definition file_at (st : Store) (p : Packet.t) (name : string) : option Mod.t :=
  r ← Packet.files p !! name; modules st !! r.

(** ** [bundle.js] *)

(** [getEntry(packet, entries)]; [entries[0]] of an empty array is
    [undefined]. *)
Definition getEntry (packet : Packet.t) (entries : option (list string)) : option string :=
  match entries with
  | Some es =>
      if bool_decide (length es = 1) || negb (bool_decide (is_Some (Packet.parent packet)))
      then head es
      else Packet.main packet
  | None => Packet.main packet
  end.

(** The options object of [Bundle.create] and of the constructor. *)
Record Options := {
  o_packet : nat;
  o_entries : option (list string);
  o_loaderConfig : option LoaderConfig;
  o_format : option Format;
  o_all : bool;
  o_package : option bool;
}.

Section BundleJs.
Context `{Host}.

(** [new Bundle(options)], with [format] already settled by [create]. *)
Definition new_Bundle (packet : Packet.t) (options : Options) (format : Format) : Bundle.t :=
  let app := Packet.app packet in
  let scope :=
    if bool_decide (0 < length (App.preload app)) || o_all options
       || bool_decide (format = Css)
    then ScopeAll
    else if bool_decide (o_package options = Some false) then ScopeModule
    else ScopePacket in
  {| Bundle.packet := o_packet options;
     Bundle.p_entries :=
       match o_entries options with
       | Some (e :: es) => Some (e :: es)
       | _ => None
       end;
     Bundle.loaderConfig := o_loaderConfig options;
     Bundle.loaderCache := ∅;
     Bundle.scope := scope;
     Bundle.format := format;
     Bundle.p_code := None; Bundle.p_map := None; Bundle.p_etag := None;
     Bundle.p_contenthash := None; Bundle.p_reloading := None;
     Bundle.updatedAt := None |}.

(** The [format] that [create] writes into the options when none is given. *)
Definition default_format (options : Options) : Format :=
  match o_format options with
  | Some f => f
  | None =>
      match o_entries options with
      | Some es => if bool_decide (extname (default "" (head es)) = ".css") then Css else Js
      | None => Js
      end
  end.

(** The property name under which [create] files the bundle. A property
    name is a string: [undefined] reads the property "undefined"; a
    method call on [undefined] throws. *)
Definition bundle_key (format : Format) (entry : option string) : Result string :=
  match format, entry with
  | Css, Some e => Ok (replace_rExt e ".css")
  | Css, None => Throw (TypeError "entry.replace")
  | _, Some e => Ok e
  | _, None => Ok "undefined"
  end.

(** [Bundle.create(options)]: the reference of the bundle filed under the
    key, a new one only when the key is free. *)
Definition create (options : Options) : M nat :=
  let* packet := deref packets "packet" (o_packet options) in
  let format := default_format options in
  let entry := getEntry packet (o_entries options) in
  let* key := lift (bundle_key format entry) in
  match Packet.bundles packet !! key with
  | Some bundle => ret bundle
  | None =>
      let* r := gets (fun st => fresh (dom (bundles st))) in
      let* _ := modify (set_bundle r (new_Bundle packet options format)) in
      let* _ := modify (set_packet (o_packet options)
                          (with_bundles (<[key := r]> (Packet.bundles packet)) packet)) in
      ret r
  end.

(** *** The traversal, [[Symbol.iterator]]

    The generator is run to its end: what it yields in order, and the
    set [done] it leaves. [fuel] bounds the depth of the nested
    [iterateEntry] calls; [None] means it was too small.

    [done] is the object [{}], read by [done[mod.id]] and written by
    [done[entry.id] = true]. It is modelled by the set of the ids for which
    [done[id]] is truthy: from the start the names of the properties that
    an object inherits from [Object.prototype], whose values are functions
    or, for [__proto__], the prototype itself; then also the ids assigned
    (the assignment to [__proto__] of a value that is no object does
    nothing, and [done.__proto__] stays truthy). *)
Definition Object_prototype : gset string :=
  list_to_set
    [ "constructor"; "__defineGetter__"; "__defineSetter__"; "hasOwnProperty";
      "__lookupGetter__"; "__lookupSetter__"; "isPrototypeOf"; "propertyIsEnumerable";
      "toString"; "valueOf"; "__proto__"; "toLocaleString" ].

Section Iterator.
Variables (st : Store) (packet : nat) (pkt : Packet.t).
Variables (scope : Scope) (format : Format).

(** The tests of [iterate] under which a child is passed over. *)
Definition skipped (done : gset string) (preload : bool) (child : Mod.t) : bool :=
  bool_decide (Mod.id child ∈ done)
  || (bool_decide (format = Js)
      && ((bool_decide (Mod.packet child ≠ packet) && bool_decide (scope ≠ ScopeAll))
          || (Mod.preloaded child && negb preload && negb (Packet.isolated pkt))
          || (bool_decide (Mod.packet child ≠ packet)
              && from_option Packet.isolated false (packets st !! Mod.packet child))))
  || Mod.isolated child.

Definition Visit : Type :=
  gset string -> Mod.t -> bool -> option (list Mod.t * gset string).

(** [iterate(entry, preload)] over [entry.children], the recursive call
    [iterateEntry] being [visit]. *)
Fixpoint iterate_with (visit : Visit) (done : gset string) (children : list nat)
    (preload : bool) : option (list Mod.t * gset string) :=
  match children with
  | [] => Some ([], done)
  | r :: rest =>
      match modules st !! r with
      | None => iterate_with visit done rest preload
      | Some child =>
          if skipped done preload child then iterate_with visit done rest preload
          else
            '(ys, done1) ← visit done child preload;
            '(zs, done2) ← iterate_with visit done1 rest preload;
            Some (ys ++ zs, done2)
      end
  end.

Fixpoint iterateEntry (fuel : nat) (done : gset string) (entry : Mod.t)
    (preload : bool) : option (list Mod.t * gset string) :=
  match fuel with
  | O => None
  | S fuel =>
      let done0 := {[ Mod.id entry ]} ∪ done in
      '(ys, done1) ← iterate_with (iterateEntry fuel) done0 (Mod.children entry) preload;
      let self :=
        if includes (extMap format) (extname (Mod.file entry)) then [entry] else [] in
      if bool_decide (format = Js) then
        '(zs, done2) ← iterate_with (iterateEntry fuel) done1 (Mod.children entry) preload;
        Some (ys ++ self ++ zs, done2)
      else Some (ys ++ self, done1)
  end.

Definition iterate (fuel : nat) : gset string -> list nat -> bool ->
    option (list Mod.t * gset string) :=
  iterate_with (iterateEntry fuel).

(** The loop over [entries]: the modules yielded, and the error that
    ended the loop, if one did. *)
Fixpoint iterator_from (fuel : nat) (done : gset string) (names : list string)
    : list Mod.t * option Error :=
  match names with
  | [] => ([], None)
  | name :: rest =>
      match file_at st pkt name with
      | None => ([], Some (UnparsedEntry name (Packet.dir pkt)))
      | Some entry =>
          if negb (Mod.instanceofModule entry) then iterator_from fuel done rest
          else
            let preload := Mod.isPreload entry || Mod.fake entry || Mod.isWorker entry in
            match iterateEntry fuel done entry preload with
            | None => ([], Some Diverged)
            | Some (ys, done1) =>
                let '(zs, e) := iterator_from fuel done1 rest in (ys ++ zs, e)
            end
      end
  end.
End Iterator.

(** [get entries()]. *)
Definition entries (st : Store) (pkt : Packet.t) (b : Bundle.t) : list string :=
  match Bundle.p_entries b with
  | Some es => es
  | None =>
      (List.filter
         (fun fm : string * nat =>
            endsWith fm.1 ".js"
            && negb (from_option Mod.isRootEntry false (modules st !! fm.2)))
         (Packet.entries pkt)).*1
  end.

(** Fuel that is always enough: one more than the number of modules. *)
Definition enough_fuel (st : Store) : nat := S (size (modules st)).

(** [[Symbol.iterator]()] of a bundle, run to its end. *)
Definition iterator (st : Store) (pkt : Packet.t) (b : Bundle.t) : list Mod.t * option Error :=
  iterator_from st (Bundle.packet b) pkt (Bundle.scope b) (Bundle.format b)
    (enough_fuel st) Object_prototype (entries st pkt b).

(** [get entry()]. *)
Definition entry (pkt : Packet.t) (b : Bundle.t) : option string :=
  getEntry pkt (Bundle.p_entries b).

Definition this (self : nat) : M Bundle.t := deref bundles "this" self.

Definition packet_of (b : Bundle.t) : M Packet.t :=
  deref packets "packet" (Bundle.packet b).

(** [get contenthash()]; it fills [#contenthash] when that is unset. *)
Definition contenthash (self : nat) : M string :=
  let* b := this self in
  match truthy (Bundle.p_code b) with
  | None => ret ""
  | Some code =>
      match truthy (Bundle.p_contenthash b) with
      | Some h => ret h
      | None =>
          let h := substring 0 8 (md5_hex code) in
          let* _ := modify (set_bundle self (with_contenthash (Some h) b)) in
          ret h
      end
  end.

(** [get output()]. *)
Definition output (self : nat) : M string :=
  let* b := this self in
  let* pkt := packet_of b in
  let* es := gets (fun st => entries st pkt b) in
  match es, truthy (Bundle.p_code b) with
  | [], _ | _, None => ret ""
  | _, Some _ =>
      let* h := contenthash self in
      match entry pkt b with
      | Some e => ret (replace_rExt e ("." +:+ h +:+ format_ext (Bundle.format b)))
      | None => throw (TypeError "entry.replace")
      end
  end.

(** [get outputPath()]. *)
Definition outputPath (self : nat) : M string :=
  let* out := output self in
  let* b := this self in
  let* pkt := packet_of b in
  ret (if bool_decide (is_Some (Packet.parent pkt))
       then path_join [Packet.name pkt; Packet.version pkt; out]
       else out).

(** [createSourceNode({ source, code, map })] on code that is a string, with
    a source map, if any, that [SourceMapConsumer] accepts, as the
    transpiler and the minifier make them. On [code] that is [undefined] it
    throws, [code.split] being read off [undefined]: see [obtain]. *)
Definition createSourceNode (source code : string) (map : option RawMap) : SourceNode :=
  match map with
  | Some m => WithMap code m
  | None => Lines source (split_lines code)
  end.

(** [obtainLoader(loaderConfig)]: an object with [code] and no [map]. *)
Definition obtainLoader (self : nat) (loaderConfig : LoaderConfig)
    : M (option (string * option RawMap)) :=
  let* b := this self in
  let* pkt := packet_of b in
  let* code := lift (parseLoader pkt loaderConfig) in
  ret (Some (code, None)).

(** [minifyLoader(loaderConfig)]: what UglifyJS answers is filed in
    [loaderCache] and returned as it is, [{ code, map }] or [{ error }]
    ([None]); either is an object, hence truthy when it is looked up. *)
Definition minifyLoader (self : nat) (loaderConfig : LoaderConfig)
    : M (option (string * option RawMap)) :=
  let* b := this self in
  let cacheKey := URLSearchParams_toString loaderConfig in
  match Bundle.loaderCache b !! cacheKey with
  | Some cached => ret cached
  | None =>
      let* pkt := packet_of b in
      let* code := lift (parseLoader pkt loaderConfig) in
      let minified := uglify_loader code in
      let* b' := this self in
      let* _ := modify (set_bundle self
                  (with_loaderCache (<[cacheKey := minified]> (Bundle.loaderCache b')) b')) in
      ret minified
  end.

(** The body of the loop of [obtain] over the modules the iterator has
    yielded before it ended or threw. *)
Fixpoint add_modules (minify : bool) (root : string) (mods : list Mod.t)
    : Result (list SourceNode) :=
  match mods with
  | [] => Ok []
  | m :: rest =>
      match (if minify then mod_minify m else mod_obtain m) with
      | Throw e => Throw e
      | Ok (code, map) =>
          match add_modules minify root rest with
          | Throw e => Throw e
          | Ok nodes =>
              Ok (createSourceNode (path_relative root (Mod.fpath m)) code map :: nodes)
          end
      end
  end.

(** [JSON.stringify({ entries })]. *)
Definition etag_of (es : list string) : string :=
  JSON_stringify (JObj [("entries", JArr (JStr <$> es))]).

Definition lock_statement (lock : JSON) : string :=
  "Object.assign(porter.lock, " +:+ JSON_stringify lock +:+ ")".

Definition import_statement (id : string) : string :=
  "porter[" +:+ DQ +:+ "import" +:+ DQ +:+ "](" +:+ JSON_stringify (JStr id) +:+ ")".

(** [dep.pack()] for every packet of [packet.all] but the bundle's own: the
    calls are recorded, in order; what a packet does when it is packed is
    left out. *)
Definition pack_dependencies (self_packet : nat) (all : list nat) : M unit :=
  modify (fun st =>
    foldl (fun st dep => if bool_decide (dep = self_packet) then st else perform (Pack dep) st)
          st all).

(** [obtain({ loader, minify })]: [loader] is [undefined] or a boolean. *)
Definition obtain (self : nat) (loader : option bool) (minify : bool)
    : M (option string * option (list SourceNode)) :=
  let* b := this self in
  let* pkt := packet_of b in
  let app := Packet.app pkt in
  let format := Bundle.format b in
  let* es := gets (fun st => entries st pkt b) in
  if bool_decide (Bundle.p_etag b = Some (etag_of es))
  then ret (Bundle.p_code b, Bundle.p_map b)
  else
    let* t := gets now in
    let* _ := modify (set_bundle self (with_updatedAt t b)) in
    let loaderConfig := Object_assign (Packet.loaderConfig pkt) (Bundle.loaderConfig b) in
    let* _ := modify (set_packet (Bundle.packet b) (with_loaderConfig loaderConfig pkt)) in
    let preloaded := bool_decide (0 < length (App.preload app)) in
    let* yielded := gets (fun st => iterator st pkt b) in
    let* nodes := lift (add_modules minify (App.root app) yielded.1) in
    let* _ := match yielded.2 with Some e => throw e | None => ret tt end in
    let* first := gets (fun st => file_at st pkt (default "undefined" (head es))) in
    match first with
    | None =>
        if bool_decide (format = Js)
        then throw (UnableToFind (head es) (Packet.name pkt) (Packet.version pkt))
        else throw (TypeError "mod.isRootEntry")
    | Some mod_ =>
        let* _ := if Mod.isRootEntry mod_
                  then pack_dependencies (Bundle.packet b) (Packet.all pkt)
                  else ret tt in
        let nodes :=
          if Mod.isRootEntry mod_ && negb (Mod.isPreload mod_) && bool_decide (format = Js)
          then
            let lock := if preloaded && Mod.fake mod_ then Mod.lock mod_ else Packet.lock pkt in
            Chunk (lock_statement lock) :: nodes
          else nodes in
        let* nodes :=
          if Mod.isRootEntry mod_ && negb (bool_decide (loader = Some false))
             && bool_decide (format = Js)
          then
            let* ldr := if minify then minifyLoader self loaderConfig
                        else obtainLoader self loaderConfig in
            match ldr with
            | Some (code, map) =>
                ret (createSourceNode "loader.js" code map :: nodes
                       ++ [Chunk (import_statement (Mod.id mod_))])
            | None => throw (TypeError "code.split")
            end
          else ret nodes in
        let code := toString nodes in
        let* b' := this self in
        let* _ := modify (set_bundle self
                    (with_cache (Some code) (Some nodes) (Some (etag_of es)) None b')) in
        ret (Some code, Some nodes)
    end.

(** [minify(opts)]. *)
Definition minify (self : nat) (loader : option bool)
    : M (option string * option (list SourceNode)) :=
  obtain self loader true.

(** [_reload()]. *)
Definition _reload (self : nat) : M unit :=
  let* b := this self in
  let* pkt := packet_of b in
  let* path := outputPath self in
  if bool_decide (path = "") then ret tt
  else
    let* _ := modify (perform (Unlink (path_join [App.cache_path (Packet.app pkt); path]))) in
    let* b' := this self in
    let* _ := modify (set_bundle self (with_cache None None None None b')) in
    let* _ := obtain self None false in
    ret tt.

(** [reload()]: [clearTimeout] of the pending handle, then [setTimeout]
    of [_reload] in 100 ms. *)
Definition reload (self : nat) : M unit :=
  let* b := this self in
  let* _ := match Bundle.p_reloading b with
            | Some h =>
                modify (fun st =>
                  set_timers (List.filter (fun x => negb (bool_decide (x.1 = h))) (timers st))
                             (next_timer st) st)
            | None => ret tt
            end in
  let* h := gets next_timer in
  let* t := gets now in
  let* _ := modify (fun st =>
              set_timers (timers st ++ [(h, {| due := t + 100; target := self |})]) (S h) st) in
  modify (set_bundle self (with_reloading (Some h) b)).

(** *** The timers of the event loop

    A pending timer runs once the clock has reached its due time, the
    earliest first and, among equals, the one set first. Its callback
    [() => this._reload()] runs to its end; what it throws is lost with
    the promise it returns. *)
Fixpoint earliest (ts : list (nat * Timer)) : option (nat * Timer) :=
  match ts with
  | [] => None
  | x :: rest =>
      match earliest rest with
      | Some y => if (due x.2 <=? due y.2)%Z then Some x else Some y
      | None => Some x
      end
  end.

Definition next_due (t : Z) (ts : list (nat * Timer)) : option (nat * Timer) :=
  match earliest ts with
  | Some x => if (due x.2 <=? t)%Z then Some x else None
  | None => None
  end.

Definition fire (x : nat * Timer) (st : Store) : Store :=
  let pending := List.filter (fun y => negb (bool_decide (y.1 = x.1))) (timers st) in
  let st1 := set_timers pending (next_timer st) st in
  let st2 := set_now (Z.max (now st1) (due x.2)) st1 in
  (_reload (target x.2) st2).2.

(** Runs the timers due at [t]; the bundles whose [_reload] ran, in order. *)
Fixpoint run_timers (fuel : nat) (t : Z) (st : Store) : list nat * Store :=
  match fuel with
  | O => ([], st)
  | S fuel =>
      match next_due t (timers st) with
      | None => ([], st)
      | Some x =>
          let '(ran, st') := run_timers fuel t (fire x st) in
          (target x.2 :: ran, st')
      end
  end.

(** Time passes until [t]. *)
Definition advance (t : Z) (st : Store) : list nat * Store :=
  let '(ran, st') := run_timers (length (timers st)) t st in
  (ran, set_now (Z.max (now st') t) st').

(** [reload()] is called on [self] at each of the times [ts], the event
    loop running in between. *)
Fixpoint reload_at (ts : list Z) (self : nat) (st : Store) : list nat * Store :=
  match ts with
  | [] => ([], st)
  | t :: rest =>
      let '(ran, st1) := advance t st in
      let st2 := (reload self st1).2 in
      let '(ran', st3) := reload_at rest self st2 in
      (ran ++ ran', st3)
  end.

End BundleJs.

(** ** The asset reader of the middleware

    [readAsset(id, isMain)] and its helpers, as the middleware function
    [porter(opts)] defines them. What they require from [./lib], from the
    file system and from the style pipeline is a parameter; writes to the
    cache leave the response as it is and are not modelled. *)

Record ParsedId := { pi_name : string; pi_version : string; pi_entry : string }.

Class Collaborators := {
  loaderSource : string;
  serviceWorkerSource : string;
  loaderStats_mtime : string;
  serviceWorkerStats_mtime : string;
  loaderConfig : JSON;
  system : JSON;
  system_name : string;
  system_version : string;
  in_system_modules : string -> bool;                (* name in system.modules *)
  pkg_name : string;
  root : string;
  paths : list string;
  serveSource : bool;
  transformModuleNames : list string;
  parseId : string -> ParsedId;
  findComponent : string -> option string;           (* the first path found *)
  findModule_dir : ParsedId -> string;
  findBabelrc : string -> option string;
  exists_ : string -> bool;
  readFile : string -> string;
  lstat_mtime : string -> string;                    (* stats.mtime.toJSON() *)
  cache_read : string -> string -> option string;
  transform_code : string -> string -> string;       (* transform(source, opts).code *)
  matchRequire_findAll : string -> list string;
  define : string -> list string -> string -> string;
  importer_css : string -> string;                   (* atImport, result.css *)
  prefixer_css : string -> string;                   (* autoprefixer, result.css *)
  mime_lookup : string -> string;
  path_basename : string -> string;
}.

(** [s.replace(RE_EXT, repl)] with [RE_EXT = /(\.\w+)$/i]: without a
    match the string is returned as it is. *)
Fixpoint replace_RE_EXT (s repl : string) : string :=
  if is_dot_word s then repl
  else match s with
       | EmptyString => EmptyString
       | String c r => String c (replace_RE_EXT r repl)
       end.

Definition to_lower (c : ascii) : ascii :=
  let n := nat_of_ascii c in
  if ((65 <=? n) && (n <=? 90))%nat then ascii_of_nat (n + 32) else c.

Fixpoint lower (s : string) : string :=
  match s with
  | EmptyString => EmptyString
  | String c r => String (to_lower c) (lower r)
  end.

(** [RE_ASSET_EXT.test(ext)]. *)
Definition is_asset_ext (ext : string) : bool :=
  existsb (fun e => endsWith (lower ext) e)
    [ ".gif"; ".jpg"; ".jpeg"; ".png"; ".svg"; ".swf"; ".ico" ].

(** [s.indexOf(prefix) === 0]. *)
Fixpoint startsWith (s prefix : string) : bool :=
  match prefix, s with
  | EmptyString, _ => true
  | String c p, String d r => bool_decide (c = d) && startsWith r p
  | String _ _, EmptyString => false
  end.

Definition Headers := list (string * string).
Definition Response : Type := string * Headers.

Fixpoint set_header (k v : string) (h : Headers) : Headers :=
  match h with
  | [] => [(k, v)]
  | (k', v') :: rest =>
      if bool_decide (k = k') then (k, v) :: rest else (k', v') :: set_header k v rest
  end.

Section Middleware.
Context `{Host} `{Collaborators}.

(** [formatMain(id, content)]. *)
Definition formatMain (id content : string) : string :=
  loaderSource +:+ LF
  +:+ "porter.config(" +:+ JSON_stringify loaderConfig +:+ ")" +:+ LF
  +:+ content +:+ LF
  +:+ "porter[" +:+ DQ +:+ "import" +:+ DQ +:+ "]("
  +:+ JSON_stringify (JStr (replace_RE_EXT id "")) +:+ ")" +:+ LF.

(** The code of a module: read from the cache, or transformed. *)
Definition content_of (id source : string) (cached : bool) : string :=
  match truthy (if cached then cache_read id source else Some source) with
  | Some content => content
  | None => transform_code source id
  end.

(** [readComponent(id, isMain)]. *)
Definition readComponent (id : string) (isMain : bool) : option Response :=
  let mod_ := parseId id in
  let entry := if in_system_modules (pi_name mod_) then pi_entry mod_ else id in
  match findComponent entry with
  | None => None
  | Some fpath =>
      let source := readFile fpath in
      let content := content_of id source (bool_decide (is_Some (findBabelrc fpath))) in
      let dependencies := matchRequire_findAll content in
      let content := define (replace_RE_EXT id "") dependencies content in
      let content :=
        if isMain then formatMain id content
        else content +:+ LF +:+ "//# sourceMappingURL=./" +:+ path_basename id +:+ ".map" in
      Some (content, [("Last-Modified", lstat_mtime fpath)])
  end.

(** [readModule(id)]. *)
Definition readModule (id : string) : option Response :=
  let mod_ := parseId id in
  let fpath := path_join [findModule_dir mod_; pi_entry mod_] in
  if bool_decide (fpath = "") then None
  else
    let source := readFile fpath in
    let content :=
      content_of id source
        (includes transformModuleNames (pi_name mod_)
         && bool_decide (is_Some (findBabelrc fpath))) in
    let dependencies := matchRequire_findAll content in
    Some (define (replace_RE_EXT id "") dependencies content,
          [("Last-Modified", lstat_mtime fpath)]).

(** [readScript(id, isMain)]. *)
Definition readScript (id : string) (isMain : bool) : option Response :=
  let mod_ := parseId id in
  if bool_decide (pi_name mod_ = pkg_name) || negb (in_system_modules (pi_name mod_))
  then readComponent id isMain
  else readModule id.

(** [readStyle(id)]. *)
Definition readStyle (id : string) : option Response :=
  let mod_ := parseId id in
  let entry := if in_system_modules (pi_name mod_) then pi_entry mod_ else id in
  match findComponent entry with
  | None => None
  | Some fpath =>
      let css := importer_css (readFile fpath) in
      let content :=
        match truthy (cache_read id css) with
        | Some content => content
        | None => prefixer_css css
        end in
      Some (content, [("Last-Modified", lstat_mtime fpath)])
  end.

(** [isSource(id)]. *)
Definition isSource (id : string) : bool :=
  let fpath := path_join [root; id] in
  startsWith id "node_modules" || existsb (fun base => startsWith fpath base) paths.

(** [readSource(id)]. *)
Definition readSource (id : string) : option Response :=
  let fpath := path_join [root; id] in
  if exists_ fpath then Some (readFile fpath, [("Last-Modified", lstat_mtime fpath)])
  else None.

(** [readAsset(id, isMain)]. *)
Definition readAsset (id : string) (isMain : bool) : option Response :=
  let ext := extname id in
  let result :=
    if bool_decide (id = "loader.js") then
      Some (LF +:+ loaderSource +:+ LF
            +:+ "porter.config(" +:+ JSON_stringify loaderConfig +:+ ")" +:+ LF,
            [("Last-Modified", loaderStats_mtime)])
    else if bool_decide (id = "loaderConfig.json") then
      Some (JSON_stringify system, [("Last-Modified", loaderStats_mtime)])
    else if bool_decide (id = "porter-sw.js") then
      Some (serviceWorkerSource, [("Last-Modified", serviceWorkerStats_mtime)])
    else if serveSource && isSource id then readSource id
    else if bool_decide (ext = ".js") then readScript id isMain
    else if bool_decide (ext = ".css") then readStyle id
    else if is_asset_ext ext then
      match findComponent id with
      | Some fpath => Some (readFile fpath, [("Last-Modified", lstat_mtime fpath)])
      | None => None
      end
    else None in
  match result with
  | Some (body, headers) =>
      Some (body,
            set_header "ETag" (md5_hex body)
              (set_header "Content-Type" (mime_lookup ext)
                 (set_header "Cache-Control" "max-age=0" headers)))
  | None => None
  end.

End Middleware.

(** ** An instance of the host, for the examples *)

(** MD5 (RFC 1321), the digest behind [contenthash] and the [ETag]. *)
Module MD5.
Local Open Scope N_scope.

Definition K : list N :=
  [ 0xd76aa478; 0xe8c7b756; 0x242070db; 0xc1bdceee;
    0xf57c0faf; 0x4787c62a; 0xa8304613; 0xfd469501;
    0x698098d8; 0x8b44f7af; 0xffff5bb1; 0x895cd7be;
    0x6b901122; 0xfd987193; 0xa679438e; 0x49b40821;
    0xf61e2562; 0xc040b340; 0x265e5a51; 0xe9b6c7aa;
    0xd62f105d; 0x02441453; 0xd8a1e681; 0xe7d3fbc8;
    0x21e1cde6; 0xc33707d6; 0xf4d50d87; 0x455a14ed;
    0xa9e3e905; 0xfcefa3f8; 0x676f02d9; 0x8d2a4c8a;
    0xfffa3942; 0x8771f681; 0x6d9d6122; 0xfde5380c;
    0xa4beea44; 0x4bdecfa9; 0xf6bb4b60; 0xbebfbc70;
    0x289b7ec6; 0xeaa127fa; 0xd4ef3085; 0x04881d05;
    0xd9d4d039; 0xe6db99e5; 0x1fa27cf8; 0xc4ac5665;
    0xf4292244; 0x432aff97; 0xab9423a7; 0xfc93a039;
    0x655b59c3; 0x8f0ccc92; 0xffeff47d; 0x85845dd1;
    0x6fa87e4f; 0xfe2ce6e0; 0xa3014314; 0x4e0811a1;
    0xf7537e82; 0xbd3af235; 0x2ad7d2bb; 0xeb86d391 ].

Definition R : list N :=
  [ 7; 12; 17; 22; 7; 12; 17; 22; 7; 12; 17; 22; 7; 12; 17; 22;
    5; 9; 14; 20; 5; 9; 14; 20; 5; 9; 14; 20; 5; 9; 14; 20;
    4; 11; 16; 23; 4; 11; 16; 23; 4; 11; 16; 23; 4; 11; 16; 23;
    6; 10; 15; 21; 6; 10; 15; 21; 6; 10; 15; 21; 6; 10; 15; 21 ].

Definition w32 (x : N) : N := x mod 0x100000000.

Definition rotl (x n : N) : N :=
  w32 (N.lor (N.shiftl x n) (N.shiftr x (32 - n))).

Definition lnot32 (x : N) : N := N.lxor x 0xffffffff.

Fixpoint bytes_of (s : string) : list N :=
  match s with
  | EmptyString => []
  | String c r => N_of_ascii c :: bytes_of r
  end.

(** The [n] low bytes of [x], the lowest first. *)
Fixpoint le_bytes (n : nat) (x : N) : list N :=
  match n with
  | O => []
  | S n => x mod 256 :: le_bytes n (x / 256)
  end.

Definition pad (msg : list N) : list N :=
  let len := N.of_nat (length msg) in
  let zeros := N.to_nat ((55 + 64 - len mod 64) mod 64) in
  msg ++ [0x80] ++ repeat 0 zeros ++ le_bytes 8 (8 * len).

Fixpoint words (fuel : nat) (bs : list N) : list N :=
  match fuel, bs with
  | S fuel, b0 :: b1 :: b2 :: b3 :: rest =>
      (b0 + 256 * (b1 + 256 * (b2 + 256 * b3))) :: words fuel rest
  | _, _ => []
  end.

Definition step (M : list N) (st : N * N * N * N) (i : nat) : N * N * N * N :=
  let '(a, b, c, d) := st in
  let i' := N.of_nat i in
  let '(f, g) :=
    if i' <? 16 then (N.lor (N.land b c) (N.land (lnot32 b) d), i')
    else if i' <? 32 then (N.lor (N.land d b) (N.land (lnot32 d) c), (5 * i' + 1) mod 16)
    else if i' <? 48 then (N.lxor (N.lxor b c) d, (3 * i' + 5) mod 16)
    else (N.lxor c (N.lor b (lnot32 d)), (7 * i') mod 16) in
  let f' := w32 (f + a + nth i K 0 + nth (N.to_nat g) M 0) in
  (d, w32 (b + rotl f' (nth i R 0)), b, c).

Definition block (st : N * N * N * N) (M : list N) : N * N * N * N :=
  let '(a0, b0, c0, d0) := st in
  let '(a, b, c, d) := fold_left (step M) (seq 0 64) st in
  (w32 (a0 + a), w32 (b0 + b), w32 (c0 + c), w32 (d0 + d)).

Fixpoint blocks (fuel : nat) (ws : list N) (st : N * N * N * N) : N * N * N * N :=
  match fuel, ws with
  | S fuel, _ :: _ => blocks fuel (skipn 16 ws) (block st (firstn 16 ws))
  | _, _ => st
  end.

Definition hex_digit (n : N) : ascii :=
  if n <? 10 then ascii_of_N (48 + n) else ascii_of_N (87 + n).

Fixpoint hex (bs : list N) : string :=
  match bs with
  | [] => EmptyString
  | b :: rest => String (hex_digit (b / 16)) (String (hex_digit (b mod 16)) (hex rest))
  end.

Definition digest (s : string) : string :=
  let bs := pad (bytes_of s) in
  let ws := words (length bs) bs in
  let '(a, b, c, d) :=
    blocks (length ws) ws (0x67452301, 0xefcdab89, 0x98badcfe, 0x10325476) in
  hex (le_bytes 4 a ++ le_bytes 4 b ++ le_bytes 4 c ++ le_bytes 4 d).
End MD5.

Module Node.

(** [path.extname], for the paths of the examples: from the last dot of
    the last segment, a dot that begins the segment apart (a trailing slash
    and the segment [..] are not treated as Node treats them). *)
Definition posix_extname (s : string) : string :=
  (fix go (s : string) (cur : option string) (first : bool) : string :=
     match s with
     | EmptyString => default "" cur
     | String c r =>
         if bool_decide (c = "/"%char) then go r None true
         else if bool_decide (c = "."%char) && negb first then go r (Some (String c r)) false
         else go r cur false
     end) s None true.

(** [path.join], for the paths of the examples: segments that need no
    normalizing. *)
Definition posix_join (segments : list string) : string :=
  join "/" (List.filter (fun s => negb (bool_decide (s = ""))) segments).

Definition posix_relative (from to : string) : string :=
  let prefix := from +:+ "/" in
  if startsWith to prefix
  then substring (String.length prefix) (String.length to - String.length prefix) to
  else to.

Fixpoint escape (s : string) : string :=
  match s with
  | EmptyString => EmptyString
  | String c r =>
      if bool_decide (c = "034"%char) || bool_decide (c = "\"%char)
      then String "\"%char (String c (escape r))
      else String c (escape r)
  end.

Definition quote (s : string) : string := DQ +:+ escape s +:+ DQ.

Fixpoint stringify (j : JSON) : string :=
  match j with
  | JNull => "null"
  | JBool b => if b then "true" else "false"
  | JStr s => quote s
  | JArr items => "[" +:+ join "," (List.map stringify items) +:+ "]"
  | JObj props =>
      "{" +:+ join "," (List.map (fun kv => quote (fst kv) +:+ ":" +:+ stringify (snd kv)) props)
      +:+ "}"
  end.

(** A stand-in for [URLSearchParams.toString], used as the key of the
    cache of minified loaders: the pairs [key=value] joined by [&], a value
    being written as JSON and nothing being percent-encoded. *)
Definition searchParams (c : LoaderConfig) : string :=
  join "&" (List.map (fun kv => fst kv +:+ "=" +:+ stringify (snd kv)) (map_to_list c)).

Definition define_module (m : Mod.t) : string :=
  "define(" +:+ quote (Mod.id m) +:+ ", function() {})".

Definition host : Host :=
  {| extname := posix_extname;
     path_join := posix_join;
     path_relative := posix_relative;
     md5_hex := MD5.digest;
     JSON_stringify := stringify;
     URLSearchParams_toString := searchParams;
     mod_obtain := fun m => Ok (define_module m, None);
     mod_minify := fun m => Ok (define_module m, None);
     parseLoader := fun _ c =>
       Ok ("/* loader */porter.config(" +:+ stringify (JObj (map_to_list c)) +:+ ")");
     uglify_loader := fun code => Some (code, None) |}.

(** The same host with a minifier that rejects the loader: it answers
    [{ error }]. *)
Definition rejecting : Host :=
  {| extname := posix_extname;
     path_join := posix_join;
     path_relative := posix_relative;
     md5_hex := MD5.digest;
     JSON_stringify := stringify;
     URLSearchParams_toString := searchParams;
     mod_obtain := fun m => Ok (define_module m, None);
     mod_minify := fun m => Ok (define_module m, None);
     parseLoader := fun _ c =>
       Ok ("/* loader */porter.config(" +:+ stringify (JObj (map_to_list c)) +:+ ")");
     uglify_loader := fun _ => None |}.

End Node.

(** ** Object graphs for the examples *)

Module Demo.

Definition app : App.t :=
  {| App.root := "/app"; App.preload := []; App.cache_path := "/app/public" |}.

(** A module of packet [packet] with no flag set. *)
Definition module_ (id : string) (packet : nat) (children : list nat) : Mod.t :=
  {| Mod.id := id; Mod.file := id; Mod.fpath := "/app/components/" +:+ id;
     Mod.packet := packet; Mod.children := children;
     Mod.instanceofModule := true;
     Mod.isRootEntry := false; Mod.isPreload := false; Mod.isWorker := false;
     Mod.fake := false; Mod.preloaded := false; Mod.isolated := false;
     Mod.lock := JNull |}.

Definition with_flags (isRootEntry isPreload preloaded : bool) (m : Mod.t) : Mod.t :=
  {| Mod.id := Mod.id m; Mod.file := Mod.file m; Mod.fpath := Mod.fpath m;
     Mod.packet := Mod.packet m; Mod.children := Mod.children m;
     Mod.instanceofModule := Mod.instanceofModule m;
     Mod.isRootEntry := isRootEntry; Mod.isPreload := isPreload;
     Mod.isWorker := Mod.isWorker m; Mod.fake := Mod.fake m;
     Mod.preloaded := preloaded; Mod.isolated := Mod.isolated m;
     Mod.lock := Mod.lock m |}.

(** The packet of the application, and a packet it depends on. *)
Definition packet (files : gmap string nat) (entries : list (string * nat)) : Packet.t :=
  {| Packet.app := app; Packet.name := "demo-app"; Packet.version := "1.0.0";
     Packet.dir := "/app"; Packet.main := Some "index.js"; Packet.parent := None;
     Packet.isolated := false;
     Packet.lock := JObj [("demo-app", JObj [("1.0.0", JObj [])])];
     Packet.loaderConfig := {[ "baseUrl" := JStr "/" ]};
     Packet.files := files; Packet.entries := entries;
     Packet.bundles := ∅; Packet.all := [0; 1] |}.

Definition dependency (files : gmap string nat) : Packet.t :=
  {| Packet.app := app; Packet.name := "yen"; Packet.version := "1.2.4";
     Packet.dir := "/app/node_modules/yen"; Packet.main := Some "index.js";
     Packet.parent := Some 0; Packet.isolated := false;
     Packet.lock := JObj []; Packet.loaderConfig := ∅;
     Packet.files := files; Packet.entries := [];
     Packet.bundles := ∅; Packet.all := [1] |}.

Definition bundle (packet : nat) (entries : list string) (format : Format) : Bundle.t :=
  {| Bundle.packet := packet; Bundle.p_entries := Some entries;
     Bundle.loaderConfig := None; Bundle.loaderCache := ∅;
     Bundle.scope := if bool_decide (format = Css) then ScopeAll else ScopePacket;
     Bundle.format := format;
     Bundle.p_code := None; Bundle.p_map := None; Bundle.p_etag := None;
     Bundle.p_contenthash := None; Bundle.p_reloading := None;
     Bundle.updatedAt := None |}.

Definition store (modules : gmap nat Mod.t) (packets : gmap nat Packet.t)
    (bundles : gmap nat Bundle.t) : Store :=
  {| modules := modules; packets := packets; bundles := bundles;
     timers := []; next_timer := 0; now := 0; effects := [] |}.

(** [a.js] requires [b.js], and [b.js] requires [a.js] back. *)
Definition cycle : gmap nat Mod.t :=
  {[ 1 := module_ "a.js" 0 [2]; 2 := module_ "b.js" 0 [1] ]}.

Definition cycle_files : gmap string nat := {[ "a.js" := 1; "b.js" := 2 ]}.

(** A bundle of the two entries [a.js] and [b.js]. *)
Definition two_entries : Store :=
  store cycle {[ 0 := packet cycle_files [] ]} {[ 0 := bundle 0 ["a.js"; "b.js"] Js ]}.

(** A stylesheet bundle whose entry has not been parsed. *)
Definition missing_css : Store :=
  store ∅ {[ 0 := packet ∅ [] ]} {[ 0 := bundle 0 ["app.css"] Css ]}.

(** [home.js] is the main entry of the application and requires
    [home_dep.js]. [root], [isPreload] and [preloaded] are its flags. *)
Definition home (root isPreload preloaded : bool) (format : Format) : Store :=
  store {[ 1 := with_flags root isPreload preloaded (module_ "home.js" 0 [2]);
           2 := module_ "home_dep.js" 0 [] ]}
        {[ 0 := packet {[ "home.js" := 1; "home_dep.js" := 2 ]} [("home.js", 1)];
           1 := dependency ∅ ]}
        {[ 0 := bundle 0 ["home.js"] format ]}.

(** [home.js] requires [home_dep.js] and [shared.js]; the preload entry
    [preload.js] requires [shared.js] too, which is therefore preloaded. *)
Definition shared : Mod.t := with_flags false false true (module_ "shared.js" 0 []).

Definition preloading_packet : Packet.t :=
  packet {[ "home.js" := 1; "home_dep.js" := 2; "shared.js" := 3; "preload.js" := 4 ]}
         [("home.js", 1)].

Definition preloading : Store :=
  store {[ 1 := module_ "home.js" 0 [2; 3];
           2 := module_ "home_dep.js" 0 [];
           3 := shared;
           4 := with_flags false true false (module_ "preload.js" 0 [3]) ]}
        {[ 0 := preloading_packet ]}
        {[ 0 := bundle 0 ["home.js"] Js; 1 := bundle 0 ["preload.js"] Js ]}.

(** The bundle of the main entry of the packet [yen]. *)
Definition yen : Store :=
  store {[ 1 := module_ "index.js" 1 [] ]}
        {[ 0 := packet ∅ []; 1 := dependency {[ "index.js" := 1 ]} ]}
        {[ 0 := bundle 1 ["index.js"] Js ]}.

(** The collaborators of the middleware for an application with the
    component [home.js], the stylesheet [stylesheets/app.css] and the
    dependency [yen]. *)
Definition collaborators : Collaborators :=
{| loaderSource := "/* loader */";
   serviceWorkerSource := "/* service worker */";
   loaderStats_mtime := "2018-01-01T00:00:00.000Z";
   serviceWorkerStats_mtime := "2018-01-01T00:00:00.000Z";
   loaderConfig := JObj [("name", JStr "demo-app"); ("version", JStr "1.0.0")];
   system := JObj [("name", JStr "demo-app"); ("version", JStr "1.0.0")];
   system_name := "demo-app";
   system_version := "1.0.0";
   in_system_modules := fun name => bool_decide (name ∈ ["demo-app"; "yen"]);
   pkg_name := "demo-app";
   root := "/app";
   paths := ["/app/components"];
   serveSource := false;
   transformModuleNames := [];
   parseId := fun id =>
     if startsWith id "yen/"
     then {| pi_name := "yen"; pi_version := "1.2.4"; pi_entry := "index.js" |}
     else {| pi_name := ""; pi_version := ""; pi_entry := id |};
   findComponent := fun entry =>
     if bool_decide (entry ∈ ["home.js"; "stylesheets/app.css"])
     then Some ("/app/components/" +:+ entry) else None;
   findModule_dir := fun mod_ => "/app/node_modules/" +:+ pi_name mod_;
   findBabelrc := fun _ => None;
   exists_ := fun _ => false;
   readFile := fun fpath =>
     if bool_decide (fpath = "/app/components/stylesheets/app.css")
     then "body { margin: 0 }" else "module.exports = 1";
   lstat_mtime := fun _ => "2018-01-01T00:00:00.000Z";
   cache_read := fun _ _ => None;
   transform_code := fun source _ => source;
   matchRequire_findAll := fun _ => [];
   define := fun id deps code =>
     "define(" +:+ Node.quote id +:+ ", [" +:+ join ", " (List.map Node.quote deps)
     +:+ "], function(require, exports, module) {" +:+ code +:+ "})";
   importer_css := fun css => css;
   prefixer_css := fun css => css;
   mime_lookup := fun ext => if bool_decide (ext = ".css") then "text/css"
                             else "application/javascript";
   path_basename := fun id => id |}.

End Demo.

(** ** Notions used to state the properties *)

(** The ids of the modules of the store. *)
Definition ids_of (st : Store) : gset string :=
  list_to_set (Mod.id <$> (map_to_list (modules st)).*2).

(** What configures a bundle, as against what it caches. *)
Definition same_config (b b' : Bundle.t) : Prop :=
  Bundle.packet b' = Bundle.packet b
  ∧ Bundle.p_entries b' = Bundle.p_entries b
  ∧ Bundle.loaderConfig b' = Bundle.loaderConfig b
  ∧ Bundle.scope b' = Bundle.scope b
  ∧ Bundle.format b' = Bundle.format b
  ∧ Bundle.p_reloading b' = Bundle.p_reloading b.

(** A packet but for its loader configuration. *)
Definition same_packet (p p' : Packet.t) : Prop :=
  p' = with_loaderConfig (Packet.loaderConfig p') p.

(** What the methods of the bundle [self], timers apart, may change in
    the store: what [self] caches, the loader configuration of packets,
    and the effects. *)
Definition evolves (self : nat) (st st' : Store) : Prop :=
  modules st' = modules st
  ∧ timers st' = timers st ∧ next_timer st' = next_timer st ∧ now st' = now st
  ∧ (∀ r, r ≠ self → bundles st' !! r = bundles st !! r)
  ∧ (∀ b, bundles st !! self = Some b →
          ∃ b', bundles st' !! self = Some b' ∧ same_config b b')
  ∧ (bundles st !! self = None → bundles st' !! self = None)
  ∧ (∀ r p, packets st !! r = Some p →
            ∃ p', packets st' !! r = Some p' ∧ same_packet p p')
  ∧ (∀ r, packets st !! r = None → packets st' !! r = None).

(** A computation that changes no more than that. *)
Definition framed {A} (self : nat) (m : M A) : Prop :=
  ∀ st r st', m st = (r, st') → evolves self st st'.

(** The loader that a build of [b] takes for the configuration [cfg]: the
    code that [packet.parseLoader] gives; when it is to be minified, what
    [loaderCache] holds under the key of the configuration, if it holds
    anything, and else what UglifyJS makes of that code. *)
Definition loader_of `{Host} (b : Bundle.t) (pkt : Packet.t) (cfg : LoaderConfig)
    (minify : bool) : Result (option (string * option RawMap)) :=
  if minify then
    match Bundle.loaderCache b !! URLSearchParams_toString cfg with
    | Some cached => Ok cached
    | None =>
        match parseLoader pkt cfg with
        | Ok src => Ok (uglify_loader src)
        | Throw e => Throw e
        end
    end
  else
    match parseLoader pkt cfg with
    | Ok src => Ok (Some (src, None))
    | Throw e => Throw e
    end.




(** The handles of the pending timers are distinct and already issued. *)
Definition timers_wf (st : Store) : Prop :=
  NoDup (timers st).*1 ∧ ∀ x, x ∈ timers st → x.1 < next_timer st.

(** How many times the [_reload] of [self] ran. *)
Definition reloads (self : nat) (ran : list nat) : nat :=
  length (List.filter (fun r => bool_decide (r = self)) ran).

(** One timer, [h], is pending for the [_reload] of [self]; it is due at
    [d] and [#reloading] holds it. *)
Definition pending (self h : nat) (d : Z) (st : Store) : Prop :=
  timers_wf st
  ∧ (h, {| due := d; target := self |}) ∈ timers st
  ∧ (∀ x, x ∈ timers st → target x.2 = self → x.1 = h)
  ∧ ∃ b, bundles st !! self = Some b ∧ Bundle.p_reloading b = Some h.

(** No timer is pending for [self]. *)
Definition idle (self : nat) (st : Store) : Prop :=
  timers_wf st
  ∧ (∀ x, x ∈ timers st → target x.2 ≠ self)
  ∧ is_Some (bundles st !! self).

(** The ids that [readAsset] hands to [readComponent], which alone looks
    at [isMain]. *)
Definition is_component_script `{Host} `{Collaborators} (id : string) : bool :=
  negb (bool_decide (id = "loader.js"))
  && negb (bool_decide (id = "loaderConfig.json"))
  && negb (bool_decide (id = "porter-sw.js"))
  && negb (serveSource && isSource id)
  && bool_decide (extname id = ".js")
  && (bool_decide (pi_name (parseId id) = pkg_name)
      || negb (in_system_modules (pi_name (parseId id)))).

(** ** [bundle.js], continued *)

Definition with_entries (es : option (list string)) (b : Bundle.t) : Bundle.t :=
  {| Bundle.packet := Bundle.packet b; Bundle.p_entries := es;
     Bundle.loaderConfig := Bundle.loaderConfig b;
     Bundle.loaderCache := Bundle.loaderCache b;
     Bundle.scope := Bundle.scope b; Bundle.format := Bundle.format b;
     Bundle.p_code := Bundle.p_code b; Bundle.p_map := Bundle.p_map b;
     Bundle.p_etag := Bundle.p_etag b;
     Bundle.p_contenthash := Bundle.p_contenthash b;
     Bundle.p_reloading := Bundle.p_reloading b;
     Bundle.updatedAt := Bundle.updatedAt b |}.

(** [set entries(files)]. *)
Definition set_entries (self : nat) (files : list string) : M unit :=
  let* b := this self in
  modify (set_bundle self (with_entries (Some files) b)).

Section Wrap.
Context `{Host}.

(** [entry.family], a getter of [module.js], which is not among the
    sources: the modules it yields, read off the module graph; [None] when
    the value of [packet.files] has no such iterable. *)
Variable family : gmap nat Mod.t → Mod.t → option (list Mod.t).

(** The options that [wrap] hands to [create] for the stylesheet bundle:
    [{ packet, entries, format: '.css' }]. *)
Definition css_options (packet : nat) (entries : list string) : Options :=
  {| o_packet := packet; o_entries := Some entries; o_loaderConfig := None;
     o_format := Some Css; o_all := false; o_package := None |}.

(** [Bundle.wrap(options)]. *)
Definition wrap (options : Options) : M (list nat) :=
  let* bundle := create options in
  let* b := deref bundles "bundle" bundle in
  if bool_decide (Bundle.format b = Css) then ret [bundle]
  else
    let* packet := deref packets "packet" (o_packet options) in
    match o_entries options with
    | None => throw (TypeError "entries[0]")
    | Some es =>
        let* entry := gets (fun st => file_at st packet (default "undefined" (head es))) in
        match entry with
        | None => throw (TypeError "entry.family")
        | Some entry =>
            let* members := gets (fun st => family (modules st) entry) in
            match members with
            | None => throw (TypeError "entry.family")
            | Some members =>
                if existsb (fun m => includes (extMap Css) (extname (Mod.file m))) members
                then
                  let* cssBundle := create (css_options (o_packet options) es) in
                  let* _ := set_entries cssBundle es in
                  ret [bundle; cssBundle]
                else ret [bundle]
            end
        end
    end.
End Wrap.

(** A call of a method of a bundle, or time passing. *)
Inductive Call :=
| CallObtain (loader : option bool) (minify : bool)
| CallMinify (loader : option bool)
| CallReload
| CallContenthash
| CallOutput
| CallOutputPath
| CallSetEntries (files : list string)
| Tick (t : Z).

(** The store after the call; what the call returns or throws is left to
    the caller. *)
Definition call `{Host} (self : nat) (c : Call) (st : Store) : Store :=
  match c with
  | CallObtain loader minify => (obtain self loader minify st).2
  | CallMinify loader => (minify self loader st).2
  | CallReload => (reload self st).2
  | CallContenthash => (contenthash self st).2
  | CallOutput => (output self st).2
  | CallOutputPath => (outputPath self st).2
  | CallSetEntries files => (set_entries self files st).2
  | Tick t => (advance t st).2
  end.

Definition calls `{Host} (self : nat) (cs : list Call) (st : Store) : Store :=
  foldl (fun st c => call self c st) st cs.

(** ** The asset reader, continued *)

(** [headers[k]]. *)
Fixpoint get_header (k : string) (h : Headers) : option string :=
  match h with
  | [] => None
  | (k', v) :: rest => if bool_decide (k = k') then Some v else get_header k rest
  end.

(** ** Notions used to state further properties *)


(** [m] is [entry], or is reached from it through [children]. *)
Inductive reaches (st : Store) : Mod.t → Mod.t → Prop :=
| reaches_refl (m : Mod.t) : reaches st m m
| reaches_child (entry : Mod.t) (r : nat) (child m : Mod.t) :
    r ∈ Mod.children entry → modules st !! r = Some child →
    reaches st child m → reaches st entry m.

(** The flag [preload] with which the loop over the entries walks [entry]. *)
Definition preload_of (entry : Mod.t) : bool :=
  Mod.isPreload entry || Mod.fake entry || Mod.isWorker entry.

(** The entries that the loop over [entries] walks: the values of
    [packet.files] under the names, those that are instances of [Module]. *)
Definition walked_entry (st : Store) (pkt : Packet.t) (names : list string)
    (entry : Mod.t) : Prop :=
  ∃ name, name ∈ names ∧ file_at st pkt name = Some entry
          ∧ Mod.instanceofModule entry = true.

(** No two modules of the store share an id. *)
Definition unique_ids (st : Store) : Prop :=
  ∀ r1 r2 m1 m2,
    modules st !! r1 = Some m1 → modules st !! r2 = Some m2 →
    Mod.id m1 = Mod.id m2 → m1 = m2.

(** [m] is [entry], or is reached from it through children that
    [iterate], called with the flag [preload], does not pass over when it
    meets them first: children that none of its tests excludes and whose id
    is no name of a property of [Object.prototype], for which [done[id]] is
    truthy before any module is done. *)
Inductive requires (st : Store) (packet : nat) (pkt : Packet.t) (scope : Scope)
    (format : Format) (preload : bool) : Mod.t → Mod.t → Prop :=
| requires_refl (m : Mod.t) : requires st packet pkt scope format preload m m
| requires_child (entry : Mod.t) (r : nat) (child m : Mod.t) :
    r ∈ Mod.children entry → modules st !! r = Some child →
    skipped st packet pkt scope format Object_prototype preload child = false →
    requires st packet pkt scope format preload child m →
    requires st packet pkt scope format preload entry m.

(** What the bundle [self] caches of a build. *)
Definition cache_of (self : nat) (st : Store)
    : option (option string * option (list SourceNode) * option string * option string) :=
  (fun b => (Bundle.p_code b, Bundle.p_map b, Bundle.p_etag b, Bundle.p_contenthash b))
    <$> bundles st !! self.

(** The content hash that the bundle [self] holds, if it holds one, is
    that of the code it holds. *)
Definition hash_fresh `{Host} (self : nat) (st : Store) : Prop :=
  ∀ b h code,
    bundles st !! self = Some b →
    truthy (Bundle.p_contenthash b) = Some h →
    truthy (Bundle.p_code b) = Some code →
    h = substring 0 8 (md5_hex code).

(** ** A larger object graph for the examples *)

Module Sample.

(** [home.js] requires [home_dep.js], the stylesheet [app.css] and the
    main module of the packet [yen]. *)
Definition graph : gmap nat Mod.t :=
  {[ 1 := Demo.module_ "home.js" 0 [2; 3; 4];
     2 := Demo.module_ "home_dep.js" 0 [];
     3 := Demo.module_ "app.css" 0 [];
     4 := Demo.module_ "yen/1.2.4/index.js" 1 [] ]}.

Definition packet : Packet.t :=
  Demo.packet {[ "home.js" := 1; "home_dep.js" := 2; "app.css" := 3 ]} [("home.js", 1)].

Definition yen : Packet.t := Demo.dependency {[ "index.js" := 4 ]}.

(** The script bundle and the stylesheet bundle of [home.js]. *)
Definition store : Store :=
  Demo.store graph {[ 0 := packet; 1 := yen ]}
    {[ 0 := Demo.bundle 0 ["home.js"] Js; 1 := Demo.bundle 0 ["home.js"] Css ]}.

(** A bundle of [home.js] that overrides the [baseUrl] of the loader
    configuration of its packet. *)
Definition overriding : Bundle.t :=
  {| Bundle.packet := 0; Bundle.p_entries := Some ["home.js"];
     Bundle.loaderConfig := Some {[ "baseUrl" := JStr "/cdn/" ]};
     Bundle.loaderCache := ∅; Bundle.scope := ScopePacket; Bundle.format := Js;
     Bundle.p_code := None; Bundle.p_map := None; Bundle.p_etag := None;
     Bundle.p_contenthash := None; Bundle.p_reloading := None;
     Bundle.updatedAt := None |}.

Definition configured : Store :=
  Demo.store graph {[ 0 := packet; 1 := yen ]} {[ 0 := overriding ]}.

(** A family for graphs no deeper than this one: the children of the
    entry, then the entry. *)
Definition family (graph : gmap nat Mod.t) (entry : Mod.t) : option (list Mod.t) :=
  Some (omap (fun r => graph !! r) (Mod.children entry) ++ [entry]).

(** The options [{ packet, entries: ['home.js'] }]. *)
Definition home_options : Options :=
  {| o_packet := 0; o_entries := Some ["home.js"]; o_loaderConfig := None;
     o_format := None; o_all := false; o_package := None |}.

End Sample.

(** The code that [obtain] reads off a module, minified or not. *)
Definition code_of `{Host} (minify : bool) (m : Mod.t) : string :=
  match (if minify then mod_minify m else mod_obtain m) with
  | Ok (code, _) => code
  | Throw _ => ""
  end.

(** The times [ts] come in order, the first no sooner than [lo] and each
    100 ms or more after the one before. *)
Fixpoint spaced (lo : Z) (ts : list Z) : Prop :=
  match ts with
  | [] => True
  | t :: rest => (lo ≤ t)%Z ∧ spaced (t + 100) rest
  end.

(** * Properties *)

(** ** The traversal comes to an end *)

Lemma id_in_ids (st : Store) (r : nat) (m : Mod.t) :
  modules st !! r = Some m → Mod.id m ∈ ids_of st.
Proof.
  intros Hm. unfold ids_of. apply elem_of_list_to_set, list_elem_of_fmap.
  exists m. split; [done|]. apply list_elem_of_fmap. exists (r, m).
  split; [done|]. by apply elem_of_map_to_list.
Qed.

Lemma size_list_to_set_le (l : list string) :
  size (list_to_set l : gset string) ≤ length l.
Proof.
  induction l as [|x l IH].
  - rewrite list_to_set_nil, size_empty. simpl. lia.
  - rewrite list_to_set_cons, size_union_alt, size_singleton. simpl.
    assert (size ((list_to_set l : gset string) ∖ {[x]}) ≤ size (list_to_set l : gset string))
      by (apply subseteq_size; set_solver).
    lia.
Qed.

Lemma size_ids_of (st : Store) : size (ids_of st) ≤ size (modules st).
Proof.
  unfold ids_of. etrans; [apply size_list_to_set_le|].
  by rewrite !length_fmap, length_map_to_list.
Qed.

Section Termination.
Context `{Host}.
Variables (st : Store) (packet : nat) (pkt : Packet.t).
Variables (scope : Scope) (format : Format).

Local Abbreviation walk := (iterate_with st packet pkt scope format).
Local Abbreviation visitEntry := (iterateEntry st packet pkt scope format).

(** [visit] returns whenever fewer than [k] ids are left to mark. *)
Let returns (k : nat) (visit : Visit) : Prop :=
  ∀ done child preload,
    size (ids_of st ∖ ({[ Mod.id child ]} ∪ done)) < k →
    ∃ ys done', visit done child preload = Some (ys, done')
                ∧ {[ Mod.id child ]} ∪ done ⊆ done'.

Lemma skipped_done done preload child :
  skipped st packet pkt scope format done preload child = false →
  Mod.id child ∉ done.
Proof.
  unfold skipped. intros Hs Hin.
  rewrite bool_decide_eq_true_2 in Hs by done. done.
Qed.

Lemma fewer_left (done : gset string) (i : string) :
  i ∈ ids_of st → i ∉ done →
  size (ids_of st ∖ ({[ i ]} ∪ done)) < size (ids_of st ∖ done).
Proof. intros Hi Hn. apply subset_size. set_solver. Qed.

Lemma iterate_with_returns k visit done children preload :
  returns k visit →
  size (ids_of st ∖ done) ≤ k →
  ∃ ys done', walk visit done children preload = Some (ys, done') ∧ done ⊆ done'.
Proof.
  intros Hv. revert done.
  induction children as [|r rest IH]; intros done Hk; simpl.
  - eauto.
  - destruct (modules st !! r) as [child|] eqn:Hr; [|by apply IH].
    destruct (skipped _ _ _ _ _ done preload child) eqn:Hs; [by apply IH|].
    apply skipped_done in Hs.
    destruct (Hv done child preload) as (ys & done1 & -> & Hsub).
    { pose proof (fewer_left done (Mod.id child) (id_in_ids _ _ _ Hr) Hs). lia. }
    simpl. destruct (IH done1) as (zs & done2 & -> & Hsub2).
    { etrans; [|exact Hk]. apply subseteq_size. set_solver. }
    simpl. eexists _, _. split; [done|]. set_solver.
Qed.

Lemma iterateEntry_returns fuel : returns fuel (visitEntry fuel).
Proof.
  induction fuel as [|fuel IH]; intros done entry preload Hk; [lia|].
  simpl.
  destruct (iterate_with_returns fuel (visitEntry fuel)
              ({[ Mod.id entry ]} ∪ done) (Mod.children entry) preload IH)
    as (ys & done1 & -> & Hsub1); [lia|].
  simpl. case_bool_decide.
  - destruct (iterate_with_returns fuel (visitEntry fuel)
                done1 (Mod.children entry) preload IH)
      as (zs & done2 & -> & Hsub2).
    { etrans; [apply subseteq_size|apply Nat.lt_succ_r, Hk]. set_solver. }
    simpl. eexists _, _. split; [done|]. set_solver.
  - eexists _, _. split; [done|]. set_solver.
Qed.

Lemma iterator_from_returns fuel done names :
  size (ids_of st) < fuel →
  (iterator_from st packet pkt scope format fuel done names).2 ≠ Some Diverged.
Proof.
  intros Hf. revert done.
  induction names as [|name rest IH]; intros seen; simpl; [by auto|].
  destruct (file_at st pkt name) as [entry|]; [|done].
  destruct (negb (Mod.instanceofModule entry)); [apply IH|].
  destruct (iterateEntry_returns fuel seen entry
              (Mod.isPreload entry || Mod.fake entry || Mod.isWorker entry))
    as (ys & done1 & -> & _).
  { eapply Nat.le_lt_trans; [apply subseteq_size|exact Hf]. set_solver. }
  specialize (IH done1).
  destruct (iterator_from _ _ _ _ _ fuel done1 rest) as [zs e]. exact IH.
Qed.
End Termination.

(** Whatever the module graph, cyclic or not, and whatever the entries,
    the traversal of a bundle comes to an end: the depth of the nested
    calls of [iterateEntry] never exceeds the number of modules. *)
Lemma iterator_never_diverges `{Host} (st : Store) (pkt : Packet.t) (b : Bundle.t) :
  (iterator st pkt b).2 ≠ Some Diverged.
Proof.
  apply iterator_from_returns. unfold enough_fuel.
  pose proof (size_ids_of st). lia.
Qed.

(** ** One walk yields an id once *)

Section Visited.
Context `{Host}.
Variables (st : Store) (packet : nat) (pkt : Packet.t).
Variables (scope : Scope) (format : Format).

Local Abbreviation walk := (iterate_with st packet pkt scope format).
Local Abbreviation visitEntry := (iterateEntry st packet pkt scope format).

(** What a walk of the children yields is new and is marked. *)
Let walked (seen : gset string) (ys : list Mod.t) (seen' : gset string) : Prop :=
  seen ⊆ seen' ∧ NoDup (Mod.id <$> ys)
  ∧ (∀ y, y ∈ ys → Mod.id y ∈ seen') ∧ (∀ y, y ∈ ys → Mod.id y ∉ seen).

(** What a visit of [entry] yields beyond what is new is [entry] itself. *)
Let visited (seen : gset string) (entry : Mod.t) (ys : list Mod.t)
    (seen' : gset string) : Prop :=
  {[ Mod.id entry ]} ∪ seen ⊆ seen' ∧ NoDup (Mod.id <$> ys)
  ∧ (∀ y, y ∈ ys → Mod.id y ∈ seen')
  ∧ (∀ y, y ∈ ys → Mod.id y ∈ seen → y = entry).

Let sound (visit : Visit) : Prop :=
  ∀ seen child preload ys seen',
    visit seen child preload = Some (ys, seen') → visited seen child ys seen'.

Lemma NoDup_ids_app (xs ys : list Mod.t) :
  NoDup (Mod.id <$> xs) → NoDup (Mod.id <$> ys) →
  (∀ x y, x ∈ xs → y ∈ ys → Mod.id x ≠ Mod.id y) →
  NoDup (Mod.id <$> (xs ++ ys)).
Proof.
  intros Hx Hy Hd. rewrite fmap_app. apply NoDup_app. split; [done|]. split; [|done].
  intros i [x [-> Hxin]]%list_elem_of_fmap [y [Heq Hyin]]%list_elem_of_fmap.
  by eapply Hd.
Qed.

Lemma iterate_with_walked visit seen children preload ys seen' :
  sound visit →
  walk visit seen children preload = Some (ys, seen') →
  walked seen ys seen'.
Proof.
  intros Hv. revert seen ys seen'.
  induction children as [|r rest IH]; intros seen ys seen' Hw; simpl in Hw.
  - injection Hw as <- <-. repeat split; [set_solver|constructor|set_solver..].
  - destruct (modules st !! r) as [child|] eqn:Hr; [|by apply IH].
    destruct (skipped _ _ _ _ _ seen preload child) eqn:Hs; [by apply IH|].
    apply skipped_done in Hs.
    destruct (visit seen child preload) as [[ys1 seen1]|] eqn:Hvis; [|done].
    simpl in Hw.
    destruct (walk visit seen1 rest preload) as [[zs seen2]|] eqn:Hrest; [|done].
    simpl in Hw. injection Hw as <- <-.
    destruct (Hv _ _ _ _ _ Hvis) as (Hs1 & Hn1 & Hin1 & Hold1).
    destruct (IH _ _ _ Hrest) as (Hs2 & Hn2 & Hin2 & Hnew2).
    assert (Hnew1 : ∀ y, y ∈ ys1 → Mod.id y ∉ seen).
    { intros y Hy Hsy. specialize (Hold1 y Hy Hsy). by subst y. }
    repeat split.
    + set_solver.
    + apply NoDup_ids_app; [done..|].
      intros x y Hx Hy Heq. apply (Hnew2 y Hy). rewrite <- Heq. by apply Hin1.
    + intros y [Hy|Hy]%elem_of_app; [apply Hs2|]; auto.
    + intros y [Hy|Hy]%elem_of_app; [by apply Hnew1|].
      intros Hsy. apply (Hnew2 y Hy). set_solver.
Qed.

Lemma iterateEntry_visited fuel : sound (visitEntry fuel).
Proof.
  induction fuel as [|fuel IH]; intros seen entry preload ys seen' Hv; [done|].
  simpl in Hv.
  destruct (walk (visitEntry fuel) ({[Mod.id entry]} ∪ seen) (Mod.children entry) preload)
    as [[ys1 seen1]|] eqn:Hw1; [|done].
  simpl in Hv.
  destruct (iterate_with_walked _ _ _ _ _ _ IH Hw1) as (Hs1 & Hn1 & Hin1 & Hnew1).
  set (self := if includes (extMap format) (extname (Mod.file entry))
               then [entry] else []) in *.
  assert (Hself : ∀ y, y ∈ self → y = entry).
  { subst self. intros y. destruct (includes _ _); set_solver. }
  assert (Hnself : NoDup (Mod.id <$> self)).
  { subst self. destruct (includes _ _); simpl; repeat constructor. set_solver. }
  assert (Hfirst : NoDup (Mod.id <$> (ys1 ++ self))).
  { apply NoDup_ids_app; [done..|].
    intros x y Hx Hy Heq. apply Hself in Hy as ->.
    apply (Hnew1 x Hx). set_solver. }
  case_bool_decide.
  - destruct (walk (visitEntry fuel) seen1 (Mod.children entry) preload)
      as [[zs seen2]|] eqn:Hw2; [|done].
    simpl in Hv. injection Hv as <- <-.
    destruct (iterate_with_walked _ _ _ _ _ _ IH Hw2) as (Hs2 & Hn2 & Hin2 & Hnew2).
    repeat split.
    + set_solver.
    + rewrite app_assoc. apply NoDup_ids_app; [done..|].
      intros x y [Hx|Hx]%elem_of_app Hy Heq; apply (Hnew2 y Hy); rewrite <- Heq.
      * by apply Hin1.
      * apply Hself in Hx as ->. set_solver.
    + intros y [Hy|[Hy|Hy]%elem_of_app]%elem_of_app.
      * apply Hs2. by apply Hin1.
      * apply Hself in Hy as ->. set_solver.
      * by apply Hin2.
    + intros y [Hy|[Hy|Hy]%elem_of_app]%elem_of_app Hsy.
      * exfalso. apply (Hnew1 y Hy). set_solver.
      * by apply Hself.
      * exfalso. apply (Hnew2 y Hy). set_solver.
  - injection Hv as <- <-. repeat split.
    + set_solver.
    + done.
    + intros y [Hy|Hy]%elem_of_app; [by apply Hin1|].
      apply Hself in Hy as ->. set_solver.
    + intros y [Hy|Hy]%elem_of_app Hsy; [|by apply Hself].
      exfalso. apply (Hnew1 y Hy). set_solver.
Qed.

(** Whatever the graph, cyclic or not, the walk of one entry yields no id
    twice. *)
Lemma iterateEntry_NoDup fuel seen entry preload ys seen' :
  visitEntry fuel seen entry preload = Some (ys, seen') →
  NoDup (Mod.id <$> ys).
Proof. intros Hv. by destruct (iterateEntry_visited _ _ _ _ _ _ Hv) as (_ & ? & _). Qed.
End Visited.

(** A bundle of one entry yields no id twice, whatever the graph. *)
Lemma iterator_one_entry_NoDup `{Host} (st : Store) (pkt : Packet.t) (b : Bundle.t)
    (name : string) :
  entries st pkt b = [name] →
  NoDup (Mod.id <$> (iterator st pkt b).1).
Proof.
  intros He. unfold iterator. rewrite He. cbn [iterator_from].
  destruct (file_at st pkt name) as [entry|]; [|constructor].
  destruct (negb (Mod.instanceofModule entry)); [constructor|].
  destruct (iterateEntry _ _ _ _ _ _ _ entry _) as [[ys seen]|] eqn:Hv; [|constructor].
  simpl. rewrite app_nil_r. by eapply iterateEntry_NoDup.
Qed.

(** C4. The claim asks one iteration of a bundle to end and to yield each
    module id at most once, also when the closures of several entries
    overlap. The iteration ends ([iterator_never_diverges]) and one entry
    alone yields no id twice ([iterator_one_entry_NoDup]); but the loop over
    the entries does not consult [done]: with [a.js] requiring [b.js] and
    both of them entries, [b.js] is yielded while [a.js] is walked and once
    more as an entry. *)
Theorem iterator_yields_entry_twice :
  entries Demo.two_entries (Demo.packet Demo.cycle_files [])
          (Demo.bundle 0 ["a.js"; "b.js"] Js) = ["a.js"; "b.js"]
  ∧ Mod.id <$> (@iterator Node.host Demo.two_entries (Demo.packet Demo.cycle_files [])
                  (Demo.bundle 0 ["a.js"; "b.js"] Js)).1
    = ["b.js"; "a.js"; "b.js"]
  ∧ (@iterator Node.host Demo.two_entries (Demo.packet Demo.cycle_files [])
       (Demo.bundle 0 ["a.js"; "b.js"] Js)).2 = None.
Proof. by vm_compute. Qed.

(** ** What a method leaves as it is *)

Lemma entries_frame (st st' : Store) (pkt : Packet.t) (b : Bundle.t) :
  modules st' = modules st → entries st' pkt b = entries st pkt b.
Proof. intros Hm. unfold entries. by rewrite Hm. Qed.

Lemma file_at_frame (st st' : Store) (pkt : Packet.t) (name : string) :
  modules st' = modules st → file_at st' pkt name = file_at st pkt name.
Proof. intros Hm. unfold file_at. by rewrite Hm. Qed.

(** ** A missing entry *)

(** C1, as the code has it. When the first entry of a bundle is absent
    from [packet.files] and the [etag] does not already answer for the
    entries, [obtain] throws the error of the traversal, "unparsed entry",
    for a [.css] bundle as for a [.js] one. *)
Theorem obtain_missing_entry `{Host} (st : Store) (self : nat) (b : Bundle.t)
    (pkt : Packet.t) (loader : option bool) (minify : bool) (name : string)
    (rest : list string) :
  bundles st !! self = Some b →
  packets st !! Bundle.packet b = Some pkt →
  entries st pkt b = name :: rest →
  file_at st pkt name = None →
  Bundle.p_etag b ≠ Some (etag_of (entries st pkt b)) →
  (obtain self loader minify st).1 = Throw (UnparsedEntry name (Packet.dir pkt)).
Proof.
  intros Hb Hp He Hf Hetag.
  unfold obtain, bind, this, packet_of, deref, gets, modify, lift, ret, throw.
  rewrite Hb, Hp. rewrite bool_decide_eq_false_2 by done.
  cbn [fst snd].
  unfold iterator. rewrite (entries_frame st) by done. rewrite He.
  cbn [iterator_from]. rewrite (file_at_frame st) by done. rewrite Hf.
  reflexivity.
Qed.

Lemma obtain_missing_entry_witness :
  bundles Demo.missing_css !! 0 = Some (Demo.bundle 0 ["app.css"] Css)
  ∧ packets Demo.missing_css !! 0 = Some (Demo.packet ∅ [])
  ∧ entries Demo.missing_css (Demo.packet ∅ []) (Demo.bundle 0 ["app.css"] Css)
    = ["app.css"]
  ∧ file_at Demo.missing_css (Demo.packet ∅ []) "app.css" = None
  ∧ (@obtain Node.host 0 None false Demo.missing_css).1
    = Throw (UnparsedEntry "app.css" "/app").
Proof.
  do 4 (split; [reflexivity|]).
  apply (@obtain_missing_entry Node.host Demo.missing_css 0
           (Demo.bundle 0 ["app.css"] Css) (Demo.packet ∅ []) None false "app.css" []);
    [reflexivity..|discriminate].
Defined.

(** C1, as the claim words it, fails on a stylesheet bundle: its entry
    [app.css] is absent from [packet.files], and [obtain] throws where the
    claim has it produce an empty result. *)
Lemma missing_css_entry_throws :
  Bundle.format (Demo.bundle 0 ["app.css"] Css) = Css
  ∧ file_at Demo.missing_css (Demo.packet ∅ []) "app.css" = None
  ∧ ¬ (∃ result, (@obtain Node.host 0 None false Demo.missing_css).1 = Ok result).
Proof.
  split; [reflexivity|]. split; [reflexivity|].
  intros [result Hr]. vm_compute in Hr. discriminate Hr.
Qed.

(** With no entry at all, a [.js] bundle fails on the test of [obtain]. *)
Lemma obtain_no_entry `{Host} (st : Store) (self : nat) (b : Bundle.t)
    (pkt : Packet.t) (loader : option bool) (minify : bool) :
  bundles st !! self = Some b →
  packets st !! Bundle.packet b = Some pkt →
  entries st pkt b = [] →
  file_at st pkt "undefined" = None →
  Bundle.p_etag b ≠ Some (etag_of (entries st pkt b)) →
  Bundle.format b = Js →
  (obtain self loader minify st).1
  = Throw (UnableToFind None (Packet.name pkt) (Packet.version pkt)).
Proof.
  intros Hb Hp He Hf Hetag Hjs.
  unfold obtain, bind, this, packet_of, deref, gets, modify, lift, ret, throw.
  rewrite Hb, Hp. rewrite bool_decide_eq_false_2 by done.
  cbn [fst snd].
  unfold iterator. rewrite (entries_frame st) by done. rewrite He.
  cbn [iterator_from add_modules fst snd head default].
  rewrite (file_at_frame st) by done. rewrite Hf, Hjs.
  reflexivity.
Qed.

(** ** [Bundle.create] *)

Lemma fresh_bundle (st : Store) : bundles st !! fresh (dom (bundles st)) = None.
Proof. apply not_elem_of_dom, is_fresh. Qed.

Lemma same_config_refl (b : Bundle.t) : same_config b b.
Proof. by repeat split. Qed.

Lemma same_config_trans (b1 b2 b3 : Bundle.t) :
  same_config b1 b2 → same_config b2 b3 → same_config b1 b3.
Proof.
  intros (?&?&?&?&?&?) (?&?&?&?&?&?). repeat split; congruence.
Qed.

Lemma same_packet_refl (p : Packet.t) : same_packet p p.
Proof. by destruct p. Qed.

Lemma same_packet_trans (p1 p2 p3 : Packet.t) :
  same_packet p1 p2 → same_packet p2 p3 → same_packet p1 p3.
Proof. unfold same_packet. intros -> ->. by destruct p1. Qed.

Lemma same_packet_with (c : LoaderConfig) (p : Packet.t) :
  same_packet p (with_loaderConfig c p).
Proof. by destruct p. Qed.

(** ** The traversal reads the modules, the files and the [isolated] flags *)

Section IteratorFrame.
Context `{Host}.
Variables (st st' : Store) (packet : nat) (pkt pkt' : Packet.t).
Variables (scope : Scope) (format : Format).
Hypothesis same_modules : modules st' = modules st.
Hypothesis same_isolated :
  ∀ r, from_option Packet.isolated false (packets st' !! r)
       = from_option Packet.isolated false (packets st !! r).
Hypothesis same_files : Packet.files pkt' = Packet.files pkt.
Hypothesis same_dir : Packet.dir pkt' = Packet.dir pkt.
Hypothesis same_flag : Packet.isolated pkt' = Packet.isolated pkt.

Lemma skipped_frame seen preload child :
  skipped st' packet pkt' scope format seen preload child
  = skipped st packet pkt scope format seen preload child.
Proof. unfold skipped. by rewrite same_isolated, same_flag. Qed.

Lemma iterate_with_frame visit visit' seen children preload :
  (∀ s c p, visit' s c p = visit s c p) →
  iterate_with st' packet pkt' scope format visit' seen children preload
  = iterate_with st packet pkt scope format visit seen children preload.
Proof.
  intros Hv. revert seen.
  induction children as [|r rest IH]; intros seen; simpl; [done|].
  rewrite same_modules. destruct (modules st !! r) as [child|]; [|done].
  rewrite skipped_frame. destruct (skipped _ _ _ _ _ _ _ _); [done|].
  rewrite Hv. destruct (visit seen child preload) as [[ys seen1]|]; [|done].
  simpl. by rewrite IH.
Qed.

Lemma iterateEntry_frame fuel seen entry preload :
  iterateEntry st' packet pkt' scope format fuel seen entry preload
  = iterateEntry st packet pkt scope format fuel seen entry preload.
Proof.
  revert seen entry preload.
  induction fuel as [|fuel IH]; intros seen entry preload; [done|].
  simpl. rewrite (iterate_with_frame (iterateEntry st packet pkt scope format fuel)) by done.
  destruct (iterate_with st _ _ _ _ _ _ _ _) as [[ys seen1]|]; [|done].
  simpl. by rewrite (iterate_with_frame (iterateEntry st packet pkt scope format fuel)).
Qed.

Lemma file_at_agree name : file_at st' pkt' name = file_at st pkt name.
Proof. unfold file_at. by rewrite same_files, same_modules. Qed.

Lemma iterator_from_frame fuel seen names :
  iterator_from st' packet pkt' scope format fuel seen names
  = iterator_from st packet pkt scope format fuel seen names.
Proof.
  revert seen. induction names as [|name rest IH]; intros seen; simpl; [done|].
  rewrite file_at_agree, same_dir.
  destruct (file_at st pkt name) as [entry|]; [|done].
  destruct (negb _); [done|].
  rewrite iterateEntry_frame.
  destruct (iterateEntry st _ _ _ _ _ _ _ _) as [[ys seen1]|]; [|done].
  by rewrite IH.
Qed.
End IteratorFrame.

Lemma entries_agree (st st' : Store) (pkt pkt' : Packet.t) (b b' : Bundle.t) :
  modules st' = modules st →
  Packet.entries pkt' = Packet.entries pkt →
  Bundle.p_entries b' = Bundle.p_entries b →
  entries st' pkt' b' = entries st pkt b.
Proof. intros Hm He Hp. unfold entries. by rewrite Hm, He, Hp. Qed.

(** Two stores that hold the same graph and two bundles configured alike
    are traversed alike. *)
Lemma iterator_agree `{Host} (st st' : Store) (pkt pkt' : Packet.t) (b b' : Bundle.t) :
  modules st' = modules st →
  (∀ r, from_option Packet.isolated false (packets st' !! r)
        = from_option Packet.isolated false (packets st !! r)) →
  same_packet pkt pkt' →
  same_config b b' →
  iterator st' pkt' b' = iterator st pkt b.
Proof.
  intros Hm Hi Hp (Hcp & Hce & _ & Hcs & Hcf & _). unfold iterator, enough_fuel.
  rewrite (entries_agree st st' pkt pkt' b b') by (done || by rewrite Hp).
  rewrite Hm, Hcp, Hcs, Hcf.
  by apply iterator_from_frame; try rewrite Hp.
Qed.

Lemma iterator_frame `{Host} (st st' : Store) (pkt : Packet.t) (b : Bundle.t) :
  modules st' = modules st →
  (∀ r, from_option Packet.isolated false (packets st' !! r)
        = from_option Packet.isolated false (packets st !! r)) →
  iterator st' pkt b = iterator st pkt b.
Proof.
  intros Hm Hi.
  apply iterator_agree; [done|done|apply same_packet_refl|apply same_config_refl].
Qed.

(** Assigning the loader configuration of a packet changes no [isolated]
    flag. *)
Lemma isolated_with_loaderConfig (st : Store) (p : nat) (pkt : Packet.t)
    (c : LoaderConfig) (r : nat) :
  packets st !! p = Some pkt →
  from_option Packet.isolated false (<[p := with_loaderConfig c pkt]> (packets st) !! r)
  = from_option Packet.isolated false (packets st !! r).
Proof.
  intros Hp. destruct (decide (p = r)) as [<-|Hne].
  - by rewrite lookup_insert_eq, Hp.
  - by rewrite lookup_insert_ne.
Qed.

(** ** What [obtain] builds *)


(** ** What the methods of a bundle change *)

Lemma evolves_refl (self : nat) (st : Store) : evolves self st st.
Proof.
  do 5 (split; [done|]). split; [|split; [done|split; [|done]]].
  - intros b Hb. exists b. split; [done|]. apply same_config_refl.
  - intros r p Hp. exists p. split; [done|]. apply same_packet_refl.
Qed.

Lemma evolves_trans (self : nat) (st1 st2 st3 : Store) :
  evolves self st1 st2 → evolves self st2 st3 → evolves self st1 st3.
Proof.
  intros (Hm1 & Ht1 & Hn1 & Hc1 & Ho1 & Hs1 & Hz1 & Hp1 & Hq1)
         (Hm2 & Ht2 & Hn2 & Hc2 & Ho2 & Hs2 & Hz2 & Hp2 & Hq2).
  split; [congruence|]. split; [congruence|]. split; [congruence|].
  split; [congruence|]. split; [|split; [|split; [|split]]].
  - intros r Hr. by rewrite Ho2, Ho1.
  - intros b Hb. destruct (Hs1 b Hb) as (b2 & Hb2 & Hc12).
    destruct (Hs2 b2 Hb2) as (b3 & Hb3 & Hc23).
    exists b3. split; [done|]. by eapply same_config_trans.
  - auto.
  - intros r p Hp. destruct (Hp1 r p Hp) as (p2 & Hp2' & Hc12).
    destruct (Hp2 r p2 Hp2') as (p3 & Hp3 & Hc23).
    exists p3. split; [done|]. by eapply same_packet_trans.
  - auto.
Qed.

Lemma evolves_set_bundle (self : nat) (b b' : Bundle.t) (st : Store) :
  bundles st !! self = Some b → same_config b b' →
  evolves self st (set_bundle self b' st).
Proof.
  intros Hb Hc. repeat split; cbn; eauto using same_packet_refl.
  - intros r Hr. by rewrite lookup_insert_ne.
  - intros b0 Hb0. rewrite lookup_insert_eq. exists b'. split; [done|]. congruence.
  - congruence.
Qed.

Lemma evolves_set_packet (self r : nat) (p : Packet.t) (c : LoaderConfig) (st : Store) :
  packets st !! r = Some p →
  evolves self st (set_packet r (with_loaderConfig c p) st).
Proof.
  intros Hp. repeat split; cbn; eauto using same_config_refl.
  - intros r' p' Hp'. destruct (decide (r = r')) as [<-|Hne].
    + rewrite lookup_insert_eq. eexists. split; [done|].
      replace p' with p by congruence. apply same_packet_with.
    + rewrite lookup_insert_ne by done. eauto using same_packet_refl.
  - intros r' Hr'. rewrite lookup_insert_ne; [done|]. congruence.
Qed.

Lemma evolves_perform (self : nat) (e : Effect) (st : Store) :
  evolves self st (perform e st).
Proof. repeat split; cbn; eauto using same_config_refl, same_packet_refl. Qed.

Lemma framed_ret {A} (self : nat) (a : A) : framed self (ret a).
Proof. intros st r st' [= <- <-]. apply evolves_refl. Qed.

Lemma framed_throw {A} (self : nat) (e : Error) : framed self (@throw A e).
Proof. intros st r st' [= <- <-]. apply evolves_refl. Qed.

Lemma framed_lift {A} (self : nat) (x : Result A) : framed self (lift x).
Proof. intros st r st' [= <- <-]. apply evolves_refl. Qed.

Lemma framed_gets {A} (self : nat) (f : Store → A) : framed self (gets f).
Proof. intros st r st' [= <- <-]. apply evolves_refl. Qed.

Lemma framed_deref {A} (self : nat) (heap : Store → gmap nat A) (what : string) (x : nat) :
  framed self (deref heap what x).
Proof.
  intros st r st'. unfold deref. destruct (heap st !! x); intros [= <- <-];
    apply evolves_refl.
Qed.

Lemma framed_bind {A B} (self : nat) (m : M A) (k : A → M B) :
  framed self m → (∀ a, framed self (k a)) → framed self (bind m k).
Proof.
  intros Hm Hk st r st'. unfold bind.
  destruct (m st) as [[a|e] st1] eqn:Hrun.
  - intros Hrun2. eapply evolves_trans; [by eapply Hm|by eapply Hk].
  - intros [= <- <-]. by eapply Hm.
Qed.

Lemma same_config_with_cache c m e h (b : Bundle.t) :
  same_config b (with_cache c m e h b).
Proof. by repeat split. Qed.

Lemma same_config_with_loaderCache c (b : Bundle.t) :
  same_config b (with_loaderCache c b).
Proof. by repeat split. Qed.

Lemma same_config_with_updatedAt t (b : Bundle.t) :
  same_config b (with_updatedAt t b).
Proof. by repeat split. Qed.

Lemma framed_contenthash `{Host} (self : nat) : framed self (contenthash self).
Proof.
  intros st r st'. unfold contenthash, bind, this, deref, modify, ret.
  destruct (bundles st !! self) as [b|] eqn:Hb; [|intros [= <- <-]; apply evolves_refl].
  destruct (truthy (Bundle.p_code b)); [|intros [= <- <-]; apply evolves_refl].
  destruct (truthy (Bundle.p_contenthash b)); intros [= <- <-].
  - apply evolves_refl.
  - apply evolves_set_bundle with b; [done|]. apply same_config_with_cache.
Qed.

Lemma framed_output `{Host} (self : nat) : framed self (output self).
Proof.
  unfold output.
  apply framed_bind; [apply framed_deref|]. intros b.
  apply framed_bind; [apply framed_deref|]. intros pkt.
  apply framed_bind; [apply framed_gets|]. intros es.
  destruct es; [apply framed_ret|].
  destruct (truthy _); [|apply framed_ret].
  apply framed_bind; [apply framed_contenthash|]. intros h.
  destruct (entry pkt b); [apply framed_ret|apply framed_throw].
Qed.

Lemma framed_outputPath `{Host} (self : nat) : framed self (outputPath self).
Proof.
  unfold outputPath.
  apply framed_bind; [apply framed_output|]. intros out.
  apply framed_bind; [apply framed_deref|]. intros b.
  apply framed_bind; [apply framed_deref|]. intros pkt.
  apply framed_ret.
Qed.

Lemma framed_obtainLoader `{Host} (self : nat) (c : LoaderConfig) :
  framed self (obtainLoader self c).
Proof.
  unfold obtainLoader.
  apply framed_bind; [apply framed_deref|]. intros b.
  apply framed_bind; [apply framed_deref|]. intros pkt.
  apply framed_bind; [apply framed_lift|]. intros code.
  apply framed_ret.
Qed.

Lemma framed_minifyLoader `{Host} (self : nat) (c : LoaderConfig) :
  framed self (minifyLoader self c).
Proof.
  intros st r st'. unfold minifyLoader, bind, this, packet_of, deref, modify, lift, ret.
  destruct (bundles st !! self) as [b|] eqn:Hb; [|intros [= <- <-]; apply evolves_refl].
  destruct (Bundle.loaderCache b !! _); [intros [= <- <-]; apply evolves_refl|].
  destruct (packets st !! Bundle.packet b); [|intros [= <- <-]; apply evolves_refl].
  destruct (parseLoader _ _); [|intros [= <- <-]; apply evolves_refl].
  rewrite Hb. intros [= <- <-].
  apply evolves_set_bundle with b; [done|]. apply same_config_with_loaderCache.
Qed.

Lemma framed_pack_dependencies (self p : nat) (all : list nat) :
  framed self (pack_dependencies p all).
Proof.
  intros st r st'. unfold pack_dependencies, modify. intros [= <- <-].
  revert st. induction all as [|dep rest IH]; intros st; simpl.
  - apply evolves_refl.
  - eapply evolves_trans; [|apply IH].
    case_bool_decide; [apply evolves_refl|apply evolves_perform].
Qed.

Lemma framed_obtain `{Host} (self : nat) (loader : option bool) (minify : bool) :
  framed self (obtain self loader minify).
Proof.
  intros st r st'. unfold obtain at 1. unfold bind at 1, this, deref.
  destruct (bundles st !! self) as [b|] eqn:Hb; [|intros [= <- <-]; apply evolves_refl].
  unfold bind at 1, packet_of, deref.
  destruct (packets st !! Bundle.packet b) as [pkt|] eqn:Hp;
    [|intros [= <- <-]; apply evolves_refl].
  unfold bind at 1, gets at 1.
  case_bool_decide; [intros [= <- <-]; apply evolves_refl|].
  unfold bind at 1, gets at 1. unfold bind at 1, modify at 1.
  unfold bind at 1, modify at 1.
  intros Hrun.
  match type of Hrun with
  | ?m ?s = _ => cut (framed self m); [intros Hrest; apply evolves_trans with s|]
  end.
  { eapply evolves_trans; [apply evolves_set_bundle with b;
                           [done|apply same_config_with_updatedAt]|].
    apply evolves_set_packet. cbn. exact Hp. }
  { exact (Hrest _ _ _ Hrun). }
  clear Hrun.
  apply framed_bind; [apply framed_gets|]. intros yielded.
  apply framed_bind; [apply framed_lift|]. intros nodes.
  apply framed_bind; [destruct yielded.2; [apply framed_throw|apply framed_ret]|]. intros _.
  apply framed_bind; [apply framed_gets|]. intros [mod_|];
    [|case_bool_decide; apply framed_throw].
  apply framed_bind.
  { destruct (Mod.isRootEntry mod_); [apply framed_pack_dependencies|apply framed_ret]. }
  intros _.
  apply framed_bind.
  { destruct (_ && _ && _); [|apply framed_ret].
    apply framed_bind;
      [|intros [[code map]|]; [apply framed_ret|apply framed_throw]].
    destruct minify; [apply framed_minifyLoader|apply framed_obtainLoader]. }
  intros all s1 r1 s2. unfold bind, this, deref, modify, ret.
  destruct (bundles s1 !! self) as [b1|] eqn:Hb1; intros [= <- <-]; [|apply evolves_refl].
  apply evolves_set_bundle with b1; [done|]. apply same_config_with_cache.
Qed.

Lemma framed__reload `{Host} (self : nat) : framed self (_reload self).
Proof.
  unfold _reload.
  apply framed_bind; [apply framed_deref|]. intros b.
  apply framed_bind; [apply framed_deref|]. intros pkt.
  apply framed_bind; [apply framed_outputPath|]. intros path.
  case_bool_decide; [apply framed_ret|].
  apply framed_bind.
  { intros st r st' [= <- <-]. apply evolves_perform. }
  intros _. intros st r st'. unfold bind at 1, this, deref.
  destruct (bundles st !! self) as [b'|] eqn:Hb; [|intros [= <- <-]; apply evolves_refl].
  unfold bind at 1, modify at 1. intros Hrun.
  match type of Hrun with
  | ?m ?s = _ => cut (framed self m); [intros Hrest; apply evolves_trans with s|]
  end.
  { apply evolves_set_bundle with b'; [done|apply same_config_with_cache]. }
  { exact (Hrest _ _ _ Hrun). }
  apply framed_bind; [apply framed_obtain|]. intros; apply framed_ret.
Qed.

Lemma pack_step (self p : nat) (all : list nat) (st : Store) :
  ∃ st', pack_dependencies p all st = (Ok (), st')
         ∧ evolves self st st' ∧ packets st' = packets st.
Proof.
  eexists. split; [reflexivity|]. split; [by eapply framed_pack_dependencies|].
  revert st. induction all as [|dep rest IH]; intros st; simpl; [done|].
  rewrite IH. by case_bool_decide.
Qed.

Lemma loader_step `{Host} (self : nat) (cfg : LoaderConfig) (minify : bool)
    (st st' : Store) (r : Result (option (string * option RawMap))) :
  (if minify then minifyLoader self cfg else obtainLoader self cfg) st = (r, st') →
  evolves self st st' ∧ packets st' = packets st.
Proof.
  intros Hl. split.
  { destruct minify; [by eapply framed_minifyLoader|by eapply framed_obtainLoader]. }
  destruct minify; revert Hl;
    unfold minifyLoader, obtainLoader, bind, this, packet_of, deref, modify, lift, ret;
    repeat case_match; intros; by simplify_eq.
Qed.

Lemma bind_inv {A B} (m : M A) (k : A → M B) (st st' : Store) (r : B) :
  bind m k st = (Ok r, st') →
  ∃ a st1, m st = (Ok a, st1) ∧ k a st1 = (Ok r, st').
Proof.
  unfold bind. destruct (m st) as [[a|e] st1]; [eauto|done].
Qed.

Ltac inv_bind H a s Ha :=
  apply bind_inv in H as (a & s & Ha & H).

(** The bundle that a build leaves under [self]: the code, the map and the
    [etag] are set, [#contenthash] is unset, the configuration is kept. *)
Lemma obtain_miss_final `{Host} (st : Store) (self : nat) (b : Bundle.t)
    (pkt : Packet.t) (loader : option bool) (minify : bool)
    (code : option string) (nodes : option (list SourceNode)) (st' : Store) :
  bundles st !! self = Some b →
  packets st !! Bundle.packet b = Some pkt →
  Bundle.p_etag b ≠ Some (etag_of (entries st pkt b)) →
  obtain self loader minify st = (Ok (code, nodes), st') →
  ∃ bL all,
    code = Some (toString all) ∧ nodes = Some all
    ∧ bundles st' !! self
      = Some (with_cache code nodes (Some (etag_of (entries st pkt b))) None bL)
    ∧ same_config b bL
    ∧ packets st' !! Bundle.packet b
      = Some (with_loaderConfig
                (Object_assign (Packet.loaderConfig pkt) (Bundle.loaderConfig b)) pkt)
    ∧ evolves self st st'.
Proof.
  intros Hb Hp Hetag Hrun.
  pose proof (framed_obtain self loader minify st _ _ Hrun) as Hev.
  unfold obtain in Hrun.
  inv_bind Hrun b0 s0 H0. unfold this, deref in H0. rewrite Hb in H0.
  injection H0 as <- <-.
  inv_bind Hrun p0 s0 H0. unfold packet_of, deref in H0. rewrite Hp in H0.
  injection H0 as <- <-.
  inv_bind Hrun es s0 H0. injection H0 as <- <-.
  rewrite bool_decide_eq_false_2 in Hrun by done.
  inv_bind Hrun t s0 H0. injection H0 as <- <-.
  inv_bind Hrun u s1 H0. injection H0 as <- <-.
  inv_bind Hrun u s1 H0. injection H0 as <- <-.
  set (cfg := Object_assign _ _) in *.
  set (st1 := set_packet _ _ _) in *.
  assert (Hb1 : bundles st1 !! self = Some (with_updatedAt (now st) b))
    by (cbn; apply lookup_insert_eq).
  assert (Hp1 : packets st1 !! Bundle.packet b = Some (with_loaderConfig cfg pkt))
    by (cbn; apply lookup_insert_eq).
  inv_bind Hrun yielded s1 H0. injection H0 as <- <-.
  inv_bind Hrun mods s1 H0. injection H0 as _ <-.
  inv_bind Hrun u s1 H0. destruct (_.2); [done|]. injection H0 as <- <-.
  inv_bind Hrun primary s1 H0. injection H0 as <- <-.
  destruct (file_at st1 pkt _) as [mod_|]; [|by case_bool_decide].
  inv_bind Hrun u st2 Hpack.
  assert (Hev2 : evolves self st1 st2 ∧ packets st2 = packets st1).
  { destruct (Mod.isRootEntry mod_).
    - destruct (pack_step self (Bundle.packet b) (Packet.all pkt) st1)
        as (s & Hs & ? & ?). rewrite Hs in Hpack. by injection Hpack as <- <-.
    - injection Hpack as <- <-. split; [apply evolves_refl|done]. }
  destruct Hev2 as (Hev2 & Hp2).
  inv_bind Hrun whole st3 Hload.
  assert (Hev3 : evolves self st2 st3 ∧ packets st3 = packets st2).
  { destruct (_ && _ && _).
    - inv_bind Hload ldr s Hl. destruct ldr as [[lcode lmap]|]; [|done].
      injection Hload as _ <-. by eapply loader_step.
    - injection Hload as <- <-. split; [apply evolves_refl|done]. }
  destruct Hev3 as (Hev3 & Hp3).
  inv_bind Hrun bL s H0. unfold this, deref in H0.
  destruct (evolves_trans _ _ _ _ Hev2 Hev3) as (_ & _ & _ & _ & _ & Hself & _).
  destruct (Hself _ Hb1) as (bL' & HbL & HcL).
  rewrite HbL in H0. injection H0 as <- <-.
  inv_bind Hrun u' s H0. injection H0 as <- <-.
  injection Hrun as <- <- <-.
  exists bL', whole. split; [done|]. split; [done|].
  split; [cbn; apply lookup_insert_eq|].
  split; [eapply same_config_trans; [apply same_config_with_updatedAt|done]|].
  split; [|done]. cbn. by rewrite Hp3, Hp2.
Qed.

(** ** Content hash, output and output path *)

(** An extension is replaced as a whole, whatever stands before it. *)
Lemma is_dot_word_app (stem ext : string) :
  is_dot_word ext = true → stem ≠ "" → is_dot_word (stem +:+ ext) = false.
Proof.
  intros Hext Hstem. destruct stem as [|c stem]; [done|]. simpl.
  destruct ext as [|d ext]; [done|]. simpl in Hext.
  apply andb_true_iff in Hext as [Hext _]. apply andb_true_iff in Hext as [Hd _].
  apply bool_decide_eq_true in Hd as ->.
  apply andb_false_iff. right. clear. induction stem as [|c stem IH]; simpl.
  - done.
  - by rewrite IH, andb_false_r.
Qed.

Lemma replace_rExt_ext (stem ext repl : string) :
  is_dot_word ext = true → replace_rExt (stem +:+ ext) repl = stem +:+ repl.
Proof.
  intros Hext. induction stem as [|c stem IH].
  - destruct ext as [|d ext]; [done|].
    change ("" +:+ String d ext) with (String d ext). change ("" +:+ repl) with repl.
    cbn [replace_rExt]. by rewrite Hext.
  - assert (Hn : is_dot_word (String c stem +:+ ext) = false)
      by (by apply is_dot_word_app).
    change (String c stem +:+ ext) with (String c (stem +:+ ext)) in *.
    change (String c stem +:+ repl) with (String c (stem +:+ repl)).
    cbn [replace_rExt]. by rewrite Hn, IH.
Qed.

Lemma contenthash_run `{Host} (st : Store) (self : nat) (b : Bundle.t) :
  bundles st !! self = Some b →
  contenthash self st
  = match truthy (Bundle.p_code b) with
    | None => (Ok "", st)
    | Some code =>
        match truthy (Bundle.p_contenthash b) with
        | Some h => (Ok h, st)
        | None =>
            (Ok (substring 0 8 (md5_hex code)),
             set_bundle self (with_contenthash (Some (substring 0 8 (md5_hex code))) b) st)
        end
    end.
Proof.
  intros Hb. unfold contenthash, bind, this, deref, modify, ret. rewrite Hb.
  by repeat case_match.
Qed.




(** ** [obtain] is a function of the graph and of the configuration *)

Lemma pack_fold_same (p : nat) (all : list nat) (st : Store) :
  let st' := foldl (fun st dep => if bool_decide (dep = p) then st
                                  else perform (Pack dep) st) st all in
  bundles st' = bundles st ∧ packets st' = packets st ∧ modules st' = modules st.
Proof.
  revert st. induction all as [|dep rest IH]; intros st; simpl; [done|].
  destruct (IH (if bool_decide (dep = p) then st else perform (Pack dep) st))
    as (-> & -> & ->).
  by case_bool_decide.
Qed.





(** Called again, [obtain] answers from what it has built and changes
    nothing. *)
Lemma obtain_again `{Host} (st : Store) (self : nat) (b : Bundle.t) (pkt : Packet.t)
    (loader : option bool) (minify : bool)
    (r : option string * option (list SourceNode)) (st1 : Store) :
  bundles st !! self = Some b →
  packets st !! Bundle.packet b = Some pkt →
  Bundle.p_etag b ≠ Some (etag_of (entries st pkt b)) →
  obtain self loader minify st = (Ok r, st1) →
  obtain self loader minify st1 = (Ok r, st1).
Proof.
  intros Hb Hp Hetag Hrun. destruct r as [code nodes].
  destruct (obtain_miss_final _ _ _ _ _ _ _ _ _ Hb Hp Hetag Hrun)
    as (bL & whole & _ & _ & Hbf & (Hcp & Hce & _) & Hpf & Hev).
  destruct Hev as (Hmod & _).
  unfold obtain, bind, this, packet_of, deref, gets, ret.
  rewrite Hbf. cbn [Bundle.packet with_cache]. rewrite Hcp, Hpf.
  rewrite (entries_agree st st1 pkt _ b _); [|done|done|by cbn].
  cbn [Bundle.p_etag with_cache]. by rewrite bool_decide_eq_true_2.
Qed.



(** ** Timers *)

Lemma earliest_None (ts : list (nat * Timer)) : earliest ts = None → ts = [].
Proof.
  destruct ts as [|z rest]; [done|]. simpl.
  by destruct (earliest rest) as [y|]; [destruct (_ <=? _)%Z|].
Qed.

Lemma earliest_spec (ts : list (nat * Timer)) (x : nat * Timer) :
  earliest ts = Some x → x ∈ ts ∧ ∀ y, y ∈ ts → (due x.2 ≤ due y.2)%Z.
Proof.
  revert x. induction ts as [|z rest IH]; intros x; simpl; [done|].
  destruct (earliest rest) as [y|] eqn:Hrest.
  - destruct (IH y eq_refl) as [Hy Hmin].
    destruct (due z.2 <=? due y.2)%Z eqn:Hle; intros [= <-].
    + apply Z.leb_le in Hle. split; [left|].
      intros w [->|Hw]%elem_of_cons; [lia|]. specialize (Hmin w Hw). lia.
    + apply Z.leb_gt in Hle. split; [by right|].
      intros w [->|Hw]%elem_of_cons; [lia|]. by apply Hmin.
  - intros [= <-]. apply earliest_None in Hrest as ->.
    split; [left|]. intros w [->|Hw]%elem_of_cons; [lia|]. by apply elem_of_nil in Hw.
Qed.

Lemma next_due_spec (t : Z) (ts : list (nat * Timer)) (x : nat * Timer) :
  next_due t ts = Some x → x ∈ ts ∧ (due x.2 ≤ t)%Z.
Proof.
  unfold next_due. destruct (earliest ts) as [y|] eqn:He; [|done].
  destruct (due y.2 <=? t)%Z eqn:Hle; [|done]. intros [= <-].
  apply Z.leb_le in Hle. by destruct (earliest_spec _ _ He).
Qed.

Lemma next_due_None (t : Z) (ts : list (nat * Timer)) (y : nat * Timer) :
  next_due t ts = None → y ∈ ts → (t < due y.2)%Z.
Proof.
  unfold next_due. destruct (earliest ts) as [x|] eqn:He.
  - destruct (due x.2 <=? t)%Z eqn:Hle; [done|]. intros _ Hy.
    apply Z.leb_gt in Hle. destruct (earliest_spec _ _ He) as [_ Hmin].
    specialize (Hmin y Hy). lia.
  - intros _ Hy. apply earliest_None in He. subst ts. by apply elem_of_nil in Hy.
Qed.

Lemma fire_spec `{Host} (x : nat * Timer) (st : Store) :
  let st' := fire x st in
  timers st' = List.filter (fun y => negb (bool_decide (y.1 = x.1))) (timers st)
  ∧ next_timer st' = next_timer st
  ∧ now st' = Z.max (now st) (due x.2)
  ∧ ∀ r b, bundles st !! r = Some b →
           ∃ b', bundles st' !! r = Some b' ∧ same_config b b'.
Proof.
  unfold fire.
  set (st2 := set_now _ (set_timers _ _ st)).
  destruct (_reload (target x.2) st2) as [res st'] eqn:Hrun.
  apply framed__reload in Hrun as (_ & Ht & Hn & Hc & Ho & Hs & _).
  cbn [snd]. rewrite Ht, Hn, Hc. do 3 (split; [done|]).
  intros r b Hb. destruct (decide (r = target x.2)) as [->|Hne].
  - by apply Hs.
  - rewrite Ho by done. exists b. split; [done|]. apply same_config_refl.
Qed.

Lemma elem_of_filter_ne (x : nat * Timer) (h : nat) (ts : list (nat * Timer)) :
  x ∈ List.filter (fun y => negb (bool_decide (y.1 = h))) ts ↔ x ∈ ts ∧ x.1 ≠ h.
Proof.
  rewrite !list_elem_of_In, filter_In, negb_true_iff, bool_decide_eq_false. tauto.
Qed.

Lemma NoDup_filter_fst (h : nat) (ts : list (nat * Timer)) :
  NoDup ts.*1 → NoDup (List.filter (fun y => negb (bool_decide (y.1 = h))) ts).*1.
Proof.
  induction ts as [|z rest IH]; simpl; [done|].
  intros [Hz Hrest]%NoDup_cons. destruct (negb _); [|by apply IH].
  simpl. apply NoDup_cons. split; [|by apply IH].
  intros [y [Hy1 Hy]]%list_elem_of_fmap. apply elem_of_filter_ne in Hy as [Hy _].
  apply Hz. apply list_elem_of_fmap. eauto.
Qed.

Lemma timers_wf_fire `{Host} (x : nat * Timer) (st : Store) :
  timers_wf st → timers_wf (fire x st).
Proof.
  intros [Hnd Hlt]. destruct (fire_spec x st) as (Ht & Hn & _).
  unfold timers_wf. rewrite Ht, Hn. split; [by apply NoDup_filter_fst|].
  intros y [Hy _]%elem_of_filter_ne. by apply Hlt.
Qed.

(** A timer with the handle of a pending one is that one. *)
Lemma timers_wf_same_handle (st : Store) (x y : nat * Timer) :
  timers_wf st → x ∈ timers st → y ∈ timers st → x.1 = y.1 → x = y.
Proof.
  intros [Hnd _] Hx Hy Heq.
  apply list_elem_of_lookup in Hx as [i Hi]. apply list_elem_of_lookup in Hy as [j Hj].
  assert (i = j) as ->.
  { eapply NoDup_lookup; [exact Hnd| |].
    - by rewrite list_lookup_fmap, Hi.
    - by rewrite list_lookup_fmap, Hj, Heq. }
  congruence.
Qed.

(** While the timer of [self] is not due, the timers that run leave it
    pending. *)
Lemma run_timers_pending `{Host} (self h : nat) (d t : Z) (fuel : nat) (st : Store) :
  pending self h d st → (t < d)%Z →
  let '(ran, st') := run_timers fuel t st in
  pending self h d st' ∧ reloads self ran = 0 ∧ (now st ≤ now st')%Z.
Proof.
  revert st. induction fuel as [|fuel IH]; intros st Hpend Ht; simpl.
  { split; [done|]. split; [done|lia]. }
  destruct (next_due t (timers st)) as [x|] eqn:Hnext.
  2: { split; [done|]. split; [done|lia]. }
  destruct (next_due_spec _ _ _ Hnext) as [Hx Hdue].
  destruct Hpend as (Hwf & Hin & Honly & b & Hb & Hr).
  assert (Hxh : x.1 ≠ h).
  { intros Heq. assert (x = (h, {| due := d; target := self |})) as ->
      by (by eapply timers_wf_same_handle). simpl in Hdue. lia. }
  assert (Hxs : target x.2 ≠ self) by (intros Hs; by apply Hxh, Honly).
  destruct (fire_spec x st) as (Htm & Hnt & Hnow & Hbs).
  assert (Hpend' : pending self h d (fire x st)).
  { split; [by apply timers_wf_fire|]. rewrite Htm. split.
    - apply elem_of_filter_ne. split; [done|]. simpl. congruence.
    - split.
      + intros y [Hy _]%elem_of_filter_ne. by apply Honly.
      + destruct (Hbs _ _ Hb) as (b' & Hb' & (_ & _ & _ & _ & _ & Hrl)).
        exists b'. split; [done|]. congruence. }
  specialize (IH (fire x st) Hpend' Ht).
  destruct (run_timers fuel t (fire x st)) as [ran st'].
  destruct IH as (Hp & Hran & Hle). split; [done|]. split; [|lia].
  unfold reloads in *. simpl. by rewrite bool_decide_eq_false_2.
Qed.

(** With no timer pending for [self], no [_reload] of [self] runs. *)
Lemma run_timers_idle `{Host} (self : nat) (t : Z) (fuel : nat) (st : Store) :
  idle self st →
  let '(ran, st') := run_timers fuel t st in
  idle self st' ∧ reloads self ran = 0 ∧ (now st ≤ now st')%Z.
Proof.
  revert st. induction fuel as [|fuel IH]; intros st Hidle; simpl.
  { split; [done|]. split; [done|lia]. }
  destruct (next_due t (timers st)) as [x|] eqn:Hnext.
  2: { split; [done|]. split; [done|lia]. }
  destruct (next_due_spec _ _ _ Hnext) as [Hx Hdue].
  destruct Hidle as (Hwf & Hnone & [b Hb]).
  destruct (fire_spec x st) as (Htm & Hnt & Hnow & Hbs).
  assert (Hidle' : idle self (fire x st)).
  { split; [by apply timers_wf_fire|]. rewrite Htm. split.
    - intros y [Hy _]%elem_of_filter_ne. by apply Hnone.
    - destruct (Hbs _ _ Hb) as (b' & Hb' & _). eauto. }
  specialize (IH (fire x st) Hidle').
  destruct (run_timers fuel t (fire x st)) as [ran st'].
  destruct IH as (Hp & Hran & Hle). split; [done|]. split; [|lia].
  unfold reloads in *. simpl. rewrite bool_decide_eq_false_2; [done|]. by apply Hnone.
Qed.

Lemma length_filter_lt (h : nat) (ts : list (nat * Timer)) (x : nat * Timer) :
  x ∈ ts → x.1 = h →
  length (List.filter (fun y => negb (bool_decide (y.1 = h))) ts) < length ts.
Proof.
  induction ts as [|z rest IH]; intros Hx Hh; [by apply elem_of_nil in Hx|].
  simpl. apply elem_of_cons in Hx as [<-|Hx].
  - rewrite bool_decide_eq_true_2 by done. simpl.
    pose proof (filter_length_le (fun y => negb (bool_decide (y.1 = h))) rest). lia.
  - specialize (IH Hx Hh). destruct (negb _); simpl; lia.
Qed.

(** Once the timer of [self] is due, the timers that run include it, once. *)
Lemma run_timers_fires `{Host} (self h : nat) (d t : Z) (fuel : nat) (st : Store) :
  pending self h d st → (d ≤ t)%Z → length (timers st) ≤ fuel →
  let '(ran, st') := run_timers fuel t st in
  idle self st' ∧ reloads self ran = 1.
Proof.
  revert st. induction fuel as [|fuel IH]; intros st Hpend Ht Hfuel.
  { destruct Hpend as (_ & Hin & _). destruct (timers st); [by apply elem_of_nil in Hin|].
    simpl in Hfuel. lia. }
  simpl. destruct (next_due t (timers st)) as [x|] eqn:Hnext.
  2: { destruct Hpend as (_ & Hin & _).
       pose proof (next_due_None _ _ _ Hnext Hin) as Hlt. simpl in Hlt. lia. }
  destruct (next_due_spec _ _ _ Hnext) as [Hx Hdue].
  destruct (fire_spec x st) as (Htm & Hnt & Hnow & Hbs).
  pose proof Hpend as (Hwf & Hin & Honly & b & Hb & Hr).
  assert (Hlen : length (timers (fire x st)) ≤ fuel).
  { rewrite Htm. pose proof (length_filter_lt x.1 (timers st) x Hx eq_refl). lia. }
  destruct (decide (x.1 = h)) as [Heq|Hne].
  - assert (x = (h, {| due := d; target := self |})) as Hxe
      by (by eapply timers_wf_same_handle).
    assert (Hidle : idle self (fire x st)).
    { split; [by apply timers_wf_fire|]. rewrite Htm. split.
      - intros y [Hy Hyh]%elem_of_filter_ne Hys. apply Hyh.
        rewrite Heq. by apply Honly.
      - destruct (Hbs _ _ Hb) as (b' & Hb' & _). eauto. }
    pose proof (run_timers_idle self t fuel (fire x st) Hidle) as Hrest.
    destruct (run_timers fuel t (fire x st)) as [ran st'].
    destruct Hrest as (Hi & Hran & _). split; [done|].
    unfold reloads in *. simpl. rewrite Hxe. simpl.
    rewrite bool_decide_eq_true_2 by done. simpl. by rewrite Hran.
  - assert (Hxs : target x.2 ≠ self) by (intros Hs; by apply Hne, Honly).
    assert (Hpend' : pending self h d (fire x st)).
    { split; [by apply timers_wf_fire|]. rewrite Htm. split.
      - apply elem_of_filter_ne. split; [done|]. simpl. congruence.
      - split.
        + intros y [Hy _]%elem_of_filter_ne. by apply Honly.
        + destruct (Hbs _ _ Hb) as (b' & Hb' & (_ & _ & _ & _ & _ & Hrl)).
          exists b'. split; [done|]. congruence. }
    specialize (IH (fire x st) Hpend' Ht Hlen).
    destruct (run_timers fuel t (fire x st)) as [ran st'].
    destruct IH as (Hi & Hran). split; [done|].
    unfold reloads in *. simpl. by rewrite bool_decide_eq_false_2.
Qed.

Lemma timers_wf_set_now (t : Z) (st : Store) : timers_wf st → timers_wf (set_now t st).
Proof. done. Qed.

(** [reload()] leaves one timer pending for [self], due in 100 ms, whether
    a timer was pending for it or not. *)
Lemma reload_pending `{Host} (self : nat) (st : Store) :
  idle self st ∨ (∃ h d, pending self h d st) →
  pending self (next_timer st) (now st + 100) (reload self st).2
  ∧ now (reload self st).2 = now st.
Proof.
  intros Hst.
  assert (∃ b, bundles st !! self = Some b ∧ timers_wf st
               ∧ ∀ x, x ∈ timers st → target x.2 = self →
                      Bundle.p_reloading b = Some x.1)
    as (b & Hb & [Hnd Hlt] & Hmine).
  { destruct Hst as [(Hwf & Hnone & [b Hb])|(h & d & Hwf & _ & Honly & b & Hb & Hr)].
    - exists b. split; [done|]. split; [done|]. intros x Hx Hs. by destruct (Hnone x Hx).
    - exists b. split; [done|]. split; [done|]. intros x Hx Hs.
      by rewrite (Honly x Hx Hs). }
  unfold reload, bind, this, deref, gets, modify, ret. rewrite Hb.
  set (kept := match Bundle.p_reloading b with
               | Some h => List.filter (fun x => negb (bool_decide (x.1 = h))) (timers st)
               | None => timers st
               end).
  assert (Hkept : ∀ x, x ∈ kept → x ∈ timers st ∧ target x.2 ≠ self).
  { intros x Hx. subst kept. destruct (Bundle.p_reloading b) as [h|] eqn:Hr.
    - apply elem_of_filter_ne in Hx as [Hx Hne]. split; [done|].
      intros Hs. specialize (Hmine x Hx Hs). congruence.
    - split; [done|]. intros Hs. by specialize (Hmine x Hx Hs). }
  assert (Hkept_nd : NoDup kept.*1).
  { subst kept. destruct (Bundle.p_reloading b); [by apply NoDup_filter_fst|done]. }
  assert (Hrun : ∃ st1, (match Bundle.p_reloading b with
                         | Some h =>
                             modify (fun st =>
                               set_timers
                                 (List.filter (fun x => negb (bool_decide (x.1 = h)))
                                    (timers st)) (next_timer st) st)
                         | None => ret ()
                         end) st = (Ok (), st1)
                        ∧ timers st1 = kept ∧ next_timer st1 = next_timer st
                        ∧ now st1 = now st ∧ bundles st1 = bundles st).
  { subst kept. destruct (Bundle.p_reloading b); eexists; (split; [reflexivity|]);
      by repeat split. }
  destruct Hrun as (st1 & Hrun & Ht1 & Hn1 & Hc1 & Hb1).
  unfold modify, ret in Hrun. rewrite Hrun. cbn. rewrite Ht1, Hn1, Hc1.
  split; [|done]. split.
  { split; cbn; rewrite ?Ht1, ?Hn1.
    - rewrite fmap_app. apply NoDup_app. split; [done|]. split; [|by apply NoDup_singleton].
      intros i [x [-> Hx]]%list_elem_of_fmap Hi. apply list_elem_of_singleton in Hi.
      destruct (Hkept x Hx) as [Hx' _]. specialize (Hlt x Hx'). simpl in *. lia.
    - intros x [Hx|Hx]%elem_of_app.
      + destruct (Hkept x Hx) as [Hx' _]. specialize (Hlt x Hx'). lia.
      + apply list_elem_of_singleton in Hx as ->. simpl. lia. }
  cbn. split; [apply elem_of_app; right; by apply list_elem_of_singleton|].
  split.
  - intros x [Hx|Hx]%elem_of_app Hs.
    + by destruct (Hkept x Hx).
    + by apply list_elem_of_singleton in Hx as ->.
  - eexists. split; [apply lookup_insert_eq|done].
Qed.

Lemma reloads_app (self : nat) (xs ys : list nat) :
  reloads self (xs ++ ys) = reloads self xs + reloads self ys.
Proof. unfold reloads. by rewrite List.filter_app, length_app. Qed.

Lemma pending_set_now (self h : nat) (d t : Z) (st : Store) :
  pending self h d st → pending self h d (set_now t st).
Proof. done. Qed.

Lemma idle_set_now (self : nat) (t : Z) (st : Store) :
  idle self st → idle self (set_now t st).
Proof. done. Qed.

Lemma advance_pending `{Host} (self h : nat) (d t : Z) (st : Store) :
  pending self h d st → (t < d)%Z →
  let '(ran, st') := advance t st in
  pending self h d st' ∧ reloads self ran = 0 ∧ (now st ≤ now st')%Z.
Proof.
  intros Hp Ht. unfold advance.
  pose proof (run_timers_pending self h d t (length (timers st)) st Hp Ht) as Hrun.
  destruct (run_timers _ t st) as [ran st']. destruct Hrun as (Hp' & Hran & Hle).
  split; [by apply pending_set_now|]. split; [done|]. cbn. lia.
Qed.

Lemma advance_idle `{Host} (self : nat) (t : Z) (st : Store) :
  idle self st →
  let '(ran, st') := advance t st in
  idle self st' ∧ reloads self ran = 0 ∧ (t ≤ now st')%Z.
Proof.
  intros Hi. unfold advance.
  pose proof (run_timers_idle self t (length (timers st)) st Hi) as Hrun.
  destruct (run_timers _ t st) as [ran st']. destruct Hrun as (Hi' & Hran & Hle).
  split; [by apply idle_set_now|]. split; [done|]. cbn. lia.
Qed.

Lemma advance_fires `{Host} (self h : nat) (d t : Z) (st : Store) :
  pending self h d st → (d ≤ t)%Z →
  let '(ran, st') := advance t st in
  idle self st' ∧ reloads self ran = 1.
Proof.
  intros Hp Ht. unfold advance.
  pose proof (run_timers_fires self h d t (length (timers st)) st Hp Ht (le_n _)) as Hrun.
  destruct (run_timers _ t st) as [ran st']. destruct Hrun as (Hi & Hran).
  split; [by apply idle_set_now|done].
Qed.

(** Calls of [reload()] that come before the pending timer is due replace
    it, and no [_reload] of [self] runs meanwhile. *)
Lemma reload_at_pending `{Host} (self : nat) (lo : Z) (ts : list Z) (st : Store)
    (h : nat) (d : Z) :
  pending self h d st → (lo + 100 ≤ d)%Z → (d ≤ now st + 100)%Z →
  (∀ t, t ∈ ts → (t < lo + 100)%Z) →
  let '(ran, st') := reload_at ts self st in
  reloads self ran = 0
  ∧ ∃ h' d', pending self h' d' st' ∧ (d' ≤ now st' + 100)%Z.
Proof.
  revert st h d. induction ts as [|t rest IH]; intros st h d Hp Hlo Hhi Hts; simpl.
  { split; [done|]. eauto. }
  assert (Ht : (t < d)%Z) by (specialize (Hts t ltac:(left)); lia).
  pose proof (advance_pending self h d t st Hp Ht) as Hadv.
  destruct (advance t st) as [ran1 s1]. destruct Hadv as (Hp1 & Hran1 & Hle1).
  destruct (reload_pending self s1) as [Hp2 Hnow2]; [right; eauto|].
  specialize (IH (reload self s1).2 (next_timer s1) (now s1 + 100)%Z Hp2).
  destruct (reload_at rest self (reload self s1).2) as [ran' st'].
  destruct IH as (Hran' & Hfin); [lia|lia|intros t' Ht'; apply Hts; by right|].
  split; [|done]. rewrite reloads_app. lia.
Qed.

(** [_reload()] when the output path is not empty: the output file is
    unlinked, the four cached fields are cleared, [obtain()] is called. *)
Lemma _reload_runs `{Host} (self : nat) (st st0 : Store) (b b0 : Bundle.t)
    (pkt : Packet.t) (path : string) :
  bundles st !! self = Some b →
  packets st !! Bundle.packet b = Some pkt →
  outputPath self st = (Ok path, st0) →
  path ≠ "" →
  bundles st0 !! self = Some b0 →
  _reload self st
  = let st1 := set_bundle self (with_cache None None None None b0)
                 (perform (Unlink (path_join [App.cache_path (Packet.app pkt); path])) st0) in
    match obtain self None false st1 with
    | (Ok _, st2) => (Ok (), st2)
    | (Throw e, st2) => (Throw e, st2)
    end.
Proof.
  intros Hb Hp Hpath Hne Hb0.
  unfold _reload. unfold bind at 1, this at 1, deref. rewrite Hb.
  unfold bind at 1, packet_of, deref. rewrite Hp.
  unfold bind at 1. rewrite Hpath. rewrite bool_decide_eq_false_2 by done.
  unfold bind at 1, modify at 1. unfold bind at 1, this, deref. cbn [bundles perform].
  rewrite Hb0. unfold bind at 1, modify at 1. unfold bind, ret.
  by destruct (obtain self None false _) as [[r|e] st2].
Qed.

(** [_reload()] when the output path is empty: nothing more is done. *)
Lemma _reload_returns `{Host} (self : nat) (st st0 : Store) (b : Bundle.t)
    (pkt : Packet.t) :
  bundles st !! self = Some b →
  packets st !! Bundle.packet b = Some pkt →
  outputPath self st = (Ok "", st0) →
  _reload self st = (Ok (), st0).
Proof.
  intros Hb Hp Hpath.
  unfold _reload. unfold bind at 1, this at 1, deref. rewrite Hb.
  unfold bind at 1, packet_of, deref. rewrite Hp.
  unfold bind at 1. by rewrite Hpath.
Qed.

(** C7, as the code has it. Calls of [reload()] on a bundle with no timer
    pending, the later ones less than 100 ms after the first, end in one
    execution of [_reload()], once 100 ms have passed since the last call.
    And [_reload()], when the output path of the bundle is not empty,
    unlinks the output file in the cache, clears [#code], [#map], [#etag] and
    [#contenthash] and then calls [obtain()], which builds the bundle anew;
    when the output path is empty, as for a bundle of the root packet that
    has not been built, [_reload()] returns at once. *)
Theorem reload_debounced `{Host} (self : nat) (st : Store) (t1 : Z) (rest : list Z)
    (T : Z) (ran ran' : list nat) (st1 st2 : Store) :
  idle self st →
  (∀ t, t ∈ rest → (t < t1 + 100)%Z) →
  reload_at (t1 :: rest) self st = (ran, st1) →
  (now st1 + 100 ≤ T)%Z →
  advance T st1 = (ran', st2) →
  reloads self (ran ++ ran') = 1
  ∧ ∀ s s0 b b0 pkt path,
      bundles s !! self = Some b →
      packets s !! Bundle.packet b = Some pkt →
      outputPath self s = (Ok path, s0) →
      bundles s0 !! self = Some b0 →
      _reload self s
      = if bool_decide (path = "") then (Ok (), s0)
        else
          let s1 := set_bundle self (with_cache None None None None b0)
                      (perform (Unlink (path_join [App.cache_path (Packet.app pkt); path]))
                         s0) in
          match obtain self None false s1 with
          | (Ok _, s2) => (Ok (), s2)
          | (Throw e, s2) => (Throw e, s2)
          end.
Proof.
  intros Hidle Hts Hburst HT Hadv. split.
  - simpl in Hburst.
    pose proof (advance_idle self t1 st Hidle) as Hfirst.
    destruct (advance t1 st) as [ran0 s1]. destruct Hfirst as (Hi1 & Hran0 & Hle1).
    destruct (reload_pending self s1) as [Hp2 Hnow2]; [by left|].
    pose proof (reload_at_pending self t1 rest (reload self s1).2 (next_timer s1)
                  (now s1 + 100)%Z Hp2) as Hrest.
    destruct (reload_at rest self (reload self s1).2) as [ran1 s3].
    injection Hburst as <- <-.
    destruct Hrest as (Hran1 & h' & d' & Hp3 & Hd'); [lia|lia|done|].
    pose proof (advance_fires self h' d' T s3 Hp3) as Hlast.
    rewrite Hadv in Hlast. destruct Hlast as [_ Hran']; [lia|].
    rewrite !reloads_app. lia.
  - intros s s0 b b0 pkt path Hb Hp Hpath Hb0. case_bool_decide as Hempty.
    + subst path. by eapply _reload_returns.
    + by eapply _reload_runs.
Qed.

Lemma reload_debounced_witness :
  let st := Demo.home true false false Js in
  let burst := @reload_at Node.host [0; 30; 60]%Z 0 st in
  reloads 0 (burst.1 ++ (@advance Node.host 200 burst.2).1) = 1.
Proof.
  intros st burst.
  apply (@reload_debounced Node.host 0 st 0%Z [30; 60]%Z 200%Z
           burst.1 (@advance Node.host 200 burst.2).1 burst.2
           (@advance Node.host 200 burst.2).2).
  - split; [|split].
    + split; [constructor|]. intros x Hx. by apply elem_of_nil in Hx.
    + intros x Hx. by apply elem_of_nil in Hx.
    + by eexists.
  - intros t Ht. apply list_elem_of_In in Ht. simpl in Ht. lia.
  - apply surjective_pairing.
  - apply Z.leb_le. by vm_compute.
  - apply surjective_pairing.
Defined.

(** C7, as the claim words it, fails on a bundle of the root packet that
    has not been built: its output path is empty, so the one [_reload()]
    that the calls of [reload()] end in unlinks no file and calls no
    [obtain()], the effects stay empty and [updatedAt] and [#code] unset. *)
Lemma reload_of_unbuilt_bundle_does_nothing :
  let st := Demo.home true false false Js in
  let burst := @reload_at Node.host [0; 30; 60]%Z 0 st in
  let after := @advance Node.host 200 burst.2 in
  reloads 0 (burst.1 ++ after.1) = 1
  ∧ effects after.2 = []
  ∧ (Bundle.updatedAt <$> bundles after.2 !! 0) = Some None
  ∧ (Bundle.p_code <$> bundles after.2 !! 0) = Some None
  ∧ effects (@obtain Node.host 0 None false burst.2).2 = [Pack 1].
Proof. by vm_compute. Qed.

(** ** The asset reader *)

(** For the id of a component script, that is an id with the extension
    [.js] that is none of [loader.js], [loaderConfig.json] and
    [porter-sw.js], is not served as a source and does not belong to a
    dependency, the body of the response to [?main] is the source of the
    loader, the call of [porter.config] on the loader configuration, the
    module wrapped by [define], and the call of [porter.import]; both
    [define] and [porter.import] are given the id without its extension.
    Every other id is answered with [?main] as without. *)
Lemma main_of_component_script `{Host} `{Collaborators} (id : string) :
  (is_component_script id = true →
   ∀ fpath,
     findComponent (if in_system_modules (pi_name (parseId id))
                    then pi_entry (parseId id) else id) = Some fpath →
     ∃ code headers,
       readAsset id true
       = Some (loaderSource +:+ LF
               +:+ "porter.config(" +:+ JSON_stringify loaderConfig +:+ ")" +:+ LF
               +:+ define (replace_RE_EXT id "") (matchRequire_findAll code) code +:+ LF
               +:+ "porter[" +:+ DQ +:+ "import" +:+ DQ +:+ "]("
               +:+ JSON_stringify (JStr (replace_RE_EXT id "")) +:+ ")" +:+ LF,
               headers))
  ∧ (is_component_script id = false → readAsset id true = readAsset id false).
Proof.
  unfold is_component_script, readAsset. split.
  - intros Hc fpath Hf.
    apply andb_true_iff in Hc as [Hc Hcomp]. apply andb_true_iff in Hc as [Hc Hext].
    apply andb_true_iff in Hc as [Hc Hsrc]. apply andb_true_iff in Hc as [Hc Hsw].
    apply andb_true_iff in Hc as [Hld Hcfg].
    apply negb_true_iff in Hld, Hcfg, Hsw, Hsrc.
    rewrite Hld, Hcfg, Hsw, Hsrc, Hext.
    unfold readScript. rewrite Hcomp. unfold readComponent. rewrite Hf.
    unfold formatMain. eexists _, _. reflexivity.
  - intros Hc.
    repeat case_bool_decide; try done.
    all: destruct (serveSource && isSource id); try done.
    all: simpl in Hc; unfold readScript.
    all: rewrite Hc, ?orb_false_r; by rewrite ?bool_decide_eq_false_2.
Qed.


(** A stylesheet is answered with [?main] as without: [readAsset] hands
    [stylesheets/app.css] to [readStyle], which does not look at [isMain],
    and the body of the response does not begin with the loader. *)
Lemma main_of_stylesheet_has_no_loader :
  @readAsset Node.host Demo.collaborators "stylesheets/app.css" true
  = @readAsset Node.host Demo.collaborators "stylesheets/app.css" false
  ∧ ∃ headers,
      @readAsset Node.host Demo.collaborators "stylesheets/app.css" true
      = Some ("body { margin: 0 }", headers).
Proof.
  split; [by vm_compute|]. eexists. by vm_compute.
Qed.

(** ** What the traversal yields *)

Section Yielded.
Context `{Host}.
Variables (st : Store) (packet : nat) (pkt : Packet.t).
Variables (scope : Scope) (format : Format).

(** A property, possibly of the [preload] flag, that every child has which
    [iterate] does not pass over. *)
Variable P : bool → Mod.t → Prop.
Hypothesis passes :
  ∀ seen preload child,
    skipped st packet pkt scope format seen preload child = false → P preload child.

Local Abbreviation walk := (iterate_with st packet pkt scope format).
Local Abbreviation visitEntry := (iterateEntry st packet pkt scope format).

Let fits (m : Mod.t) : Prop :=
  includes (extMap format) (extname (Mod.file m)) = true.

Let admits (visit : Visit) : Prop :=
  ∀ seen child preload ys seen',
    visit seen child preload = Some (ys, seen') →
    ∀ m, m ∈ ys → fits m ∧ reaches st child m ∧ (m = child ∨ P preload m).

Lemma iterate_with_yielded visit seen children preload ys seen' :
  admits visit →
  walk visit seen children preload = Some (ys, seen') →
  ∀ m, m ∈ ys →
    fits m ∧ P preload m
    ∧ ∃ r child, r ∈ children ∧ modules st !! r = Some child ∧ reaches st child m.
Proof.
  intros Hv. revert seen ys seen'.
  induction children as [|r rest IH]; intros seen ys seen' Hw m Hm; simpl in Hw.
  - injection Hw as <- <-. by apply elem_of_nil in Hm.
  - assert (Hrest : ∀ seen0 ys0 seen0',
              walk visit seen0 rest preload = Some (ys0, seen0') → m ∈ ys0 →
              fits m ∧ P preload m
              ∧ ∃ r0 child, r0 ∈ r :: rest ∧ modules st !! r0 = Some child
                            ∧ reaches st child m).
    { intros seen0 ys0 seen0' Hw0 Hm0.
      destruct (IH _ _ _ Hw0 m Hm0) as (Hf & Hp & r0 & child & Hr0 & Hc & Hreach).
      split; [done|]. split; [done|]. exists r0, child. split; [by right|done]. }
    destruct (modules st !! r) as [child|] eqn:Hr; [|by eapply Hrest].
    destruct (skipped _ _ _ _ _ seen preload child) eqn:Hs; [by eapply Hrest|].
    apply passes in Hs.
    destruct (visit seen child preload) as [[ys1 seen1]|] eqn:Hvis; [|done].
    simpl in Hw.
    destruct (walk visit seen1 rest preload) as [[zs seen2]|] eqn:Hw2; [|done].
    simpl in Hw. injection Hw as <- <-.
    apply elem_of_app in Hm as [Hm|Hm]; [|by eapply Hrest].
    destruct (Hv _ _ _ _ _ Hvis m Hm) as (Hf & Hreach & Hp).
    split; [done|]. split; [by destruct Hp as [->|Hp]|].
    exists r, child. split; [by left|done].
Qed.

Lemma iterateEntry_yielded fuel : admits (visitEntry fuel).
Proof.
  induction fuel as [|fuel IH]; intros seen entry preload ys seen' Hv m Hm; [done|].
  simpl in Hv.
  destruct (walk (visitEntry fuel) ({[Mod.id entry]} ∪ seen) (Mod.children entry) preload)
    as [[ys1 seen1]|] eqn:Hw1; [|done].
  simpl in Hv.
  assert (Hchild : ∀ seen0 ys0 seen0',
            walk (visitEntry fuel) seen0 (Mod.children entry) preload = Some (ys0, seen0') →
            m ∈ ys0 → fits m ∧ reaches st entry m ∧ (m = entry ∨ P preload m)).
  { intros seen0 ys0 seen0' Hw0 Hm0.
    destruct (iterate_with_yielded _ _ _ _ _ _ IH Hw0 m Hm0)
      as (Hf & Hp & r & child & Hr & Hc & Hreach).
    split; [done|]. split; [by eapply reaches_child|by right]. }
  assert (Hself : m ∈ (if includes (extMap format) (extname (Mod.file entry))
                       then [entry] else []) →
                  fits m ∧ reaches st entry m ∧ (m = entry ∨ P preload m)).
  { destruct (includes _ _) eqn:Hi; [|by intros ?%elem_of_nil].
    intros ->%list_elem_of_singleton. split; [done|]. split; [constructor|by left]. }
  case_bool_decide.
  - destruct (walk (visitEntry fuel) seen1 (Mod.children entry) preload)
      as [[zs seen2]|] eqn:Hw2; [|done].
    simpl in Hv. injection Hv as <- <-.
    apply elem_of_app in Hm as [Hm|Hm]; [exact (Hchild _ _ _ Hw1 Hm)|].
    apply elem_of_app in Hm as [Hm|Hm]; [by apply Hself|exact (Hchild _ _ _ Hw2 Hm)].
  - injection Hv as <- <-.
    apply elem_of_app in Hm as [Hm|Hm]; [exact (Hchild _ _ _ Hw1 Hm)|by apply Hself].
Qed.

Lemma iterator_from_yielded fuel seen names m :
  m ∈ (iterator_from st packet pkt scope format fuel seen names).1 →
  ∃ entry, walked_entry st pkt names entry
           ∧ fits m ∧ reaches st entry m ∧ (m = entry ∨ P (preload_of entry) m).
Proof.
  revert seen. induction names as [|name rest IH]; intros seen; simpl.
  { by intros ?%elem_of_nil. }
  assert (Hrest : ∀ seen0,
            m ∈ (iterator_from st packet pkt scope format fuel seen0 rest).1 →
            ∃ entry, walked_entry st pkt (name :: rest) entry
                     ∧ fits m ∧ reaches st entry m ∧ (m = entry ∨ P (preload_of entry) m)).
  { intros seen0 Hm. destruct (IH _ Hm) as (entry & (n & Hn & Hf & Hi) & Hrest).
    exists entry. split; [|done]. exists n. split; [by right|done]. }
  destruct (file_at st pkt name) as [entry|] eqn:Hfile; [|by intros ?%elem_of_nil].
  destruct (Mod.instanceofModule entry) eqn:Hinst; simpl; [|by apply Hrest].
  destruct (iterateEntry _ _ _ _ _ fuel seen entry _) as [[ys seen1]|] eqn:Hv;
    [|by intros ?%elem_of_nil].
  specialize (Hrest seen1).
  destruct (iterator_from _ _ _ _ _ fuel seen1 rest) as [zs e]. simpl in *.
  intros [Hm|Hm]%elem_of_app; [|by apply Hrest].
  exists entry. split; [exists name; split; [by left|done]|].
  by eapply iterateEntry_yielded.
Qed.
End Yielded.

(** ** Preloaded modules *)

(** C3. In a [.js] bundle whose packet is not isolated, while an entry
    is walked that is no preload, fake or worker entry, [iterate] passes
    over every child whose [preloaded] flag is set, at whatever depth it
    meets it. Hence a module whose [preloaded] flag is set is yielded only
    in the walk of an entry from which it is reached and which is a
    preload, fake or worker entry, or in a bundle whose packet is isolated;
    or else as one of the entries themselves, which the loop over the
    entries walks and yields after their children, as the specification
    goes on to say. *)
Theorem preloaded_children_skipped `{Host} (st : Store) (pkt : Packet.t) (b : Bundle.t) :
  (∀ (done : gset string) (preload : bool) (child : Mod.t),
     Bundle.format b = Js → Mod.preloaded child = true →
     preload = false → Packet.isolated pkt = false →
     skipped st (Bundle.packet b) pkt (Bundle.scope b) (Bundle.format b) done preload child
     = true)
  ∧ (∀ m : Mod.t,
       Bundle.format b = Js → m ∈ (iterator st pkt b).1 → Mod.preloaded m = true →
       ∃ entry, walked_entry st pkt (entries st pkt b) entry ∧ reaches st entry m
                ∧ (m = entry
                   ∨ Mod.isPreload entry = true ∨ Mod.fake entry = true
                   ∨ Mod.isWorker entry = true ∨ Packet.isolated pkt = true)).
Proof.
  assert (Hskip : ∀ (done : gset string) (preload : bool) (child : Mod.t),
            Bundle.format b = Js → Mod.preloaded child = true →
            preload = false → Packet.isolated pkt = false →
            skipped st (Bundle.packet b) pkt (Bundle.scope b) (Bundle.format b) done preload
              child = true).
  { intros done preload child Hjs Hpre -> Hiso. unfold skipped.
    rewrite Hjs, Hpre, Hiso, (bool_decide_eq_true_2 (Js = Js)) by done. simpl.
    by rewrite !orb_true_r. }
  split; [exact Hskip|].
  intros m Hjs Hm Hpre.
  destruct (iterator_from_yielded st (Bundle.packet b) pkt (Bundle.scope b)
              (Bundle.format b)
              (fun preload c =>
                 Mod.preloaded c = true → preload = true ∨ Packet.isolated pkt = true))
    with (m := m) (fuel := enough_fuel st) (seen := Object_prototype)
         (names := entries st pkt b)
    as (entry & He & _ & Hreach & Hcase); [|exact Hm|].
  { intros seen preload child Hs Hc.
    destruct preload; [by left|].
    destruct (decide (Packet.isolated pkt = true)) as [Hiso|Hiso]; [by right|].
    apply not_true_is_false in Hiso.
    by rewrite (Hskip seen false child Hjs Hc eq_refl Hiso) in Hs. }
  exists entry. split; [done|]. split; [done|].
  destruct Hcase as [->|Hp]; [by left|]. right.
  destruct (Hp Hpre) as [Hflag|Hiso]; [|by auto].
  unfold preload_of in Hflag.
  apply orb_true_iff in Hflag as [Hflag|Hw]; [|by auto].
  apply orb_true_iff in Hflag as [Hflag|Hf]; by auto.
Qed.

(** [shared.js] is preloaded: the bundle of [home.js], which requires it,
    leaves it out, and the bundle of the preload entry holds it. *)
Lemma preloaded_children_skipped_witness :
  let pkt := Demo.preloading_packet in
  Demo.shared ∉ (@iterator Node.host Demo.preloading pkt (Demo.bundle 0 ["home.js"] Js)).1
  ∧ Demo.module_ "home_dep.js" 0 []
    ∈ (@iterator Node.host Demo.preloading pkt (Demo.bundle 0 ["home.js"] Js)).1
  ∧ Demo.shared
    ∈ (@iterator Node.host Demo.preloading pkt (Demo.bundle 0 ["preload.js"] Js)).1
  ∧ ∃ entry,
      walked_entry Demo.preloading pkt ["preload.js"] entry
      ∧ reaches Demo.preloading entry Demo.shared
      ∧ (Demo.shared = entry
         ∨ Mod.isPreload entry = true ∨ Mod.fake entry = true
         ∨ Mod.isWorker entry = true ∨ Packet.isolated pkt = true).
Proof.
  intros pkt.
  assert (Hin : Demo.shared
                ∈ (@iterator Node.host Demo.preloading pkt
                     (Demo.bundle 0 ["preload.js"] Js)).1).
  { apply list_elem_of_In. vm_compute. left. reflexivity. }
  split.
  { intros Hout%list_elem_of_In. vm_compute in Hout.
    destruct Hout as [Hout|[Hout|[]]]; discriminate Hout. }
  split; [apply list_elem_of_In; vm_compute; left; reflexivity|].
  split; [exact Hin|].
  exact (proj2 (@preloaded_children_skipped Node.host Demo.preloading pkt
                  (Demo.bundle 0 ["preload.js"] Js))
           Demo.shared eq_refl Hin eq_refl).
Defined.

(** ** The traversal misses nothing *)

Lemma skipped_split (st : Store) (packet : nat) (pkt : Packet.t) (scope : Scope)
    (format : Format) (seen : gset string) (preload : bool) (child : Mod.t) :
  skipped st packet pkt scope format seen preload child
  = bool_decide (Mod.id child ∈ seen) || skipped st packet pkt scope format ∅ preload child.
Proof.
  unfold skipped. rewrite (bool_decide_eq_false_2 (_ ∈ ∅)) by set_solver.
  simpl. by rewrite !orb_assoc.
Qed.

Section Closure.
Context `{Host}.
Variables (st : Store) (packet : nat) (pkt : Packet.t).
Variables (scope : Scope) (format : Format).
Hypothesis unique : unique_ids st.

Local Abbreviation walk := (iterate_with st packet pkt scope format).
Local Abbreviation visitEntry := (iterateEntry st packet pkt scope format).
Local Abbreviation passes := (fun preload c =>
  skipped st packet pkt scope format ∅ preload c = false).

Let fits (m : Mod.t) : Prop :=
  includes (extMap format) (extname (Mod.file m)) = true.

(** Every module marked between [seen] and [seen'] has been yielded, if
    its extension fits, and the children it passes on are marked. *)
Let closed (preload : bool) (seen : gset string) (ys : list Mod.t)
    (seen' : gset string) : Prop :=
  ∀ r x, modules st !! r = Some x → Mod.id x ∈ seen' → Mod.id x ∉ seen →
    (fits x → x ∈ ys)
    ∧ ∀ r' c, r' ∈ Mod.children x → modules st !! r' = Some c →
        passes preload c → Mod.id c ∈ seen'.

(** A visit closes what it marks; it yields the module visited, if its
    extension fits, and marks the children that module passes on, also
    when the module was marked before. *)
Let thorough (visit : Visit) : Prop :=
  ∀ seen child preload ys seen',
    (∃ r, modules st !! r = Some child) →
    visit seen child preload = Some (ys, seen') →
    {[ Mod.id child ]} ∪ seen ⊆ seen' ∧ closed preload seen ys seen'
    ∧ (fits child → child ∈ ys)
    ∧ ∀ r' c, r' ∈ Mod.children child → modules st !! r' = Some c →
        passes preload c → Mod.id c ∈ seen'.

Lemma closed_grow preload seen ys seen' zs seen'' :
  closed preload seen ys seen' → seen' ⊆ seen'' →
  closed preload seen' zs seen'' →
  closed preload seen (ys ++ zs) seen''.
Proof.
  intros Hc1 Hsub Hc2 r x Hx Hin Hnot.
  destruct (decide (Mod.id x ∈ seen')) as [Hin1|Hnot1].
  - destruct (Hc1 r x Hx Hin1 Hnot) as [Hy Hch]. split.
    + intros Hf. apply elem_of_app. left. by apply Hy.
    + intros r' c Hr' Hc Hp. apply Hsub. by eapply Hch.
  - destruct (Hc2 r x Hx Hin Hnot1) as [Hy Hch]. split.
    + intros Hf. apply elem_of_app. right. by apply Hy.
    + done.
Qed.

Lemma iterate_with_closed visit seen children preload ys seen' :
  thorough visit →
  walk visit seen children preload = Some (ys, seen') →
  seen ⊆ seen' ∧ closed preload seen ys seen'
  ∧ ∀ r c, r ∈ children → modules st !! r = Some c → passes preload c →
           Mod.id c ∈ seen'.
Proof.
  intros Hv. revert seen ys seen'.
  induction children as [|r rest IH]; intros seen ys seen' Hw; simpl in Hw.
  - injection Hw as <- <-. split; [done|]. split.
    + intros r x _ Hin Hnot. done.
    + intros r c Hr. by apply elem_of_nil in Hr.
  - destruct (modules st !! r) as [child|] eqn:Hr.
    2: { destruct (IH _ _ _ Hw) as (Hsub & Hcl & Hch). split; [done|]. split; [done|].
         intros r' c [->|Hr']%elem_of_cons Hc Hp; [congruence|by eapply Hch]. }
    destruct (skipped _ _ _ _ _ seen preload child) eqn:Hs.
    { destruct (IH _ _ _ Hw) as (Hsub & Hcl & Hch). split; [done|]. split; [done|].
      intros r' c [->|Hr']%elem_of_cons Hc Hp; [|by eapply Hch].
      assert (c = child) as -> by congruence.
      rewrite skipped_split, Hp, orb_false_r in Hs.
      apply bool_decide_eq_true in Hs. by apply Hsub. }
    destruct (visit seen child preload) as [[ys1 seen1]|] eqn:Hvis; [|done].
    simpl in Hw.
    destruct (walk visit seen1 rest preload) as [[zs seen2]|] eqn:Hw2; [|done].
    simpl in Hw. injection Hw as <- <-.
    destruct (Hv seen child preload ys1 seen1) as (Hsub1 & Hcl1 & _); [by eauto|done|].
    destruct (IH _ _ _ Hw2) as (Hsub2 & Hcl2 & Hch2).
    split; [set_solver|]. split; [by eapply closed_grow|].
    intros r' c [->|Hr']%elem_of_cons Hc Hp; [|by eapply Hch2].
    assert (c = child) as -> by congruence. set_solver.
Qed.

Lemma iterateEntry_closed fuel : thorough (visitEntry fuel).
Proof.
  induction fuel as [|fuel IH]; intros seen entry preload ys seen' [r0 Hentry] Hv; [done|].
  simpl in Hv.
  destruct (walk (visitEntry fuel) ({[Mod.id entry]} ∪ seen) (Mod.children entry) preload)
    as [[ys1 seen1]|] eqn:Hw1; [|done].
  simpl in Hv.
  destruct (iterate_with_closed _ _ _ _ _ _ IH Hw1) as (Hsub1 & Hcl1 & Hch1).
  set (self := if includes (extMap format) (extname (Mod.file entry))
               then [entry] else []) in *.
  assert (Hself : fits entry → entry ∈ self).
  { subst self. unfold fits. intros ->. by apply list_elem_of_singleton. }
  (* what the first walk and the entry itself have closed *)
  assert (Hfirst : closed preload seen (ys1 ++ self) seen1).
  { intros r x Hx Hin Hnot.
    destruct (decide (Mod.id x = Mod.id entry)) as [Heq|Hne].
    - assert (x = entry) as -> by (by eapply unique). split.
      + intros Hf. apply elem_of_app. right. by apply Hself.
      + done.
    - destruct (Hcl1 r x Hx Hin) as [Hy Hch]; [set_solver|]. split; [|done].
      intros Hf. apply elem_of_app. left. by apply Hy. }
  case_bool_decide.
  - destruct (walk (visitEntry fuel) seen1 (Mod.children entry) preload)
      as [[zs seen2]|] eqn:Hw2; [|done].
    simpl in Hv. injection Hv as <- <-.
    destruct (iterate_with_closed _ _ _ _ _ _ IH Hw2) as (Hsub2 & Hcl2 & _).
    split; [set_solver|]. split; [rewrite app_assoc; by eapply closed_grow|]. split.
    + intros Hf. apply elem_of_app. right. apply elem_of_app. left. by apply Hself.
    + intros r' c Hr' Hc Hp. apply Hsub2. by eapply Hch1.
  - injection Hv as <- <-. split; [set_solver|]. split; [done|]. split.
    + intros Hf. apply elem_of_app. right. by apply Hself.
    + exact Hch1.
Qed.

(** Walked from a [done] that is new, an entry yields every module it
    requires whose extension fits. *)
Lemma iterateEntry_complete fuel entry r0 preload ys seen' :
  modules st !! r0 = Some entry →
  visitEntry fuel Object_prototype entry preload = Some (ys, seen') →
  ∀ m, requires st packet pkt scope format preload entry m → fits m → m ∈ ys.
Proof.
  intros Hentry Hv.
  destruct (iterateEntry_closed fuel Object_prototype entry preload ys seen')
    as (Hsub & Hcl & Hself & Hch); [by eauto|done|].
  assert (Hinner : ∀ x m, requires st packet pkt scope format preload x m →
            (∃ r, modules st !! r = Some x) → Mod.id x ∈ seen' →
            Mod.id x ∉ Object_prototype → fits m → m ∈ ys).
  { intros x m Hreq. induction Hreq as [m|x r c m Hr Hc Hs Hreq IH];
      intros [rx Hx] Hin Hnot Hf.
    - destruct (Hcl rx m Hx Hin Hnot) as [Hy _]. by apply Hy.
    - rewrite skipped_split in Hs. apply orb_false_iff in Hs as [Hnew Hp].
      apply bool_decide_eq_false in Hnew.
      apply IH; [by eauto| |done|done].
      destruct (Hcl rx x Hx Hin Hnot) as [_ Hchx]. by eapply Hchx. }
  intros m Hreq Hf.
  inversion Hreq as [|? r c ? Hr Hc Hs Hreq']; subst; [by apply Hself|].
  rewrite skipped_split in Hs. apply orb_false_iff in Hs as [Hnew Hp].
  apply bool_decide_eq_false in Hnew.
  apply (Hinner c m Hreq'); [by eauto|by eapply Hch|done|done].
Qed.
End Closure.

(** ** The second pass over the children *)

Section Again.
Context `{Host}.
Variables (st : Store) (packet : nat) (pkt : Packet.t).
Variables (scope : Scope) (format : Format).

Local Abbreviation walk := (iterate_with st packet pkt scope format).
Local Abbreviation visitEntry := (iterateEntry st packet pkt scope format).

Let grows (visit : Visit) : Prop :=
  ∀ seen child preload ys seen',
    visit seen child preload = Some (ys, seen') → {[ Mod.id child ]} ∪ seen ⊆ seen'.

Lemma skipped_mono seen seen' preload child :
  seen ⊆ seen' →
  skipped st packet pkt scope format seen preload child = true →
  skipped st packet pkt scope format seen' preload child = true.
Proof.
  intros Hsub.
  rewrite (skipped_split _ _ _ _ _ seen), (skipped_split _ _ _ _ _ seen').
  intros [Hin|Hs]%orb_true_iff; apply orb_true_iff; [left|by right].
  apply bool_decide_eq_true. apply bool_decide_eq_true in Hin. by apply Hsub.
Qed.

Lemma iterate_with_grows visit seen children preload ys seen' :
  grows visit →
  walk visit seen children preload = Some (ys, seen') → seen ⊆ seen'.
Proof.
  intros Hv. revert seen ys seen'.
  induction children as [|r rest IH]; intros seen ys seen' Hw; simpl in Hw.
  - by injection Hw as <- <-.
  - destruct (modules st !! r) as [child|]; [|by eapply IH].
    destruct (skipped _ _ _ _ _ seen preload child); [by eapply IH|].
    destruct (visit seen child preload) as [[ys1 seen1]|] eqn:Hvis; [|done].
    simpl in Hw.
    destruct (walk visit seen1 rest preload) as [[zs seen2]|] eqn:Hw2; [|done].
    simpl in Hw. injection Hw as <- <-.
    specialize (Hv _ _ _ _ _ Hvis). specialize (IH _ _ _ Hw2). set_solver.
Qed.

(** Once the children have been walked, walking them again yields
    nothing and marks nothing. *)
Lemma iterate_with_again visit seen children preload ys seen1 seen2 :
  grows visit →
  walk visit seen children preload = Some (ys, seen1) →
  seen1 ⊆ seen2 →
  walk visit seen2 children preload = Some ([], seen2).
Proof.
  intros Hv. revert seen ys seen1.
  induction children as [|r rest IH]; intros seen ys seen1 Hw Hsub; simpl in Hw |- *.
  - done.
  - destruct (modules st !! r) as [child|]; [|by eapply IH].
    destruct (skipped _ _ _ _ _ seen preload child) eqn:Hs.
    + rewrite (skipped_mono seen seen2 preload child); [by eapply IH| |done].
      pose proof (iterate_with_grows _ _ _ _ _ _ Hv Hw). set_solver.
    + destruct (visit seen child preload) as [[ys1 seen1']|] eqn:Hvis; [|done].
      simpl in Hw.
      destruct (walk visit seen1' rest preload) as [[zs seen2']|] eqn:Hw2; [|done].
      simpl in Hw. injection Hw as <- <-.
      pose proof (Hv _ _ _ _ _ Hvis) as Hg1.
      pose proof (iterate_with_grows _ _ _ _ _ _ Hv Hw2) as Hg.
      rewrite (skipped_split _ _ _ _ _ seen2), bool_decide_eq_true_2 by set_solver. simpl.
      by eapply IH.
Qed.

Lemma iterateEntry_grows fuel : grows (visitEntry fuel).
Proof.
  intros seen child preload ys seen' Hv.
  by destruct (iterateEntry_visited _ _ _ _ _ _ _ _ _ _ _ Hv) as [? _].
Qed.

(** The walk of an entry yields what the first pass over its children
    yields and then the entry, if its extension fits. *)
Lemma iterateEntry_entry_last fuel seen entry preload ys seen' :
  visitEntry fuel seen entry preload = Some (ys, seen') →
  ∃ ys1, ys = ys1 ++ (if includes (extMap format) (extname (Mod.file entry))
                      then [entry] else []).
Proof.
  destruct fuel as [|fuel]; [done|]. simpl.
  destruct (walk (visitEntry fuel) ({[Mod.id entry]} ∪ seen) (Mod.children entry) preload)
    as [[ys1 seen1]|] eqn:Hw1; [|done].
  simpl. case_bool_decide.
  - rewrite (iterate_with_again _ _ _ _ _ _ seen1 (iterateEntry_grows fuel) Hw1) by done.
    simpl. intros [= <- <-]. exists ys1. by rewrite app_nil_r.
  - intros [= <- <-]. by exists ys1.
Qed.
End Again.

(** ** A bundle of one entry *)

Lemma file_at_in_store (st : Store) (pkt : Packet.t) (name : string) (entry : Mod.t) :
  file_at st pkt name = Some entry → ∃ r, modules st !! r = Some entry.
Proof.
  unfold file_at. destruct (Packet.files pkt !! name) as [r|]; [|done]. simpl. eauto.
Qed.

Lemma iterator_one_entry `{Host} (st : Store) (pkt : Packet.t) (b : Bundle.t)
    (name : string) (entry : Mod.t) :
  entries st pkt b = [name] →
  file_at st pkt name = Some entry →
  Mod.instanceofModule entry = true →
  ∃ ys seen',
    iterateEntry st (Bundle.packet b) pkt (Bundle.scope b) (Bundle.format b)
      (enough_fuel st) Object_prototype entry (preload_of entry) = Some (ys, seen')
    ∧ iterator st pkt b = (ys, None).
Proof.
  intros He Hf Hi. unfold iterator. rewrite He. cbn [iterator_from]. rewrite Hf, Hi.
  cbn [negb].
  destruct (iterateEntry_returns st (Bundle.packet b) pkt (Bundle.scope b) (Bundle.format b)
              (enough_fuel st) Object_prototype entry (preload_of entry))
    as (ys & seen' & Hv & _).
  { unfold enough_fuel. pose proof (size_ids_of st).
    assert (size (ids_of st ∖ ({[Mod.id entry]} ∪ Object_prototype)) ≤ size (ids_of st))
      by (apply subseteq_size; set_solver).
    lia. }
  exists ys, seen'. split; [done|].
  unfold preload_of in Hv. rewrite Hv. by rewrite app_nil_r.
Qed.

(** Only modules whose file has one of the extensions of the format of
    the bundle are yielded: a script bundle holds no stylesheet, a
    stylesheet bundle no script. *)
Theorem iterator_yields_fitting_extensions `{Host} (st : Store) (pkt : Packet.t)
    (b : Bundle.t) (m : Mod.t) :
  m ∈ (iterator st pkt b).1 →
  includes (extMap (Bundle.format b)) (extname (Mod.file m)) = true.
Proof.
  intros Hm.
  destruct (iterator_from_yielded st (Bundle.packet b) pkt (Bundle.scope b)
              (Bundle.format b) (fun _ _ => True) ltac:(done) _ _ _ m Hm)
    as (entry & _ & Hf & _).
  exact Hf.
Qed.

Lemma iterator_yields_fitting_extensions_witness :
  let m := Demo.module_ "app.css" 0 [] in
  m ∈ (@iterator Node.host Sample.store Sample.packet (Demo.bundle 0 ["home.js"] Css)).1
  ∧ includes (extMap Css) (Node.posix_extname (Mod.file m)) = true.
Proof.
  intros m.
  assert (Hm : m ∈ (@iterator Node.host Sample.store Sample.packet
                      (Demo.bundle 0 ["home.js"] Css)).1).
  { apply list_elem_of_In. vm_compute. left. reflexivity. }
  split; [exact Hm|].
  exact (@iterator_yields_fitting_extensions Node.host Sample.store Sample.packet
           (Demo.bundle 0 ["home.js"] Css) m Hm).
Defined.

(** Every module yielded is one of the entries that the loop walks, or is
    reached from one of them through [children]: a bundle holds nothing
    that its entries do not depend on. *)
Theorem iterator_yields_reachable `{Host} (st : Store) (pkt : Packet.t)
    (b : Bundle.t) (m : Mod.t) :
  m ∈ (iterator st pkt b).1 →
  ∃ entry, walked_entry st pkt (entries st pkt b) entry ∧ reaches st entry m.
Proof.
  intros Hm.
  destruct (iterator_from_yielded st (Bundle.packet b) pkt (Bundle.scope b)
              (Bundle.format b) (fun _ _ => True) ltac:(done) _ _ _ m Hm)
    as (entry & He & _ & Hr & _).
  by exists entry.
Qed.

Lemma iterator_yields_reachable_witness :
  let m := Demo.module_ "home_dep.js" 0 [] in
  let b := Demo.bundle 0 ["home.js"] Js in
  m ∈ (@iterator Node.host Sample.store Sample.packet b).1
  ∧ ∃ entry, walked_entry Sample.store Sample.packet
               (entries Sample.store Sample.packet b) entry
             ∧ reaches Sample.store entry m.
Proof.
  intros m b.
  assert (Hm : m ∈ (@iterator Node.host Sample.store Sample.packet b).1).
  { apply list_elem_of_In. vm_compute. left. reflexivity. }
  split; [exact Hm|].
  exact (@iterator_yields_reachable Node.host Sample.store Sample.packet b m Hm).
Defined.

(** A module that is yielded without being one of the entries walked is
    not [isolated]; in a script bundle it belongs to the packet of the
    bundle, or the scope of the bundle is [all] and the packet of the
    module is not isolated. *)
Theorem iterator_keeps_out `{Host} (st : Store) (pkt : Packet.t) (b : Bundle.t)
    (m : Mod.t) :
  m ∈ (iterator st pkt b).1 →
  walked_entry st pkt (entries st pkt b) m
  ∨ (Mod.isolated m = false
     ∧ (Bundle.format b = Js →
        Mod.packet m = Bundle.packet b
        ∨ (Bundle.scope b = ScopeAll
           ∧ from_option Packet.isolated false (packets st !! Mod.packet m) = false))).
Proof.
  intros Hm.
  destruct (iterator_from_yielded st (Bundle.packet b) pkt (Bundle.scope b)
              (Bundle.format b)
              (fun _ c =>
                 Mod.isolated c = false
                 ∧ (Bundle.format b = Js →
                    Mod.packet c = Bundle.packet b
                    ∨ (Bundle.scope b = ScopeAll
                       ∧ from_option Packet.isolated false (packets st !! Mod.packet c)
                         = false)))) with (m := m) (fuel := enough_fuel st) (seen := Object_prototype)
              (names := entries st pkt b)
    as (entry & He & _ & _ & [->|Hp]); [|exact Hm|by left|by right].
  intros seen preload child. unfold skipped. intros Hs.
  apply orb_false_iff in Hs as [Hs Hiso]. apply orb_false_iff in Hs as [_ Hs].
  split; [done|]. intros Hjs. rewrite Hjs in Hs.
  rewrite bool_decide_eq_true_2 in Hs by done. simpl in Hs.
  apply orb_false_iff in Hs as [Hs Hforeign]. apply orb_false_iff in Hs as [Hscope _].
  destruct (decide (Mod.packet child = Bundle.packet b)) as [Heq|Hne]; [by left|right].
  rewrite bool_decide_eq_true_2 in Hscope, Hforeign by done. simpl in *.
  split; [|done]. apply bool_decide_eq_false in Hscope.
  by destruct (decide (Bundle.scope b = ScopeAll)).
Qed.

Lemma iterator_keeps_out_witness :
  let m := Demo.module_ "home_dep.js" 0 [] in
  let b := Demo.bundle 0 ["home.js"] Js in
  m ∈ (@iterator Node.host Sample.store Sample.packet b).1
  ∧ (walked_entry Sample.store Sample.packet (entries Sample.store Sample.packet b) m
     ∨ (Mod.isolated m = false
        ∧ (Bundle.format b = Js →
           Mod.packet m = Bundle.packet b
           ∨ (Bundle.scope b = ScopeAll
              ∧ from_option Packet.isolated false
                  (packets Sample.store !! Mod.packet m) = false)))).
Proof.
  intros m b.
  assert (Hm : m ∈ (@iterator Node.host Sample.store Sample.packet b).1).
  { apply list_elem_of_In. vm_compute. left. reflexivity. }
  split; [exact Hm|].
  exact (@iterator_keeps_out Node.host Sample.store Sample.packet b m Hm).
Defined.

(** On a graph whose modules have distinct ids, the bundle of one entry
    yields every module whose extension is one of the format and that the
    entry requires through children that [iterate] does not pass over when
    it meets them first: children that its tests on the packet, the scope,
    the [preloaded] flag and isolation let through, and whose id is no name
    of a property of [Object.prototype] ([done] is [{}], and
    [done["constructor"]] is truthy before any module is done). With
    [iterator_one_entry_NoDup], each is yielded exactly once. *)
Theorem iterator_complete `{Host} (st : Store) (pkt : Packet.t) (b : Bundle.t)
    (name : string) (entry m : Mod.t) :
  unique_ids st →
  entries st pkt b = [name] →
  file_at st pkt name = Some entry →
  Mod.instanceofModule entry = true →
  requires st (Bundle.packet b) pkt (Bundle.scope b) (Bundle.format b)
    (preload_of entry) entry m →
  includes (extMap (Bundle.format b)) (extname (Mod.file m)) = true →
  m ∈ (iterator st pkt b).1.
Proof.
  intros Hu He Hf Hi Hreq Hfit.
  destruct (iterator_one_entry st pkt b name entry He Hf Hi) as (ys & seen' & Hv & ->).
  destruct (file_at_in_store _ _ _ _ Hf) as [r0 Hr0].
  by eapply iterateEntry_complete.
Qed.

(** [done] being a plain object, a child whose id is [constructor] is
    passed over, whatever its file. *)
Example inherited_name_is_passed_over :
  let lib := {| Mod.id := "constructor"; Mod.file := "lib.js";
                Mod.fpath := "/app/components/lib.js"; Mod.packet := 0;
                Mod.children := []; Mod.instanceofModule := true;
                Mod.isRootEntry := false; Mod.isPreload := false; Mod.isWorker := false;
                Mod.fake := false; Mod.preloaded := false; Mod.isolated := false;
                Mod.lock := JNull |} in
  let home := Demo.module_ "home.js" 0 [2; 3] in
  let pkt := Demo.packet {[ "home.js" := 1; "constructor" := 2; "home_dep.js" := 3 ]} [] in
  let st := Demo.store {[ 1 := home; 2 := lib; 3 := Demo.module_ "home_dep.js" 0 [] ]}
              {[ 0 := pkt ]} {[ 0 := Demo.bundle 0 ["home.js"] Js ]} in
  @iterator Node.host st pkt (Demo.bundle 0 ["home.js"] Js)
  = ([Demo.module_ "home_dep.js" 0 []; home], None).
Proof. by vm_compute. Qed.

Lemma sample_unique_ids : unique_ids Sample.store.
Proof.
  intros r1 r2 m1 m2 H1%elem_of_map_to_list H2%elem_of_map_to_list.
  apply list_elem_of_In in H1, H2. vm_compute in H1, H2.
  intros Hid. destruct H1 as [H1|[H1|[H1|[H1|[]]]]], H2 as [H2|[H2|[H2|[H2|[]]]]];
    injection H1 as <- <-; injection H2 as <- <-; done.
Qed.

Lemma iterator_complete_witness :
  let b := Demo.bundle 0 ["home.js"] Js in
  Demo.module_ "home_dep.js" 0 [] ∈ (@iterator Node.host Sample.store Sample.packet b).1.
Proof.
  intros b.
  apply (@iterator_complete Node.host Sample.store Sample.packet b "home.js"
           (Demo.module_ "home.js" 0 [2; 3; 4])).
  - exact sample_unique_ids.
  - reflexivity.
  - reflexivity.
  - reflexivity.
  - apply requires_child with 2 (Demo.module_ "home_dep.js" 0 []).
    + apply list_elem_of_In. left. reflexivity.
    + reflexivity.
    + reflexivity.
    + apply requires_refl.
  - reflexivity.
Defined.

(** On a graph that stays as it is while it is traversed, the second
    pass of [iterateEntry] over the children yields nothing: the bundle of
    one entry whose extension is one of the format yields that entry last,
    after every module it requires. *)
Theorem iterator_entry_last `{Host} (st : Store) (pkt : Packet.t) (b : Bundle.t)
    (name : string) (entry : Mod.t) :
  entries st pkt b = [name] →
  file_at st pkt name = Some entry →
  Mod.instanceofModule entry = true →
  includes (extMap (Bundle.format b)) (extname (Mod.file entry)) = true →
  last (iterator st pkt b).1 = Some entry.
Proof.
  intros He Hf Hi Hfit.
  destruct (iterator_one_entry st pkt b name entry He Hf Hi) as (ys & seen' & Hv & ->).
  destruct (iterateEntry_entry_last _ _ _ _ _ _ _ _ _ _ _ Hv) as [ys1 ->].
  rewrite Hfit. cbn [fst]. by rewrite last_snoc.
Qed.

Lemma iterator_entry_last_witness :
  let b := Demo.bundle 0 ["home.js"] Js in
  last (@iterator Node.host Sample.store Sample.packet b).1
  = Some (Demo.module_ "home.js" 0 [2; 3; 4]).
Proof.
  intros b.
  apply (@iterator_entry_last Node.host Sample.store Sample.packet b "home.js");
    reflexivity.
Defined.

Lemma iterator_one_entry_NoDup_witness :
  let b := Demo.bundle 0 ["a.js"] Js in
  let pkt := Demo.packet Demo.cycle_files [] in
  let st := Demo.store Demo.cycle {[ 0 := pkt ]} {[ 0 := b ]} in
  entries st pkt b = ["a.js"]
  ∧ NoDup (Mod.id <$> (@iterator Node.host st pkt b).1).
Proof.
  intros b pkt st. split; [reflexivity|].
  apply (@iterator_one_entry_NoDup Node.host st pkt b "a.js"). reflexivity.
Defined.

(** ** The stages of a build *)

Lemma pack_fold_effects (p : nat) (all : list nat) (st : Store) :
  effects (foldl (fun st dep => if bool_decide (dep = p) then st
                                else perform (Pack dep) st) st all)
  = effects st ++ (Pack <$> List.filter (fun dep => negb (bool_decide (dep = p))) all).
Proof.
  revert st. induction all as [|dep rest IH]; intros st; simpl.
  - by rewrite app_nil_r.
  - rewrite IH. case_bool_decide; simpl; [done|]. by rewrite <- app_assoc.
Qed.

Lemma pack_fold_clock (p : nat) (all : list nat) (st : Store) :
  let st' := foldl (fun st dep => if bool_decide (dep = p) then st
                                  else perform (Pack dep) st) st all in
  timers st' = timers st ∧ next_timer st' = next_timer st ∧ now st' = now st.
Proof.
  revert st. induction all as [|dep rest IH]; intros st; simpl; [done|].
  destruct (IH (if bool_decide (dep = p) then st else perform (Pack dep) st))
    as (-> & -> & ->).
  by case_bool_decide.
Qed.

(** [minifyLoader] and [obtainLoader] return the loader of the bundle; at
    most the cache of minified loaders of the bundle changes. *)
Lemma loader_step_exact `{Host} (self : nat) (cfg : LoaderConfig) (minify : bool)
    (st st' : Store) (b : Bundle.t) (pkt : Packet.t)
    (r : Result (option (string * option RawMap))) :
  bundles st !! self = Some b →
  packets st !! Bundle.packet b = Some pkt →
  (if minify then minifyLoader self cfg else obtainLoader self cfg) st = (r, st') →
  r = loader_of b pkt cfg minify
  ∧ (st' = st ∨ ∃ c, st' = set_bundle self (with_loaderCache c b) st).
Proof.
  intros Hb Hp. unfold loader_of. destruct minify;
    unfold minifyLoader, obtainLoader, bind, this, packet_of, deref, modify, lift, ret;
    rewrite Hb, ?Hp.
  - destruct (Bundle.loaderCache b !! _); [intros [= <- <-]; by eauto|].
    rewrite Hp. destruct (parseLoader pkt cfg); [|intros [= <- <-]; by eauto].
    rewrite Hb. intros [= <- <-]. by eauto.
  - destruct (parseLoader pkt cfg); intros [= <- <-]; by eauto.
Qed.

(** The store in which a build takes its loader: [updatedAt] is stamped,
    the loader configuration is assigned, the dependencies are packed. *)
Lemma obtain_miss_stages `{Host} (st : Store) (self : nat) (b : Bundle.t)
    (pkt : Packet.t) (loader : option bool) (minify : bool)
    (r : option string * option (list SourceNode)) (st' : Store) :
  bundles st !! self = Some b →
  packets st !! Bundle.packet b = Some pkt →
  Bundle.p_etag b ≠ Some (etag_of (entries st pkt b)) →
  obtain self loader minify st = (Ok r, st') →
  ∃ mod_ st3 bL whole,
    file_at st pkt (default "undefined" (head (entries st pkt b))) = Some mod_
    ∧ (∃ mods front,
         add_modules minify (App.root (Packet.app pkt)) (iterator st pkt b).1 = Ok mods
         ∧ (iterator st pkt b).2 = None
         ∧ (if Mod.isRootEntry mod_ && negb (bool_decide (loader = Some false))
               && bool_decide (Bundle.format b = Js)
            then ∃ code map,
                   loader_of b
                     (with_loaderConfig
                        (Object_assign (Packet.loaderConfig pkt) (Bundle.loaderConfig b)) pkt)
                     (Object_assign (Packet.loaderConfig pkt) (Bundle.loaderConfig b)) minify
                   = Ok (Some (code, map))
                   ∧ front = [createSourceNode "loader.js" code map]
            else front = [])
         ∧ whole
           = front
             ++ (if Mod.isRootEntry mod_ && negb (Mod.isPreload mod_)
                    && bool_decide (Bundle.format b = Js)
                 then [Chunk (lock_statement
                                (if bool_decide (0 < length (App.preload (Packet.app pkt)))
                                    && Mod.fake mod_
                                 then Mod.lock mod_ else Packet.lock pkt))]
                 else [])
             ++ mods
             ++ (if Mod.isRootEntry mod_ && negb (bool_decide (loader = Some false))
                    && bool_decide (Bundle.format b = Js)
                 then [Chunk (import_statement (Mod.id mod_))] else []))
    ∧ effects st3
      = effects st
        ++ (if Mod.isRootEntry mod_
            then Pack <$> List.filter (fun dep => negb (bool_decide (dep = Bundle.packet b)))
                            (Packet.all pkt)
            else [])
    ∧ bundles st3 !! self = Some bL
    ∧ (bL = with_updatedAt (now st) b
       ∨ ∃ c, bL = with_loaderCache c (with_updatedAt (now st) b))
    ∧ packets st3
      = <[Bundle.packet b :=
            with_loaderConfig
              (Object_assign (Packet.loaderConfig pkt) (Bundle.loaderConfig b)) pkt]>
          (packets st)
    ∧ (∀ x, x ≠ self → bundles st3 !! x = bundles st !! x)
    ∧ modules st3 = modules st ∧ timers st3 = timers st
    ∧ next_timer st3 = next_timer st ∧ now st3 = now st
    ∧ r = (Some (toString whole), Some whole)
    ∧ st' = set_bundle self
              (with_cache (Some (toString whole)) (Some whole)
                 (Some (etag_of (entries st pkt b))) None bL) st3.
Proof.
  intros Hb Hp Hetag Hrun.
  unfold obtain in Hrun.
  inv_bind Hrun b0 s0 H0. unfold this, deref in H0. rewrite Hb in H0.
  injection H0 as <- <-.
  inv_bind Hrun p0 s0 H0. unfold packet_of, deref in H0. rewrite Hp in H0.
  injection H0 as <- <-.
  inv_bind Hrun es s0 H0. injection H0 as <- <-.
  rewrite bool_decide_eq_false_2 in Hrun by done.
  inv_bind Hrun t s0 H0. injection H0 as <- <-.
  inv_bind Hrun u s1 H0. injection H0 as <- <-.
  inv_bind Hrun u s1 H0. injection H0 as <- <-.
  set (cfg := Object_assign _ _) in *.
  set (st1 := set_packet _ _ _) in *.
  assert (Hb1 : bundles st1 !! self = Some (with_updatedAt (now st) b))
    by (cbn; apply lookup_insert_eq).
  assert (Hp1 : packets st1 !! Bundle.packet b = Some (with_loaderConfig cfg pkt))
    by (cbn; apply lookup_insert_eq).
  inv_bind Hrun yielded s1 H0. injection H0 as <- <-.
  rewrite (iterator_frame st st1) in Hrun
    by (done || (intros ?; cbn; by apply isolated_with_loaderConfig)).
  inv_bind Hrun mods s1 H0. unfold lift in H0. injection H0 as Hmods <-.
  inv_bind Hrun u s1 H0. destruct (_.2) eqn:Hnone; [done|]. injection H0 as <- <-.
  inv_bind Hrun primary s1 H0. injection H0 as <- <-.
  rewrite (file_at_frame st st1) in Hrun by done.
  destruct (file_at st pkt _) as [mod_|] eqn:Hfirst; [|by case_bool_decide].
  inv_bind Hrun u st2 Hpack.
  set (packs := if Mod.isRootEntry mod_
                then Pack <$> List.filter
                                (fun dep => negb (bool_decide (dep = Bundle.packet b)))
                                (Packet.all pkt)
                else []).
  assert (Hst2 : effects st2 = effects st ++ packs
                 ∧ bundles st2 = bundles st1 ∧ packets st2 = packets st1
                 ∧ modules st2 = modules st ∧ timers st2 = timers st
                 ∧ next_timer st2 = next_timer st ∧ now st2 = now st).
  { subst packs. destruct (Mod.isRootEntry mod_).
    - unfold pack_dependencies, modify in Hpack. injection Hpack as _ <-.
      rewrite pack_fold_effects.
      destruct (pack_fold_same (Bundle.packet b) (Packet.all pkt) st1) as (-> & -> & ->).
      by destruct (pack_fold_clock (Bundle.packet b) (Packet.all pkt) st1) as (-> & -> & ->).
    - injection Hpack as <- <-. by rewrite app_nil_r. }
  destruct Hst2 as (He2 & Hb2 & Hp2 & Hm2 & Ht2 & Hn2 & Hc2).
  inv_bind Hrun whole st3 Hload.
  assert (Hst3 : (st3 = st2
                  ∨ ∃ c, st3 = set_bundle self
                                 (with_loaderCache c (with_updatedAt (now st) b)) st2)
                 ∧ ∃ front,
                     (if Mod.isRootEntry mod_ && negb (bool_decide (loader = Some false))
                         && bool_decide (Bundle.format b = Js)
                      then ∃ code map,
                             loader_of b (with_loaderConfig cfg pkt) cfg minify
                             = Ok (Some (code, map))
                             ∧ front = [createSourceNode "loader.js" code map]
                      else front = [])
                     ∧ whole
                       = front
                         ++ (if Mod.isRootEntry mod_ && negb (Mod.isPreload mod_)
                                && bool_decide (Bundle.format b = Js)
                             then [Chunk (lock_statement
                                            (if bool_decide
                                                  (0 < length (App.preload (Packet.app pkt)))
                                                && Mod.fake mod_
                                             then Mod.lock mod_ else Packet.lock pkt))]
                             else [])
                         ++ mods
                         ++ (if Mod.isRootEntry mod_
                                && negb (bool_decide (loader = Some false))
                                && bool_decide (Bundle.format b = Js)
                             then [Chunk (import_statement (Mod.id mod_))] else [])).
  { destruct (Mod.isRootEntry mod_ && negb (bool_decide (loader = Some false))
              && bool_decide (Bundle.format b = Js)).
    - inv_bind Hload ldr s Hl. destruct ldr as [[lcode lmap]|]; [|done].
      injection Hload as <- <-.
      destruct (loader_step_exact self cfg minify st2 s (with_updatedAt (now st) b)
                  (with_loaderConfig cfg pkt) _ ltac:(by rewrite Hb2)
                  ltac:(by rewrite Hp2) Hl) as [Hval Hs].
      split; [exact Hs|]. exists [createSourceNode "loader.js" lcode lmap]. split.
      + exists lcode, lmap. split; [by rewrite Hval|done].
      + by destruct (_ && _ && _).
    - injection Hload as <- <-. split; [by left|]. exists []. split; [done|].
      destruct (_ && _ && _); simpl; by rewrite app_nil_r. }
  destruct Hst3 as [Hst3 (front & Hfront & Hwhole)].
  inv_bind Hrun bL s H0. unfold this, deref in H0.
  destruct (bundles st3 !! self) as [bL'|] eqn:HbL; [|done]. injection H0 as <- <-.
  inv_bind Hrun u' s H0. injection H0 as <- <-.
  injection Hrun as <- <-.
  exists mod_, st3, bL', whole. split; [done|].
  split; [by exists mods, front|].
  assert (Hother : ∀ x, x ≠ self → bundles st2 !! x = bundles st !! x).
  { intros x Hx. rewrite Hb2. cbn. by rewrite lookup_insert_ne. }
  assert (Hpk : packets st2 = <[Bundle.packet b := with_loaderConfig cfg pkt]> (packets st))
    by (by rewrite Hp2).
  destruct Hst3 as [->|[c ->]].
  - assert (bL' = with_updatedAt (now st) b) as -> by (rewrite Hb2, Hb1 in HbL; congruence).
    split; [done|]. split; [by rewrite Hb2|]. split; [by left|].
    by repeat (split; [by auto|]).
  - assert (bL' = with_loaderCache c (with_updatedAt (now st) b)) as ->
      by (cbn in HbL; rewrite lookup_insert_eq in HbL; congruence).
    cbn [effects bundles packets modules timers next_timer now set_bundle].
    rewrite lookup_insert_eq.
    split; [done|]. split; [done|]. split; [right; by eexists|]. split; [done|].
    split; [intros x Hx; rewrite lookup_insert_ne by done; by apply Hother|].
    by repeat (split; [by auto|]).
Qed.

Lemma bind_inv_throw {A B} (m : M A) (k : A → M B) (st st' : Store) (e : Error) :
  bind m k st = (Throw e, st') →
  m st = (Throw e, st') ∨ ∃ a st1, m st = (Ok a, st1) ∧ k a st1 = (Throw e, st').
Proof.
  unfold bind. destruct (m st) as [[a|e0] st1]; [by eauto|].
  intros [= <- <-]. by left.
Qed.

Ltac inv_throw H a s Ha :=
  apply bind_inv_throw in H as [H|(a & s & Ha & H)]; [done|].

(** A build that throws has stamped [updatedAt], has assigned the loader
    configuration of the packet, may have packed the dependencies and may
    have filed the answer of the minifier in the cache of minified loaders;
    it has written nothing else. *)
Lemma obtain_miss_throw `{Host} (st : Store) (self : nat) (b : Bundle.t)
    (pkt : Packet.t) (loader : option bool) (minify : bool) (e : Error) (st' : Store) :
  bundles st !! self = Some b →
  packets st !! Bundle.packet b = Some pkt →
  Bundle.p_etag b ≠ Some (etag_of (entries st pkt b)) →
  obtain self loader minify st = (Throw e, st') →
  (∃ bT, bundles st' = <[self := bT]> (bundles st)
         ∧ (bT = with_updatedAt (now st) b
            ∨ ∃ c, bT = with_loaderCache c (with_updatedAt (now st) b)))
  ∧ packets st'
    = <[Bundle.packet b :=
          with_loaderConfig
            (Object_assign (Packet.loaderConfig pkt) (Bundle.loaderConfig b)) pkt]>
        (packets st)
  ∧ modules st' = modules st ∧ timers st' = timers st
  ∧ next_timer st' = next_timer st ∧ now st' = now st
  ∧ (effects st' = effects st
     ∨ effects st'
       = effects st
         ++ (Pack <$> List.filter (fun dep => negb (bool_decide (dep = Bundle.packet b)))
                        (Packet.all pkt))).
Proof.
  intros Hb Hp Hetag Hrun.
  unfold obtain in Hrun.
  apply bind_inv_throw in Hrun as [Hrun|(b0 & s0 & H0 & Hrun)].
  { unfold this, deref in Hrun. by rewrite Hb in Hrun. }
  unfold this, deref in H0. rewrite Hb in H0. injection H0 as <- <-.
  apply bind_inv_throw in Hrun as [Hrun|(p0 & s0 & H0 & Hrun)].
  { unfold packet_of, deref in Hrun. by rewrite Hp in Hrun. }
  unfold packet_of, deref in H0. rewrite Hp in H0. injection H0 as <- <-.
  inv_throw Hrun es s0 H0. injection H0 as <- <-.
  rewrite bool_decide_eq_false_2 in Hrun by done.
  inv_throw Hrun t s0 H0. injection H0 as <- <-.
  inv_throw Hrun u s1 H0. injection H0 as <- <-.
  inv_throw Hrun u s1 H0. injection H0 as <- <-.
  set (cfg := Object_assign _ _) in *.
  set (st1 := set_packet _ _ _) in *.
  set (packs := Pack <$> List.filter (fun dep => negb (bool_decide (dep = Bundle.packet b)))
                           (Packet.all pkt)).
  (* what the store may be when the build throws *)
  set (reached := fun s : Store =>
         (∃ bT, bundles s = <[self := bT]> (bundles st)
                ∧ (bT = with_updatedAt (now st) b
                   ∨ ∃ c, bT = with_loaderCache c (with_updatedAt (now st) b)))
         ∧ packets s = <[Bundle.packet b := with_loaderConfig cfg pkt]> (packets st)
         ∧ modules s = modules st ∧ timers s = timers st
         ∧ next_timer s = next_timer st ∧ now s = now st
         ∧ (effects s = effects st ∨ effects s = effects st ++ packs)).
  change (reached st').
  assert (Hst1 : reached st1).
  { split; [exists (with_updatedAt (now st) b); split; [done|by left]|]. by auto 10. }
  inv_throw Hrun yielded s1 H0. injection H0 as <- <-.
  apply bind_inv_throw in Hrun as [Hrun|(mods & s1 & H0 & Hrun)].
  { unfold lift in Hrun. by injection Hrun as _ <-. }
  unfold lift in H0. injection H0 as _ <-.
  apply bind_inv_throw in Hrun as [Hrun|(u & s1 & H0 & Hrun)].
  { destruct (_.2); by injection Hrun as _ <-. }
  destruct (_.2); [done|]. injection H0 as <- <-.
  inv_throw Hrun primary s1 H0. injection H0 as <- <-.
  destruct (file_at st1 pkt _) as [mod_|].
  2: { case_bool_decide; by injection Hrun as _ <-. }
  apply bind_inv_throw in Hrun as [Hrun|(u & st2 & Hpack & Hrun)].
  { by destruct (Mod.isRootEntry mod_). }
  assert (Hst2 : reached st2 ∧ bundles st2 = bundles st1 ∧ packets st2 = packets st1).
  { destruct (Mod.isRootEntry mod_).
    - unfold pack_dependencies, modify in Hpack. injection Hpack as _ <-.
      destruct Hst1 as (Hbs & Hps & Hms & Hts & Hns & Hcs & Hes).
      unfold reached. rewrite pack_fold_effects.
      destruct (pack_fold_same (Bundle.packet b) (Packet.all pkt) st1) as (-> & -> & ->).
      destruct (pack_fold_clock (Bundle.packet b) (Packet.all pkt) st1) as (-> & -> & ->).
      split; [|done]. by auto 10.
    - by injection Hpack as <- <-. }
  destruct Hst2 as (Hst2 & Hb2 & Hp2).
  assert (Hb2' : bundles st2 !! self = Some (with_updatedAt (now st) b))
    by (rewrite Hb2; cbn; apply lookup_insert_eq).
  assert (Hp2' : packets st2 !! Bundle.packet b = Some (with_loaderConfig cfg pkt))
    by (rewrite Hp2; cbn; apply lookup_insert_eq).
  (* the store after the loader has been taken *)
  assert (Hloaded : ∀ (ldr : Result (option (string * option RawMap))) s,
            (if minify then minifyLoader self cfg else obtainLoader self cfg) st2 = (ldr, s) →
            reached s ∧ is_Some (bundles s !! self)).
  { intros ldr s Hl.
    destruct (loader_step_exact self cfg minify st2 s (with_updatedAt (now st) b)
                (with_loaderConfig cfg pkt) ldr Hb2' Hp2' Hl) as [_ [->|[c ->]]];
      [by eauto|].
    destruct Hst2 as ((bT & Hbs & HbT) & Hps & Hms & Hts & Hns & Hcs & Hes).
    split; [|cbn; rewrite lookup_insert_eq; by eauto].
    split; [|by auto 10].
    exists (with_loaderCache c (with_updatedAt (now st) b)).
    split; [|right; by eexists].
    cbn. rewrite Hbs. by rewrite insert_insert_eq. }
  apply bind_inv_throw in Hrun as [Hrun|(whole & st3 & Hload & Hrun)].
  { destruct (_ && _ && _); [|done].
    apply bind_inv_throw in Hrun as [Hrun|(ldr & s & Hl & Hrun)].
    - by apply (Hloaded _ _ Hrun).
    - destruct ldr as [[lcode lmap]|]; [done|]. injection Hrun as _ <-.
      by apply (Hloaded _ _ Hl). }
  exfalso.
  apply bind_inv_throw in Hrun as [Hrun|(bL & s & H0 & Hrun)].
  - unfold this, deref in Hrun.
    assert (Hsome : is_Some (bundles st3 !! self));
      [|destruct Hsome as [bL HbL]; by rewrite HbL in Hrun].
    destruct (_ && _ && _).
    + inv_bind Hload ldr s Hl. destruct ldr as [[lcode lmap]|]; [|done].
      injection Hload as _ <-. by apply (Hloaded _ _ Hl).
    + injection Hload as _ <-. by eauto.
  - apply bind_inv_throw in Hrun as [Hrun|(u' & s' & H1 & Hrun)]; done.
Qed.

(** ** The loader of a root entry *)

(** C2, as the code has it. On a [.js] bundle that [obtain] builds, that
    is when the [etag] does not already answer for the entries, the node of
    the loader comes first and the [porter.import] statement of the primary
    entry comes last exactly when that entry is a root entry and the
    [loader] option is not [false]; whether the entry is a preload entry
    decides the lock statement, not the loader. The loader is that of the
    bundle: what [packet.parseLoader] gives for the loader configuration of
    the packet with that of the bundle assigned onto it, minified when
    [minify] is set. In between stand the lock statement, if any, and the
    modules of the traversal. *)
Theorem loader_for_root_entry `{Host} (st : Store) (self : nat) (b : Bundle.t)
    (pkt : Packet.t) (loader : option bool) (minify : bool)
    (code : option string) (nodes : option (list SourceNode)) (st' : Store)
    (mod_ : Mod.t) :
  bundles st !! self = Some b →
  packets st !! Bundle.packet b = Some pkt →
  Bundle.format b = Js →
  Bundle.p_etag b ≠ Some (etag_of (entries st pkt b)) →
  file_at st pkt (default "undefined" (head (entries st pkt b))) = Some mod_ →
  obtain self loader minify st = (Ok (code, nodes), st') →
  ∃ mods all,
    add_modules minify (App.root (Packet.app pkt)) (iterator st pkt b).1 = Ok mods
    ∧ code = Some (toString all) ∧ nodes = Some all
    ∧ let cfg := Object_assign (Packet.loaderConfig pkt) (Bundle.loaderConfig b) in
      let lock := if bool_decide (0 < length (App.preload (Packet.app pkt))) && Mod.fake mod_
                  then Mod.lock mod_ else Packet.lock pkt in
      let body := (if Mod.isRootEntry mod_ && negb (Mod.isPreload mod_)
                   then [Chunk (lock_statement lock)] else []) ++ mods in
      if Mod.isRootEntry mod_ && negb (bool_decide (loader = Some false))
      then ∃ lcode lmap,
             loader_of b (with_loaderConfig cfg pkt) cfg minify = Ok (Some (lcode, lmap))
             ∧ all = createSourceNode "loader.js" lcode lmap
                       :: body ++ [Chunk (import_statement (Mod.id mod_))]
      else all = body.
Proof.
  intros Hb Hp Hjs Hetag Hfirst Hrun.
  destruct (obtain_miss_stages _ _ _ _ _ _ _ _ Hb Hp Hetag Hrun)
    as (mod' & st3 & bL & whole & Hfirst' & (mods & front & Hmods & _ & Hfront & Hwhole)
        & _ & _ & _ & _ & _ & _ & _ & _ & _ & Hr & _).
  rewrite Hfirst in Hfirst'. injection Hfirst' as <-.
  injection Hr as -> ->. exists mods, whole. split; [done|]. split; [done|].
  split; [done|]. cbn zeta.
  rewrite Hjs, !(bool_decide_eq_true_2 (Js = Js)), !andb_true_r in Hfront, Hwhole by done.
  destruct (Mod.isRootEntry mod_ && negb (bool_decide (loader = Some false))).
  - destruct Hfront as (lcode & lmap & Hl & ->). exists lcode, lmap. split; [done|].
    rewrite Hwhole. simpl. by rewrite <- app_assoc.
  - rewrite Hfront in Hwhole. rewrite Hwhole. simpl. by rewrite app_nil_r.
Qed.

Lemma loader_for_root_entry_witness :
  let st := Demo.home true true false Js in
  let b := Demo.bundle 0 ["home.js"] Js in
  let pkt := Demo.packet {[ "home.js" := 1; "home_dep.js" := 2 ]} [("home.js", 1)] in
  let mod_ := Demo.with_flags true true false (Demo.module_ "home.js" 0 [2]) in
  ∃ code nodes st',
    @obtain Node.host 0 None false st = (Ok (code, nodes), st')
    ∧ ∃ mods whole,
        @add_modules Node.host false "/app" (@iterator Node.host st pkt b).1 = Ok mods
        ∧ code = Some (toString whole) ∧ nodes = Some whole
        ∧ ∃ lcode lmap,
            @loader_of Node.host b pkt (Packet.loaderConfig pkt) false
            = Ok (Some (lcode, lmap))
            ∧ whole = @createSourceNode "loader.js" lcode lmap
                        :: mods ++ [Chunk (@import_statement Node.host "home.js")].
Proof.
  intros st b pkt mod_.
  destruct (@obtain Node.host 0 None false st) as [[[code nodes]|e] st'] eqn:Hrun;
    [|vm_compute in Hrun; discriminate].
  exists code, nodes, st'. split; [done|].
  apply (@loader_for_root_entry Node.host st 0 b pkt None false code nodes st' mod_);
    [reflexivity|reflexivity|reflexivity|discriminate|reflexivity|exact Hrun].
Defined.

(** C2, as the claim words it, fails on a root entry that is a preload
    entry: with the [loader] option unset, the bundle begins with the loader
    and ends with the [porter.import] statement. *)
Lemma preload_root_entry_has_loader :
  ¬ (∀ (H : Host) (st : Store) (self : nat) (b : Bundle.t) (pkt : Packet.t)
       (loader : option bool) (minify : bool) (code : option string)
       (whole : list SourceNode) (st' : Store) (mod_ : Mod.t),
       bundles st !! self = Some b →
       packets st !! Bundle.packet b = Some pkt →
       Bundle.format b = Js →
       Bundle.p_etag b ≠ Some (etag_of (entries st pkt b)) →
       file_at st pkt (default "undefined" (head (entries st pkt b))) = Some mod_ →
       obtain self loader minify st = (Ok (code, Some whole), st') →
       Mod.isRootEntry mod_ && negb (Mod.isPreload mod_)
         && negb (bool_decide (loader = Some false)) = true
       ↔ ∃ ldr body,
           whole = createSourceNode "loader.js" ldr.1 ldr.2
                     :: body ++ [Chunk (import_statement (Mod.id mod_))]).
Proof.
  intros claim.
  pose (st := Demo.home true true false Js).
  pose (pkt := Demo.packet {[ "home.js" := 1; "home_dep.js" := 2 ]} [("home.js", 1)]).
  pose (mod_ := Demo.with_flags true true false (Demo.module_ "home.js" 0 [2])).
  pose (ldr := ("/* loader */porter.config("
                +:+ Node.stringify (JObj (map_to_list (Packet.loaderConfig pkt))) +:+ ")",
                @None RawMap)).
  pose (body := [@createSourceNode "components/home_dep.js"
                   (Node.define_module (Demo.module_ "home_dep.js" 0 [])) None;
                 @createSourceNode "components/home.js" (Node.define_module mod_) None]).
  pose (whole := @createSourceNode "loader.js" ldr.1 ldr.2
                   :: body ++ [Chunk (@import_statement Node.host (Mod.id mod_))]).
  destruct (claim Node.host st 0 (Demo.bundle 0 ["home.js"] Js) pkt None false
              (Some (toString whole)) whole (@obtain Node.host 0 None false st).2 mod_)
    as [_ Hback]; [reflexivity|reflexivity|reflexivity|discriminate|reflexivity| |].
  - by vm_compute.
  - by specialize (Hback (ex_intro _ ldr (ex_intro _ body eq_refl))).
Qed.

(** ** Builds and the cache *)

(** Once [obtain] has built the bundle, a later call returns the code and
    the map of that build and leaves the store as it is, whatever its
    [loader] and [minify] options: the [etag] stands for the entries alone,
    so that [minify()] after [obtain()] answers with the code that is not
    minified. *)
Theorem obtain_cached_whatever_options `{Host} (st : Store) (self : nat) (b : Bundle.t)
    (pkt : Packet.t) (loader loader' : option bool) (minify minify' : bool)
    (r : option string * option (list SourceNode)) (st1 : Store) :
  bundles st !! self = Some b →
  packets st !! Bundle.packet b = Some pkt →
  Bundle.p_etag b ≠ Some (etag_of (entries st pkt b)) →
  obtain self loader minify st = (Ok r, st1) →
  obtain self loader' minify' st1 = (Ok r, st1).
Proof.
  intros Hb Hp Hetag Hrun. destruct r as [code nodes].
  destruct (obtain_miss_final _ _ _ _ _ _ _ _ _ Hb Hp Hetag Hrun)
    as (bL & whole & _ & _ & Hbf & (Hcp & Hce & _) & Hpf & Hev).
  destruct Hev as (Hmod & _).
  unfold obtain, bind, this, packet_of, deref, gets, ret.
  rewrite Hbf. cbn [Bundle.packet with_cache]. rewrite Hcp, Hpf.
  rewrite (entries_agree st st1 pkt _ b _); [|done|done|by cbn].
  cbn [Bundle.p_etag with_cache]. by rewrite bool_decide_eq_true_2.
Qed.

Lemma obtain_cached_whatever_options_witness :
  let st := Demo.home true false false Js in
  let built := @obtain Node.host 0 None false st in
  ∃ r, built = (Ok r, built.2)
       ∧ @minify Node.host 0 (Some false) built.2 = (Ok r, built.2).
Proof.
  intros st built.
  destruct built as [[r|e] st1] eqn:Hrun; [|vm_compute in Hrun; discriminate].
  exists r. split; [done|].
  exact (@obtain_cached_whatever_options Node.host st 0 (Demo.bundle 0 ["home.js"] Js)
           (Demo.packet {[ "home.js" := 1; "home_dep.js" := 2 ]} [("home.js", 1)])
           None (Some false) false true r st1 eq_refl eq_refl ltac:(discriminate) Hrun).
Defined.

(** A call of [obtain] that throws leaves what the bundle holds of an
    earlier build: the code, the map, the [etag] and the content hash are
    assigned at the end of a build only, so that [contenthash] and [output]
    go on answering for the earlier build. (The cache of minified loaders
    is written sooner: [minifyLoader] files the answer of the minifier
    before [createSourceNode] reads it.) *)
Theorem obtain_failure_keeps_cache `{Host} (st : Store) (self : nat) (b : Bundle.t)
    (loader : option bool) (minify : bool) (e : Error) (st' : Store) :
  bundles st !! self = Some b →
  obtain self loader minify st = (Throw e, st') →
  ∃ b', bundles st' !! self = Some b'
        ∧ Bundle.p_code b' = Bundle.p_code b ∧ Bundle.p_map b' = Bundle.p_map b
        ∧ Bundle.p_etag b' = Bundle.p_etag b
        ∧ Bundle.p_contenthash b' = Bundle.p_contenthash b.
Proof.
  intros Hb Hrun.
  destruct (packets st !! Bundle.packet b) as [pkt|] eqn:Hp.
  - destruct (decide (Bundle.p_etag b = Some (etag_of (entries st pkt b)))) as [Hhit|Hmiss].
    + unfold obtain, bind, this, packet_of, deref, gets, ret in Hrun.
      rewrite Hb, Hp in Hrun. by rewrite bool_decide_eq_true_2 in Hrun.
    + destruct (obtain_miss_throw _ _ _ _ _ _ _ _ Hb Hp Hmiss Hrun)
        as ((bT & -> & HbT) & _).
      rewrite lookup_insert_eq. exists bT. split; [done|].
      by destruct HbT as [->|[c ->]].
  - unfold obtain, bind, this, packet_of, deref in Hrun. rewrite Hb, Hp in Hrun.
    injection Hrun as _ <-. by exists b.
Qed.

(** The minifier rejects the loader: the build throws once the answer is
    filed, and the code of the earlier build is still there. *)
Lemma obtain_failure_keeps_cache_witness :
  let b := with_cache (Some "/* earlier build */") None (Some "stale") None
             (Demo.bundle 0 ["home.js"] Js) in
  let st := set_bundle 0 b (Demo.home true false false Js) in
  ∃ st' b',
    @obtain Node.rejecting 0 None true st = (Throw (TypeError "code.split"), st')
    ∧ bundles st' !! 0 = Some b'
    ∧ Bundle.p_code b' = Some "/* earlier build */" ∧ Bundle.p_etag b' = Some "stale"
    ∧ Bundle.loaderCache b' ≠ Bundle.loaderCache b.
Proof.
  intros b st.
  destruct (@obtain Node.rejecting 0 None true st) as [[r|e] st'] eqn:Hrun;
    [vm_compute in Hrun; discriminate|].
  destruct (@obtain_failure_keeps_cache Node.rejecting st 0 b None true e st' eq_refl Hrun)
    as (b' & Hb' & Hcode & _ & Hetag & _).
  exists st', b'.
  assert (He : e = TypeError "code.split").
  { vm_compute in Hrun. by injection Hrun as <- _. }
  subst e. split; [done|]. split; [done|]. split; [done|]. split; [done|].
  assert (Hst' : st' = (@obtain Node.rejecting 0 None true st).2) by (by rewrite Hrun).
  intros Heq.
  assert (Hlook : Bundle.loaderCache b' !! @URLSearchParams_toString Node.rejecting
                    {[ "baseUrl" := JStr "/" ]} = None)
    by (by rewrite Heq).
  rewrite Hst' in Hb'. vm_compute in Hb'. injection Hb' as <-.
  by vm_compute in Hlook.
Defined.

(** A build whose primary entry is a root entry calls [pack()] on each
    packet of [packet.all] other than the packet of the bundle, in order,
    and does nothing else outside the object graph; a build of another
    entry does nothing there. *)
Theorem obtain_packs_dependencies `{Host} (st : Store) (self : nat) (b : Bundle.t)
    (pkt : Packet.t) (loader : option bool) (minify : bool)
    (r : option string * option (list SourceNode)) (st' : Store) :
  bundles st !! self = Some b →
  packets st !! Bundle.packet b = Some pkt →
  Bundle.p_etag b ≠ Some (etag_of (entries st pkt b)) →
  obtain self loader minify st = (Ok r, st') →
  ∃ mod_,
    file_at st pkt (default "undefined" (head (entries st pkt b))) = Some mod_
    ∧ effects st'
      = effects st
        ++ (if Mod.isRootEntry mod_
            then Pack <$> List.filter (fun dep => negb (bool_decide (dep = Bundle.packet b)))
                            (Packet.all pkt)
            else []).
Proof.
  intros Hb Hp Hetag Hrun.
  destruct (obtain_miss_stages _ _ _ _ _ _ _ _ Hb Hp Hetag Hrun)
    as (mod_ & st3 & bL & whole & Hfirst & _ & Heff & _ & _ & _ & _ & _ & _ & _ & _ & _ & ->).
  by exists mod_.
Qed.

Lemma obtain_packs_dependencies_witness :
  let st := Demo.home true false false Js in
  effects (@obtain Node.host 0 None false st).2 = [Pack 1].
Proof.
  intros st.
  destruct (@obtain Node.host 0 None false st) as [[r|e] st'] eqn:Hrun;
    [|vm_compute in Hrun; discriminate].
  destruct (@obtain_packs_dependencies Node.host st 0 (Demo.bundle 0 ["home.js"] Js)
              (Demo.packet {[ "home.js" := 1; "home_dep.js" := 2 ]} [("home.js", 1)])
              None false r st' eq_refl eq_refl ltac:(discriminate) Hrun)
    as (mod_ & Hfirst & Heff).
  injection Hfirst as <-. exact Heff.
Defined.

(** A build assigns the loader configuration of the bundle onto that of
    the packet, as [Object.assign] does, in the packet itself, which the
    other bundles of the packet share: whether the build ends well or
    throws, each property that the bundle sets has its value there, and
    the other properties are kept. *)
Theorem obtain_assigns_loaderConfig `{Host} (st : Store) (self : nat) (b : Bundle.t)
    (pkt : Packet.t) (loader : option bool) (minify : bool)
    (r : Result (option string * option (list SourceNode))) (st' : Store) :
  bundles st !! self = Some b →
  packets st !! Bundle.packet b = Some pkt →
  Bundle.p_etag b ≠ Some (etag_of (entries st pkt b)) →
  obtain self loader minify st = (r, st') →
  ∃ pkt', packets st' !! Bundle.packet b = Some pkt'
          ∧ same_packet pkt pkt'
          ∧ ∀ k, Packet.loaderConfig pkt' !! k
                 = match default ∅ (Bundle.loaderConfig b) !! k with
                   | Some v => Some v
                   | None => Packet.loaderConfig pkt !! k
                   end.
Proof.
  intros Hb Hp Hetag Hrun.
  exists (with_loaderConfig
            (Object_assign (Packet.loaderConfig pkt) (Bundle.loaderConfig b)) pkt).
  split.
  - destruct r as [r|e].
    + destruct r as [code nodes].
      by destruct (obtain_miss_final _ _ _ _ _ _ _ _ _ Hb Hp Hetag Hrun)
        as (_ & _ & _ & _ & _ & _ & ? & _).
    + destruct (obtain_miss_throw _ _ _ _ _ _ _ _ Hb Hp Hetag Hrun) as (_ & -> & _).
      by rewrite lookup_insert_eq.
  - split; [apply same_packet_with|].
    intros k. cbn. unfold Object_assign. rewrite lookup_union.
    by destruct (default ∅ (Bundle.loaderConfig b) !! k), (Packet.loaderConfig pkt !! k).
Qed.

Lemma obtain_assigns_loaderConfig_witness :
  ∃ pkt', packets (@obtain Node.host 0 None false Sample.configured).2 !! 0 = Some pkt'
          ∧ Packet.loaderConfig pkt' !! "baseUrl" = Some (JStr "/cdn/").
Proof.
  destruct (@obtain Node.host 0 None false Sample.configured) as [r st'] eqn:Hrun.
  destruct (@obtain_assigns_loaderConfig Node.host Sample.configured 0 Sample.overriding
              Sample.packet None false r st' eq_refl eq_refl ltac:(discriminate) Hrun)
    as (pkt' & Hpkt' & _ & Hcfg).
  exists pkt'. split; [exact Hpkt'|]. by rewrite (Hcfg "baseUrl").
Defined.

(** ** The text of a bundle *)

Lemma split_lines_aux_cons (cur s : string) :
  ∃ x rest, split_lines_aux cur s = x :: rest.
Proof.
  revert cur. induction s as [|c s IH]; intros cur; simpl; [by eauto|].
  case_bool_decide; [by eauto|]. apply IH.
Qed.

Lemma rev_app_app (a b t : string) :
  String.rev_app a b +:+ t = String.rev_app a (b +:+ t).
Proof.
  revert b. induction a as [|x a IH]; intros b; [done|].
  change (String.rev_app (String x a) b) with (String.rev_app a (String x b)).
  by rewrite IH.
Qed.

Lemma join_split_lines_aux (cur s : string) :
  join LF (split_lines_aux cur s) = String.rev_app cur s.
Proof.
  revert cur. induction s as [|c s IH]; intros cur; simpl; [done|].
  case_bool_decide as Hc.
  - specialize (IH ""). destruct (split_lines_aux_cons "" s) as (x & rest & Hs).
    rewrite Hs in IH |- *.
    change (join LF (String.rev cur :: x :: rest))
      with (String.rev cur +:+ LF +:+ join LF (x :: rest)).
    rewrite IH. subst c. unfold String.rev. by rewrite rev_app_app.
  - by rewrite IH.
Qed.

(** [code.split('\n')] joined by line feeds is [code]. *)
Lemma join_split_lines (s : string) : join LF (split_lines s) = s.
Proof. unfold split_lines. by rewrite join_split_lines_aux. Qed.

Lemma node_text_createSourceNode `{Host} (source code : string) (map : option RawMap) :
  node_text (createSourceNode source code map) = code.
Proof. destruct map; simpl; [done|]. apply join_split_lines. Qed.

(** The node that [createSourceNode] makes holds the code as it is: with a
    source map the code itself, without one its lines, one node a line,
    which joined by line feeds give the code back. *)
Theorem createSourceNode_keeps_code `{Host} (source code : string) (map : option RawMap) :
  node_text (createSourceNode source code map) = code
  ∧ (map = None →
     createSourceNode source code map = Lines source (split_lines code)
     ∧ join LF (split_lines code) = code).
Proof.
  split; [apply node_text_createSourceNode|].
  intros ->. split; [done|]. apply join_split_lines.
Qed.

Lemma add_modules_texts `{Host} (minify : bool) (root : string) (ms : list Mod.t)
    (nodes : list SourceNode) :
  add_modules minify root ms = Ok nodes →
  node_text <$> nodes = code_of minify <$> ms.
Proof.
  revert nodes. induction ms as [|m rest IH]; intros nodes; simpl.
  - by intros [= <-].
  - destruct (if minify then mod_minify m else mod_obtain m) as [[code map]|] eqn:Hm;
      [|done].
    destruct (add_modules minify root rest) as [nodes'|]; [|done].
    intros [= <-]. rewrite !fmap_cons, node_text_createSourceNode, (IH nodes' eq_refl).
    unfold code_of. by rewrite Hm.
Qed.

(** The code that a build returns is made of whole texts joined by line
    feeds: the code of the loader of the bundle, which is what the packet
    gives for the loader configuration, minified or not, when the primary
    entry is a root entry of a script bundle and the loader is not turned
    off; the lock statement, when that entry is no preload entry; the code
    of each module that the traversal yields, as [mod.obtain()] or
    [mod.minify()] gives it, in the order of the traversal; and the import
    statement, when the loader is there. *)
Theorem obtain_code_is_joined `{Host} (st : Store) (self : nat) (b : Bundle.t)
    (pkt : Packet.t) (loader : option bool) (minify : bool)
    (code : option string) (nodes : option (list SourceNode)) (st' : Store) :
  bundles st !! self = Some b →
  packets st !! Bundle.packet b = Some pkt →
  Bundle.p_etag b ≠ Some (etag_of (entries st pkt b)) →
  obtain self loader minify st = (Ok (code, nodes), st') →
  ∃ mod_ front,
    file_at st pkt (default "undefined" (head (entries st pkt b))) = Some mod_
    ∧ let cfg := Object_assign (Packet.loaderConfig pkt) (Bundle.loaderConfig b) in
      let with_loader := Mod.isRootEntry mod_ && negb (bool_decide (loader = Some false))
                         && bool_decide (Bundle.format b = Js) in
      let with_lock := Mod.isRootEntry mod_ && negb (Mod.isPreload mod_)
                       && bool_decide (Bundle.format b = Js) in
      let lock := if bool_decide (0 < length (App.preload (Packet.app pkt))) && Mod.fake mod_
                  then Mod.lock mod_ else Packet.lock pkt in
      (if with_loader
       then ∃ ldr map,
              loader_of b (with_loaderConfig cfg pkt) cfg minify = Ok (Some (ldr, map))
              ∧ front = [ldr]
       else front = [])
      ∧ code = Some (join LF (front
                              ++ (if with_lock then [lock_statement lock] else [])
                              ++ (code_of minify <$> (iterator st pkt b).1)
                              ++ (if with_loader then [import_statement (Mod.id mod_)]
                                  else []))).
Proof.
  intros Hb Hp Hetag Hrun.
  destruct (obtain_miss_stages _ _ _ _ _ _ _ _ Hb Hp Hetag Hrun)
    as (mod_ & st3 & bL & whole & Hfirst & (mods & front & Hmods & _ & Hfront & Hwhole)
        & _ & _ & _ & _ & _ & _ & _ & _ & _ & Hr & _).
  exists mod_, (node_text <$> front). split; [done|]. cbn zeta. split.
  - destruct (_ && _ && _); [|by rewrite Hfront].
    destruct Hfront as (lcode & lmap & Hl & ->). exists lcode, lmap.
    split; [done|]. simpl. by rewrite node_text_createSourceNode.
  - injection Hr as -> _. f_equal. unfold toString. f_equal.
    rewrite Hwhole, !fmap_app, (add_modules_texts _ _ _ _ Hmods).
    by repeat (destruct (_ && _ && _); simpl).
Qed.

Lemma obtain_code_is_joined_witness :
  let st := Demo.home true false false Js in
  let pkt := Demo.packet {[ "home.js" := 1; "home_dep.js" := 2 ]} [("home.js", 1)] in
  let home_dep := Demo.module_ "home_dep.js" 0 [] in
  let home := Demo.with_flags true false false (Demo.module_ "home.js" 0 [2]) in
  ∃ ldr nodes st',
    @parseLoader Node.host pkt (Packet.loaderConfig pkt) = Ok ldr
    ∧ @obtain Node.host 0 None false st
      = (Ok (Some (join LF [ldr; @lock_statement Node.host (Packet.lock pkt);
                            Node.define_module home_dep; Node.define_module home;
                            @import_statement Node.host "home.js"]), nodes), st').
Proof.
  intros st pkt home_dep home.
  destruct (@obtain Node.host 0 None false st) as [[[code nodes]|e] st'] eqn:Hrun;
    [|vm_compute in Hrun; discriminate].
  destruct (@obtain_code_is_joined Node.host st 0 (Demo.bundle 0 ["home.js"] Js) pkt
              None false code nodes st' eq_refl eq_refl ltac:(discriminate) Hrun)
    as (mod_ & front & Hfirst & Hfront & Hcode).
  injection Hfirst as <-.
  destruct Hfront as (ldr & map & Hl & ->).
  exists ldr, nodes, st'. split.
  - vm_compute in Hl. injection Hl as <- _. reflexivity.
  - rewrite Hcode. clear. by vm_compute.
Defined.

(** ** The content hash is never stale *)

Lemma hash_fresh_same `{Host} (self : nat) (st st' : Store) :
  bundles st' !! self = bundles st !! self → hash_fresh self st → hash_fresh self st'.
Proof. intros Heq Hf b h code Hb. rewrite Heq in Hb. by apply Hf. Qed.

Lemma hash_fresh_set `{Host} (self : nat) (b : Bundle.t) (st : Store) :
  (∀ h code, truthy (Bundle.p_contenthash b) = Some h →
             truthy (Bundle.p_code b) = Some code → h = substring 0 8 (md5_hex code)) →
  hash_fresh self (set_bundle self b st).
Proof.
  intros Hb b' h code. cbn. rewrite lookup_insert_eq. intros [= <-]. apply Hb.
Qed.

Lemma hash_fresh_contenthash `{Host} (self : nat) (st : Store) :
  hash_fresh self st → hash_fresh self (contenthash self st).2.
Proof.
  intros Hf. destruct (bundles st !! self) as [b|] eqn:Hb.
  - rewrite (contenthash_run _ _ _ Hb).
    destruct (truthy (Bundle.p_code b)) as [code|] eqn:Hcode; [|done].
    destruct (truthy (Bundle.p_contenthash b)) as [h|] eqn:Hh; [done|].
    apply hash_fresh_set. cbn. intros h' code' Hh' Hcode'.
    rewrite Hcode in Hcode'. injection Hcode' as <-.
    destruct (bool_decide (substring 0 8 (md5_hex code) = "")); congruence.
  - unfold contenthash, bind, this, deref. by rewrite Hb.
Qed.

Lemma output_state `{Host} (self : nat) (st : Store) :
  (output self st).2 = st ∨ (output self st).2 = (contenthash self st).2.
Proof.
  unfold output, bind, this, packet_of, deref, gets, ret, throw.
  destruct (bundles st !! self) as [b|]; [|by left].
  destruct (packets st !! Bundle.packet b) as [pkt|]; [|by left].
  destruct (entries st pkt b); [by left|].
  destruct (truthy (Bundle.p_code b)); [|by left].
  right. destruct (contenthash self st) as [[h|e] st1]; [|done].
  by destruct (entry pkt b).
Qed.

Lemma outputPath_state `{Host} (self : nat) (st : Store) :
  (outputPath self st).2 = (output self st).2.
Proof.
  unfold outputPath, bind, this, packet_of, deref, ret.
  destruct (output self st) as [[out|e] st1]; [|done]. simpl.
  destruct (bundles st1 !! self) as [b|]; [|done].
  by destruct (packets st1 !! Bundle.packet b).
Qed.

Lemma hash_fresh_outputPath `{Host} (self : nat) (st : Store) :
  hash_fresh self st → hash_fresh self (outputPath self st).2.
Proof.
  intros Hf. rewrite outputPath_state.
  destruct (output_state self st) as [->| ->]; [done|by apply hash_fresh_contenthash].
Qed.

Lemma hash_fresh_obtain `{Host} (self : nat) (loader : option bool) (minify : bool)
    (st : Store) :
  hash_fresh self st → hash_fresh self (obtain self loader minify st).2.
Proof.
  intros Hf.
  destruct (bundles st !! self) as [b|] eqn:Hb.
  2: { unfold obtain, bind, this, deref. by rewrite Hb. }
  destruct (packets st !! Bundle.packet b) as [pkt|] eqn:Hp.
  2: { unfold obtain, bind, this, packet_of, deref. by rewrite Hb, Hp. }
  destruct (decide (Bundle.p_etag b = Some (etag_of (entries st pkt b)))) as [Hhit|Hmiss].
  { unfold obtain, bind, this, packet_of, deref, gets, ret.
    rewrite Hb, Hp. by rewrite bool_decide_eq_true_2. }
  destruct (obtain self loader minify st) as [[[code nodes]|e] st'] eqn:Hrun; cbn [snd].
  - destruct (obtain_miss_final _ _ _ _ _ _ _ _ _ Hb Hp Hmiss Hrun)
      as (bL & whole & _ & _ & Hbf & _).
    intros b' h code' Hb'. rewrite Hbf in Hb'. by injection Hb' as <-.
  - destruct (obtain_miss_throw _ _ _ _ _ _ _ _ Hb Hp Hmiss Hrun)
      as ((bT & Hbs & HbT) & _).
    intros b' h code' Hb'. rewrite Hbs, lookup_insert_eq in Hb'. injection Hb' as <-.
    destruct HbT as [->|[c ->]]; exact (Hf b h code' Hb).
Qed.

Lemma hash_fresh__reload `{Host} (self target : nat) (st : Store) :
  hash_fresh self st → hash_fresh self (_reload target st).2.
Proof.
  intros Hf. destruct (decide (target = self)) as [->|Hne].
  2: { destruct (_reload target st) as [r st'] eqn:Hrun.
       apply framed__reload in Hrun as (_ & _ & _ & _ & Ho & _).
       eapply hash_fresh_same; [|done]. by apply Ho. }
  unfold _reload. unfold bind at 1, this at 1, deref.
  destruct (bundles st !! self) as [b|]; [|done].
  unfold bind at 1, packet_of, deref.
  destruct (packets st !! Bundle.packet b) as [pkt|]; [|done].
  unfold bind at 1.
  pose proof (hash_fresh_outputPath self st Hf) as Hf0.
  destruct (outputPath self st) as [[path|e] st0]; [|done]. cbn [snd] in Hf0.
  case_bool_decide; [done|].
  unfold bind at 1, modify at 1. unfold bind at 1, this, deref. cbn [bundles perform].
  destruct (bundles st0 !! self) as [b0|] eqn:Hb0; [|done].
  unfold bind at 1, modify at 1.
  set (st1 := set_bundle self _ _).
  assert (Hf1 : hash_fresh self st1) by (by apply hash_fresh_set).
  pose proof (hash_fresh_obtain self None false st1 Hf1) as Hf2.
  unfold bind, ret. by destruct (obtain self None false st1) as [[r|e] st2].
Qed.

Lemma hash_fresh_advance `{Host} (self : nat) (t : Z) (st : Store) :
  hash_fresh self st → hash_fresh self (advance t st).2.
Proof.
  intros Hf. unfold advance.
  assert (Hrun : ∀ fuel st0, hash_fresh self st0 →
            hash_fresh self (run_timers fuel t st0).2).
  { induction fuel as [|fuel IH]; intros st0 Hf0; simpl; [done|].
    destruct (next_due t (timers st0)) as [x|]; [|done].
    specialize (IH (fire x st0)).
    destruct (run_timers fuel t (fire x st0)) as [ran st']. apply IH.
    unfold fire. by apply hash_fresh__reload. }
  specialize (Hrun (length (timers st)) st Hf).
  by destruct (run_timers _ t st) as [ran st'].
Qed.

Lemma hash_fresh_call `{Host} (self : nat) (c : Call) (st : Store) :
  hash_fresh self st → hash_fresh self (call self c st).
Proof.
  intros Hf. destruct c as [loader minify|loader| | | | |files|t]; simpl.
  - by apply hash_fresh_obtain.
  - by apply hash_fresh_obtain.
  - unfold reload, bind, this, deref, gets, modify, ret.
    destruct (bundles st !! self) as [b|] eqn:Hb; [|done].
    destruct (Bundle.p_reloading b); apply hash_fresh_set; intros h code;
      exact (Hf b h code Hb).
  - by apply hash_fresh_contenthash.
  - destruct (output_state self st) as [->| ->]; [done|by apply hash_fresh_contenthash].
  - by apply hash_fresh_outputPath.
  - unfold set_entries, bind, this, deref, modify.
    destruct (bundles st !! self) as [b|] eqn:Hb; [|done].
    apply hash_fresh_set. intros h code. exact (Hf b h code Hb).
  - by apply hash_fresh_advance.
Qed.

(** Whatever methods of a bundle are called, in whatever order, and
    whatever time passes in between, the content hash that the bundle holds
    is never that of an earlier code: after the calls, [contenthash] is the
    first 8 characters of the md5 digest of the code that the bundle holds
    then, or the empty string when it holds none. *)
Theorem contenthash_never_stale `{Host} (self : nat) (cs : list Call) (st : Store) :
  hash_fresh self st →
  hash_fresh self (calls self cs st)
  ∧ ∀ b, bundles (calls self cs st) !! self = Some b →
         (contenthash self (calls self cs st)).1
         = Ok (match truthy (Bundle.p_code b) with
               | Some code => substring 0 8 (md5_hex code)
               | None => ""
               end).
Proof.
  intros Hf.
  assert (Hfinal : hash_fresh self (calls self cs st)).
  { unfold calls. revert st Hf. induction cs as [|c cs IH]; intros st Hf; simpl; [done|].
    apply IH. by apply hash_fresh_call. }
  split; [done|]. intros b Hb. rewrite (contenthash_run _ _ _ Hb).
  destruct (truthy (Bundle.p_code b)) as [code|] eqn:Hcode; [|done].
  destruct (truthy (Bundle.p_contenthash b)) as [h|] eqn:Hh; [|done].
  cbn. f_equal. by eapply Hfinal.
Qed.

Lemma contenthash_never_stale_witness :
  let st := Demo.home true false false Js in
  let cs := [CallObtain None false; CallContenthash; CallSetEntries ["home_dep.js"];
             CallObtain None true; CallOutputPath; CallReload; Tick 500; CallOutput] in
  @hash_fresh Node.host 0 (@calls Node.host 0 cs st).
Proof.
  intros st cs.
  refine (proj1 (@contenthash_never_stale Node.host 0 cs st _)).
  intros b h code Hb Hh. vm_compute in Hb. injection Hb as <-. discriminate Hh.
Defined.

(** ** Calls of [reload()] and their timers *)

Lemma run_timers_now `{Host} (t : Z) (fuel : nat) (st : Store) :
  (now st ≤ now (run_timers fuel t st).2 ≤ Z.max (now st) t)%Z.
Proof.
  revert st. induction fuel as [|fuel IH]; intros st; simpl; [lia|].
  destruct (next_due t (timers st)) as [x|] eqn:Hnext; [|simpl; lia].
  destruct (next_due_spec _ _ _ Hnext) as [_ Hdue].
  destruct (fire_spec x st) as (_ & _ & Hnow & _).
  specialize (IH (fire x st)).
  destruct (run_timers fuel t (fire x st)) as [ran st']. simpl in *. lia.
Qed.

Lemma advance_now `{Host} (t : Z) (st : Store) :
  now (advance t st).2 = Z.max (now st) t.
Proof.
  unfold advance. pose proof (run_timers_now t (length (timers st)) st) as Hn.
  destruct (run_timers _ t st) as [ran st']. simpl in *. lia.
Qed.

(** Whatever the state of the timer of [self], time passing leaves it
    idle or pending. *)
Lemma advance_settled `{Host} (self : nat) (t : Z) (st : Store) :
  idle self st ∨ (∃ h d, pending self h d st) →
  idle self (advance t st).2 ∨ ∃ h d, pending self h d (advance t st).2.
Proof.
  intros [Hi|(h & d & Hp)].
  - pose proof (advance_idle self t st Hi) as Ha.
    destruct (advance t st) as [ran st']. left. by destruct Ha.
  - destruct (decide (t < d)%Z) as [Hlt|Hge].
    + pose proof (advance_pending self h d t st Hp Hlt) as Ha.
      destruct (advance t st) as [ran st']. right. exists h, d. by destruct Ha.
    + pose proof (advance_fires self h d t st Hp ltac:(lia)) as Ha.
      destruct (advance t st) as [ran st']. left. by destruct Ha.
Qed.

(** However the calls of [reload()] on a bundle are timed, after the last
    of them exactly one timer is pending for the bundle: it is due 100 ms
    after that call, [#reloading] holds its handle, and the timer of every
    earlier call has run or has been cleared. *)
Theorem reload_leaves_one_timer `{Host} (self : nat) (t : Z) (ts : list Z) (st : Store) :
  idle self st ∨ (∃ h d, pending self h d st) →
  ∃ h, pending self h (now (reload_at (t :: ts) self st).2 + 100)
         (reload_at (t :: ts) self st).2.
Proof.
  revert t st. induction ts as [|t' rest IH]; intros t st Hst.
  - cbn [reload_at].
    pose proof (advance_settled self t st Hst) as Hs1.
    destruct (advance t st) as [ran s1]. cbn [snd] in Hs1.
    destruct (reload_pending self s1 Hs1) as [Hp Hnow].
    cbn [snd]. rewrite Hnow. eauto.
  - change (reload_at (t :: t' :: rest) self st)
      with (let '(ran, st1) := advance t st in
            let st2 := (reload self st1).2 in
            let '(ran', st3) := reload_at (t' :: rest) self st2 in (ran ++ ran', st3)).
    pose proof (advance_settled self t st Hst) as Hs1.
    destruct (advance t st) as [ran s1]. cbn [snd] in Hs1.
    destruct (reload_pending self s1 Hs1) as [Hp Hnow].
    specialize (IH t' (reload self s1).2 ltac:(right; eauto)).
    cbn zeta. by destruct (reload_at (t' :: rest) self (reload self s1).2) as [ran' st3].
Qed.

Lemma demo_home_idle : idle 0 (Demo.home true false false Js).
Proof.
  split; [|split].
  - split; [constructor|]. intros x Hx. by apply elem_of_nil in Hx.
  - intros x Hx. by apply elem_of_nil in Hx.
  - by eexists.
Qed.

Lemma reload_leaves_one_timer_witness :
  let st' := (@reload_at Node.host [0; 250; 40]%Z 0 (Demo.home true false false Js)).2 in
  ∃ h, pending 0 h (now st' + 100) st'.
Proof.
  intros st'.
  exact (@reload_leaves_one_timer Node.host 0 0%Z [250; 40]%Z
           (Demo.home true false false Js) (or_introl demo_home_idle)).
Defined.

Lemma reload_at_spaced `{Host} (self : nat) (lo : Z) (ts : list Z) (st : Store) (k : nat) :
  (k = 0 ∧ idle self st) ∨ (k = 1 ∧ ∃ h d, pending self h d st ∧ (d ≤ lo)%Z) →
  (now st ≤ lo)%Z → spaced lo ts → ts ≠ [] →
  reloads self (reload_at ts self st).1 + 1 = k + length ts
  ∧ ∃ h, pending self h (now (reload_at ts self st).2 + 100) (reload_at ts self st).2.
Proof.
  revert lo st k. induction ts as [|t rest IH]; intros lo st k Hst Hnow Hsp Hne; [done|].
  destruct Hsp as [Hlo Hsp].
  cbn [reload_at].
  assert (Hadv : idle self (advance t st).2 ∧ reloads self (advance t st).1 = k).
  { destruct Hst as [[-> Hi]|[-> (h & d & Hp & Hd)]].
    - pose proof (advance_idle self t st Hi) as Ha.
      destruct (advance t st) as [ran s1]. by destruct Ha as (? & ? & _).
    - pose proof (advance_fires self h d t st Hp ltac:(lia)) as Ha.
      by destruct (advance t st) as [ran s1]. }
  pose proof (advance_now t st) as Hn1.
  destruct (advance t st) as [ran1 s1]. cbn [fst snd] in Hadv, Hn1.
  destruct Hadv as [Hi1 Hr1].
  destruct (reload_pending self s1 (or_introl Hi1)) as [Hp2 Hn2].
  destruct rest as [|t' rest'].
  - cbn [reload_at fst snd]. rewrite app_nil_r, Hn2. split; [simpl; lia|eauto].
  - destruct (IH (t + 100)%Z (reload self s1).2 1) as [Hcount Hpend];
      [right; split; [done|]; eexists _, _; split; [exact Hp2|lia]|lia|done|done|].
    destruct (reload_at (t' :: rest') self (reload self s1).2) as [ran' st3].
    cbn [fst snd] in *. split; [|done].
    rewrite reloads_app. simpl in *. lia.
Qed.

(** Calls of [reload()] that come 100 ms or more apart are not collapsed:
    on a bundle with no timer pending, each call ends in an execution of
    [_reload()] of its own, once 100 ms have passed since the last. *)
Theorem reload_spaced_calls_each_run `{Host} (self : nat) (st : Store) (t1 : Z)
    (rest : list Z) (T : Z) :
  idle self st →
  (now st ≤ t1)%Z →
  spaced t1 (t1 :: rest) →
  (now (reload_at (t1 :: rest) self st).2 + 100 ≤ T)%Z →
  reloads self ((reload_at (t1 :: rest) self st).1
                ++ (advance T (reload_at (t1 :: rest) self st).2).1)
  = length (t1 :: rest).
Proof.
  intros Hidle Hnow Hsp HT.
  destruct (reload_at_spaced self t1 (t1 :: rest) st 0) as [Hcount [h Hp]];
    [by left|done|done|done|].
  pose proof (advance_fires self h _ T _ Hp HT) as Hlast.
  destruct (advance T _) as [ran' st2]. destruct Hlast as [_ Hran'].
  rewrite reloads_app. cbn [fst]. lia.
Qed.

Lemma reload_spaced_calls_each_run_witness :
  let st := Demo.home true false false Js in
  let burst := @reload_at Node.host [0; 100; 250]%Z 0 st in
  reloads 0 (burst.1 ++ (@advance Node.host 400 burst.2).1) = 3.
Proof.
  intros st burst.
  apply (@reload_spaced_calls_each_run Node.host 0 st 0%Z [100; 250]%Z 400%Z).
  - exact demo_home_idle.
  - apply Z.leb_le. reflexivity.
  - simpl. lia.
  - apply Z.leb_le. by vm_compute.
Defined.

(** ** [Bundle.create] and [Bundle.wrap] *)

(** What [create] does: it answers with the bundle filed under the key, or
    files a new bundle under a free key. *)
Lemma create_run `{Host} (options : Options) (st : Store) (p : Packet.t) (key : string) :
  packets st !! o_packet options = Some p →
  bundle_key (default_format options) (getEntry p (o_entries options)) = Ok key →
  create options st
  = match Packet.bundles p !! key with
    | Some r => (Ok r, st)
    | None =>
        let r := fresh (dom (bundles st)) in
        (Ok r,
         set_packet (o_packet options) (with_bundles (<[key := r]> (Packet.bundles p)) p)
           (set_bundle r (new_Bundle p options (default_format options)) st))
    end.
Proof.
  intros Hp Hkey. unfold create, bind, deref, gets, modify, lift, ret.
  rewrite Hp, Hkey. by destruct (Packet.bundles p !! key).
Qed.

(** [create] throws only for want of a packet, or of an entry to name a
    stylesheet bundle after; and when it throws it has changed nothing. *)
Theorem create_throws_only_without_entry `{Host} (options : Options) (st : Store) :
  ((∃ r st', create options st = (Ok r, st'))
   ↔ ∃ p, packets st !! o_packet options = Some p
          ∧ (default_format options = Css →
             is_Some (getEntry p (o_entries options))))
  ∧ ∀ e st', create options st = (Throw e, st') → st' = st.
Proof.
  unfold create, bind, deref, gets, modify, lift, ret. split; [split|].
  - intros (r & st' & Hrun).
    destruct (packets st !! o_packet options) as [p|]; [|done].
    exists p. split; [done|]. intros Hcss. rewrite Hcss in Hrun.
    by destruct (getEntry p (o_entries options)).
  - intros (p & -> & Hentry).
    destruct (bundle_key _ _) as [key|e] eqn:Hkey.
    + destruct (Packet.bundles p !! key); by eauto.
    + exfalso. unfold bundle_key in Hkey.
      destruct (default_format options) eqn:Hf.
      1,2: by destruct (getEntry _ _).
      destruct (Hentry eq_refl) as [x Hx]. by rewrite Hx in Hkey.
  - intros e st'. destruct (packets st !! o_packet options) as [p|]; [|by intros [= _ <-]].
    destruct (bundle_key _ _) as [key|]; [|by intros [= _ <-]].
    by destruct (Packet.bundles p !! key).
Qed.

(** [entry.replace(rExt, repl)]: the extension of [entry], a dot and word
    characters at its end, is replaced by [repl]; an entry with no
    extension has [repl] appended. *)
Theorem replace_rExt_spec (s repl : string) :
  (∃ stem ext, s = stem +:+ ext ∧ is_dot_word ext = true
               ∧ replace_rExt s repl = stem +:+ repl)
  ∨ ((∀ stem ext, s = stem +:+ ext → is_dot_word ext = false)
     ∧ replace_rExt s repl = s +:+ repl).
Proof.
  induction s as [|c r IH].
  - right. split; [|done]. intros [|d stem] ext; [|done].
    change ("" +:+ ext) with ext. by intros <-.
  - destruct (is_dot_word (String c r)) eqn:Hdot.
    + left. exists "", (String c r). split; [done|]. split; [done|].
      cbn [replace_rExt]. by rewrite Hdot.
    + cbn [replace_rExt]. rewrite Hdot.
      destruct IH as [(stem & ext & -> & Hext & ->)|[Hnone ->]].
      * left. exists (String c stem), ext. by repeat split.
      * right. split; [|done]. intros [|d stem] ext.
        -- change ("" +:+ ext) with ext. by intros <-.
        -- change (String d stem +:+ ext) with (String d (stem +:+ ext)).
           intros [= <- Hr]. by eapply Hnone.
Qed.

(** The stylesheet bundles of two entries that differ in their extension
    only are one bundle: [create] files a stylesheet bundle under its entry
    with the extension replaced by [.css], so that the stylesheet bundle of
    [home.js] is answered for [home.css] too, its entries left as they
    are. *)
Theorem create_css_shares_key `{Host} (o1 o2 : Options) (st st1 : Store) (p : Packet.t)
    (stem ext1 ext2 : string) (r : nat) :
  packets st !! o_packet o1 = Some p →
  o_packet o2 = o_packet o1 →
  default_format o1 = Css → default_format o2 = Css →
  getEntry p (o_entries o1) = Some (stem +:+ ext1) →
  getEntry p (o_entries o2) = Some (stem +:+ ext2) →
  is_dot_word ext1 = true → is_dot_word ext2 = true →
  create o1 st = (Ok r, st1) →
  create o2 st1 = (Ok r, st1).
Proof.
  intros Hp Hsame Hf1 Hf2 He1 He2 Hx1 Hx2.
  rewrite (create_run o1 st p (stem +:+ ".css") Hp)
    by (by rewrite Hf1, He1; simpl; rewrite replace_rExt_ext).
  destruct (Packet.bundles p !! (stem +:+ ".css")) as [r0|] eqn:Hk.
  - intros [= <- <-].
    rewrite (create_run o2 st p (stem +:+ ".css"))
      by (by rewrite ?Hsame, ?Hf2, ?He2; simpl; rewrite ?replace_rExt_ext).
    by rewrite Hk.
  - cbn zeta. intros [= <- <-].
    rewrite (create_run o2 _ (with_bundles (<[stem +:+ ".css" := fresh (dom (bundles st))]>
                                              (Packet.bundles p)) p) (stem +:+ ".css")).
    + cbn. by rewrite lookup_insert_eq.
    + rewrite Hsame. cbn. by rewrite lookup_insert_eq.
    + rewrite Hf2.
      assert (Hentry : getEntry (with_bundles (<[stem +:+ ".css" := fresh (dom (bundles st))]>
                                                 (Packet.bundles p)) p) (o_entries o2)
                       = getEntry p (o_entries o2)) by done.
      rewrite Hentry, He2. simpl. by rewrite replace_rExt_ext.
Qed.

Lemma create_css_shares_key_witness :
  let o1 := css_options 0 ["home.js"] in
  let o2 := {| o_packet := 0; o_entries := Some ["home.css"]; o_loaderConfig := None;
               o_format := None; o_all := false; o_package := None |} in
  let st1 := (@create Node.host o1 Sample.store).2 in
  @create Node.host o1 Sample.store = (Ok 2, st1)
  ∧ @create Node.host o2 st1 = (Ok 2, st1).
Proof.
  intros o1 o2 st1.
  assert (Hfirst : @create Node.host o1 Sample.store = (Ok 2, st1)) by (by vm_compute).
  split; [exact Hfirst|].
  exact (@create_css_shares_key Node.host o1 o2 Sample.store st1 Sample.packet
           "home" ".js" ".css" 2 eq_refl eq_refl eq_refl eq_refl eq_refl eq_refl
           eq_refl eq_refl Hfirst).
Defined.

Lemma create_inv `{Host} (options : Options) (st sa : Store) (r : nat) :
  create options st = (Ok r, sa) →
  ∃ p key,
    packets st !! o_packet options = Some p
    ∧ bundle_key (default_format options) (getEntry p (o_entries options)) = Ok key
    ∧ ((Packet.bundles p !! key = Some r ∧ sa = st)
       ∨ (Packet.bundles p !! key = None ∧ bundles st !! r = None
          ∧ sa = set_packet (o_packet options)
                   (with_bundles (<[key := r]> (Packet.bundles p)) p)
                   (set_bundle r (new_Bundle p options (default_format options)) st))).
Proof.
  intros Hrun.
  destruct (packets st !! o_packet options) as [p|] eqn:Hp.
  2: { unfold create, bind, deref in Hrun. by rewrite Hp in Hrun. }
  destruct (bundle_key (default_format options) (getEntry p (o_entries options)))
    as [key|e] eqn:Hkey.
  2: { unfold create, bind, deref, lift in Hrun. by rewrite Hp, Hkey in Hrun. }
  rewrite (create_run options st p key Hp Hkey) in Hrun.
  exists p, key. split; [done|]. split; [done|].
  destruct (Packet.bundles p !! key) as [r0|].
  - injection Hrun as <- <-. by left.
  - cbn zeta in Hrun. injection Hrun as <- <-. right.
    split; [done|]. split; [apply fresh_bundle|done].
Qed.

Lemma create_found `{Host} (options : Options) (st : Store) (p : Packet.t) (key : string)
    (r : nat) :
  packets st !! o_packet options = Some p →
  bundle_key (default_format options) (getEntry p (o_entries options)) = Ok key →
  Packet.bundles p !! key = Some r →
  create options st = (Ok r, st).
Proof. intros Hp Hkey Hr. rewrite (create_run options st p key Hp Hkey). by rewrite Hr. Qed.

Lemma set_bundle_again (r : nat) (b : Bundle.t) (st : Store) :
  bundles st !! r = Some b → set_bundle r b st = st.
Proof.
  intros Hb. destruct st. unfold set_bundle. cbn in *. f_equal. by apply insert_id.
Qed.

Lemma with_entries_again (es : option (list string)) (b : Bundle.t) :
  with_entries es (with_entries es b) = with_entries es b.
Proof. done. Qed.

Lemma create_effect `{Host} (options : Options) (st sa : Store) (r : nat) :
  create options st = (Ok r, sa) →
  ∃ p key pa,
    packets st !! o_packet options = Some p
    ∧ bundle_key (default_format options) (getEntry p (o_entries options)) = Ok key
    ∧ packets sa !! o_packet options = Some pa
    ∧ Packet.bundles pa !! key = Some r
    ∧ pa = with_bundles (Packet.bundles pa) p
    ∧ (∀ k x, Packet.bundles p !! k = Some x → Packet.bundles pa !! k = Some x)
    ∧ modules sa = modules st
    ∧ (∀ x bx, bundles st !! x = Some bx → bundles sa !! x = Some bx)
    ∧ (sa = st ∨ bundles st !! r = None).
Proof.
  intros Hrun.
  destruct (create_inv _ _ _ _ Hrun) as (p & key & Hp & Hkey & [[Hr ->]|(Hfree & Hnew & ->)]).
  - exists p, key, p. repeat split; try done; [by destruct p|by left].
  - exists p, key, (with_bundles (<[key := r]> (Packet.bundles p)) p).
    split; [done|]. split; [done|]. split; [cbn; apply lookup_insert_eq|].
    split; [cbn; apply lookup_insert_eq|]. split; [done|]. split.
    { intros k x Hk. cbn. rewrite lookup_insert_ne; [done|]. congruence. }
    split; [done|]. split; [|by right].
    intros x bx Hx. cbn. rewrite lookup_insert_ne; [done|]. congruence.
Qed.

(** C10. [Bundle.create] files one bundle under a key and answers with it
    ever after. When it returns, the bundle it returns is filed in
    [packet.bundles] under the key of the options: it is the bundle that
    was filed there before the call, and then the store is left as it is,
    or the key was free and it is a bundle that did not exist before the
    call, made from the options; where what [packet.bundles] holds are
    bundles, it is a bundle. A later call for the same packet and the
    same entries that settles on the same format, whatever its other
    options, returns the same bundle and changes nothing. And no call
    replaces a bundle: a key that holds a bundle holds the same bundle
    afterwards, and the bundles that exist are left as they are. *)
Theorem create_idempotent `{Host} (o1 o2 : Options) (st st1 : Store) (r : nat) :
  create o1 st = (Ok r, st1) →
  ∃ p key p1,
    packets st !! o_packet o1 = Some p
    ∧ bundle_key (default_format o1) (getEntry p (o_entries o1)) = Ok key
    ∧ packets st1 !! o_packet o1 = Some p1
    ∧ Packet.bundles p1 !! key = Some r
    ∧ ((Packet.bundles p !! key = Some r ∧ st1 = st)
       ∨ (Packet.bundles p !! key = None ∧ bundles st !! r = None
          ∧ bundles st1 !! r = Some (new_Bundle p o1 (default_format o1))))
    ∧ ((∀ k x, Packet.bundles p !! k = Some x → is_Some (bundles st !! x)) →
       is_Some (bundles st1 !! r))
    ∧ (o_packet o2 = o_packet o1 → o_entries o2 = o_entries o1 →
       default_format o2 = default_format o1 →
       create o2 st1 = (Ok r, st1))
    ∧ (∀ k old, Packet.bundles p !! k = Some old → Packet.bundles p1 !! k = Some old)
    ∧ (∀ x bx, bundles st !! x = Some bx → bundles st1 !! x = Some bx).
Proof.
  intros Hrun.
  destruct (create_inv _ _ _ _ Hrun) as (p & key & Hp & Hkey & Hcase).
  exists p, key.
  destruct Hcase as [[Hr ->]|(Hfree & Hnew & ->)].
  - exists p. split; [done|]. split; [done|]. split; [done|]. split; [done|].
    split; [by left|]. split; [by eauto|]. split; [|by split].
    intros Hpk Hes Hf.
    apply (create_found o2 st p key r); [by rewrite Hpk|by rewrite Hf, Hes|done].
  - set (p1 := with_bundles (<[key := r]> (Packet.bundles p)) p).
    exists p1. split; [done|]. split; [done|].
    split; [cbn; apply lookup_insert_eq|]. split; [cbn; apply lookup_insert_eq|].
    split.
    { right. split; [done|]. split; [done|]. cbn. apply lookup_insert_eq. }
    split; [intros _; cbn; rewrite lookup_insert_eq; by eauto|].
    split; [|split].
    + intros Hpk Hes Hf. apply (create_found o2 _ p1 key r).
      * rewrite Hpk. cbn. apply lookup_insert_eq.
      * rewrite Hf, Hes. exact Hkey.
      * cbn. apply lookup_insert_eq.
    + intros k old Hk. cbn. rewrite lookup_insert_ne; [done|]. congruence.
    + intros x bx Hx. cbn. rewrite lookup_insert_ne; [done|]. congruence.
Qed.

(** Two calls for [home.js] in the packet of the application, the second
    with other options but for the packet, the entries and the format: one
    bundle, made by the first call. *)
Lemma create_idempotent_witness :
  let o1 := {| o_packet := 0; o_entries := Some ["home.js"]; o_loaderConfig := None;
               o_format := None; o_all := false; o_package := None |} in
  let o2 := {| o_packet := 0; o_entries := Some ["home.js"];
               o_loaderConfig := Some {[ "baseUrl" := JStr "/cdn/" ]};
               o_format := Some Js; o_all := true; o_package := Some false |} in
  let st := Demo.home true false false Js in
  let st1 := (@create Node.host o1 st).2 in
  @create Node.host o1 st = (Ok 1, st1)
  ∧ bundles st !! 1 = None
  ∧ bundles st1 !! 1 = Some (new_Bundle
                               (Demo.packet {[ "home.js" := 1; "home_dep.js" := 2 ]}
                                  [("home.js", 1)]) o1 Js)
  ∧ @create Node.host o2 st1 = (Ok 1, st1).
Proof.
  intros o1 o2 st st1.
  assert (Hfirst : @create Node.host o1 st = (Ok 1, st1)) by (by vm_compute).
  destruct (@create_idempotent Node.host o1 o2 st st1 1 Hfirst)
    as (p & key & p1 & Hp & _ & _ & _ & Hcase & _ & Hagain & _).
  injection Hp as <-.
  split; [exact Hfirst|]. split; [reflexivity|]. split.
  - destruct Hcase as [[Hfiled _]|(_ & _ & Hnew)]; [discriminate Hfiled|exact Hnew].
  - by apply Hagain.
Defined.

Section WrapProps.
Context `{Host}.
Variable family : gmap nat Mod.t → Mod.t → option (list Mod.t).

Local Abbreviation stylesheet := (fun m : Mod.t =>
  includes (extMap Css) (extname (Mod.file m))).

(** [Bundle.wrap] called again with the same options returns the same
    bundles, the identical objects, and changes nothing: no bundle is made
    twice, and the entries that the first call gave the stylesheet bundle
    stay. *)
Theorem wrap_idempotent (options : Options) (st st1 : Store) (rs : list nat) :
  wrap family options st = (Ok rs, st1) →
  wrap family options st1 = (Ok rs, st1).
Proof.
  intros Hrun. unfold wrap in Hrun.
  inv_bind Hrun r sa Hc.
  destruct (create_effect _ _ _ _ Hc)
    as (p & key & pa & Hp & Hkey & Hpa & Hfiled & Hpa_eq & Hkeep & Hmod & Hbs & Hfresh).
  assert (Hkey_a : bundle_key (default_format options) (getEntry pa (o_entries options))
                   = Ok key) by (by rewrite Hpa_eq).
  inv_bind Hrun b s Hb. unfold deref in Hb.
  destruct (bundles sa !! r) as [b0|] eqn:Hr; [|done]. injection Hb as -> <-.
  case_bool_decide as Hcss.
  { injection Hrun as <- <-. unfold wrap, bind, deref, ret.
    rewrite (create_found options sa pa key r Hpa Hkey_a Hfiled), Hr.
    by rewrite bool_decide_eq_true_2. }
  inv_bind Hrun pa' s Hpa'. unfold deref in Hpa'. rewrite Hpa in Hpa'.
  injection Hpa' as <- <-.
  destruct (o_entries options) as [es|] eqn:Hes; [|done].
  rewrite <- Hes in Hkey, Hkey_a.
  inv_bind Hrun ent s He. injection He as <- <-.
  destruct (file_at sa pa _) as [ent|] eqn:Hentry; [|done].
  inv_bind Hrun members s Hm. injection Hm as <- <-.
  destruct (family (modules sa) ent) as [members|] eqn:Hmembers; [|done].
  destruct (existsb _ members) eqn:Hfound.
  2: { injection Hrun as <- <-. unfold wrap, bind, deref, gets, ret, throw.
       rewrite (create_found options sa pa key r Hpa Hkey_a Hfiled), Hr.
       rewrite bool_decide_eq_false_2 by done.
       by rewrite Hpa, Hes, Hentry, Hmembers, Hfound. }
  inv_bind Hrun c sb Hcc.
  destruct (create_effect _ _ _ _ Hcc)
    as (pa2 & kcss & pb & Hpa2 & Hkcss & Hpb & Hfiled_c & Hpb_eq & Hkeep_c & Hmod_c & Hbs_c
        & Hfresh_c).
  cbn [o_packet css_options] in Hpa2, Hpb. rewrite Hpa in Hpa2. injection Hpa2 as <-.
  inv_bind Hrun u s3 Hset. injection Hrun as <- <-.
  unfold set_entries, bind, this, deref, modify in Hset.
  destruct (bundles sb !! c) as [bc|] eqn:Hbc; [|done]. injection Hset as _ <-.
  (* the store after the first call *)
  set (s3 := set_bundle c (with_entries (Some es) bc) sb).
  assert (Hpc : packets s3 !! o_packet options = Some pb) by done.
  assert (Hkey_c : bundle_key (default_format options) (getEntry pb (o_entries options))
                   = Ok key) by (by rewrite Hpb_eq).
  assert (Hrc : ∃ b', bundles s3 !! r = Some b' ∧ Bundle.format b' = Bundle.format b).
  { subst s3. cbn. destruct (decide (c = r)) as [->|Hne].
    - rewrite lookup_insert_eq. eexists. split; [done|]. cbn.
      destruct Hfresh_c as [->|Hnone]; [|congruence]. congruence.
    - rewrite lookup_insert_ne by done. exists b. split; [by apply Hbs_c|done]. }
  destruct Hrc as (b' & Hb' & Hfmt).
  unfold wrap, bind, deref, gets, ret, throw.
  rewrite (create_found options s3 pb key r Hpc Hkey_c (Hkeep_c _ _ Hfiled)), Hb'.
  rewrite bool_decide_eq_false_2 by congruence.
  rewrite Hpc, Hes.
  assert (Hentry_c : file_at s3 pb (default "undefined" (head es)) = Some ent).
  { rewrite <- Hentry. unfold file_at. rewrite Hpb_eq. cbn. by rewrite Hmod_c. }
  rewrite Hentry_c.
  assert (Hmod_sc : modules s3 = modules sa) by (by cbn).
  rewrite Hmod_sc, Hmembers, Hfound.
  rewrite (create_found (css_options (o_packet options) es) s3 pb kcss c);
    [|done|by rewrite Hpb_eq|done].
  unfold set_entries, bind, this, deref, modify.
  assert (Hc_sc : bundles s3 !! c = Some (with_entries (Some es) bc))
    by (cbn; apply lookup_insert_eq).
  rewrite Hc_sc, with_entries_again. by rewrite set_bundle_again.
Qed.

(** [Bundle.wrap] returns the bundle that [create] answers for the
    options, alone when that is a stylesheet bundle or when no module of
    the family of the first entry is a stylesheet, and otherwise followed
    by the stylesheet bundle: the one filed in the packet under the entry
    with its extension replaced by [.css], whose entries are those of the
    options once [wrap] returns, also when the bundle was there before with
    other entries. *)
Theorem wrap_stylesheet_bundle (options : Options) (st st1 : Store) (rs : list nat) :
  wrap family options st = (Ok rs, st1) →
  ∃ r sa b,
    create options st = (Ok r, sa) ∧ bundles sa !! r = Some b
    ∧ if bool_decide (Bundle.format b = Css) then rs = [r] ∧ st1 = sa
      else
        ∃ es pa ent members,
          o_entries options = Some es
          ∧ packets sa !! o_packet options = Some pa
          ∧ file_at sa pa (default "undefined" (head es)) = Some ent
          ∧ family (modules sa) ent = Some members
          ∧ if existsb stylesheet members
            then ∃ c pb bc e,
                   rs = [r; c]
                   ∧ packets st1 !! o_packet options = Some pb
                   ∧ getEntry pb (Some es) = Some e
                   ∧ Packet.bundles pb !! replace_rExt e ".css" = Some c
                   ∧ bundles st1 !! c = Some bc
                   ∧ Bundle.p_entries bc = Some es
            else rs = [r] ∧ st1 = sa.
Proof.
  intros Hrun. unfold wrap in Hrun.
  inv_bind Hrun r sa Hc.
  inv_bind Hrun b s Hb. unfold deref in Hb.
  destruct (bundles sa !! r) as [b0|] eqn:Hr; [|done]. injection Hb as -> <-.
  exists r, sa, b. split; [done|]. split; [done|].
  case_bool_decide as Hcss; [by injection Hrun as <- <-|].
  inv_bind Hrun pa s Hpa. unfold deref in Hpa.
  destruct (packets sa !! o_packet options) as [pa0|] eqn:Hpa0; [|done].
  injection Hpa as -> <-.
  destruct (o_entries options) as [es|] eqn:Hes; [|done].
  inv_bind Hrun ent s He. injection He as <- <-.
  destruct (file_at sa pa _) as [ent|] eqn:Hentry; [|done].
  inv_bind Hrun members s Hm. injection Hm as <- <-.
  destruct (family (modules sa) ent) as [members|] eqn:Hmembers; [|done].
  exists es, pa, ent, members. do 4 (split; [done|]).
  destruct (existsb _ members) eqn:Hfound; [|by injection Hrun as <- <-].
  inv_bind Hrun c sb Hcc.
  destruct (create_effect _ _ _ _ Hcc)
    as (pa2 & kcss & pb & Hpa2 & Hkcss & Hpb & Hfiled_c & Hpb_eq & _).
  cbn [o_packet css_options] in Hpa2, Hpb. rewrite Hpa0 in Hpa2. injection Hpa2 as <-.
  inv_bind Hrun u s2 Hset. injection Hrun as <- <-.
  unfold set_entries, bind, this, deref, modify in Hset.
  destruct (bundles sb !! c) as [bc|] eqn:Hbc; [|done]. injection Hset as _ <-.
  cbn [o_entries o_format css_options default_format] in Hkcss.
  destruct (getEntry pa (Some es)) as [e|] eqn:Hge; [|done].
  simpl in Hkcss. injection Hkcss as <-.
  exists c, pb, (with_entries (Some es) bc), e. split; [done|]. split; [done|].
  split; [by rewrite Hpb_eq|]. split; [done|].
  split; [cbn; apply lookup_insert_eq|done].
Qed.

End WrapProps.

Lemma wrap_idempotent_witness :
  let first := @wrap Node.host Sample.family Sample.home_options Sample.store in
  first = (Ok [2; 3], first.2)
  ∧ @wrap Node.host Sample.family Sample.home_options first.2 = (Ok [2; 3], first.2).
Proof.
  intros first.
  assert (Hfirst : first = (Ok [2; 3], first.2)) by (by vm_compute).
  split; [exact Hfirst|].
  exact (@wrap_idempotent Node.host Sample.family Sample.home_options Sample.store
           first.2 [2; 3] Hfirst).
Defined.

Lemma wrap_stylesheet_bundle_witness :
  let first := @wrap Node.host Sample.family Sample.home_options Sample.store in
  first = (Ok [2; 3], first.2)
  ∧ ∃ r sa b,
      @create Node.host Sample.home_options Sample.store = (Ok r, sa)
      ∧ bundles sa !! r = Some b
      ∧ if bool_decide (Bundle.format b = Css) then [2; 3] = [r] ∧ first.2 = sa
        else
          ∃ es pa ent members,
            o_entries Sample.home_options = Some es
            ∧ packets sa !! 0 = Some pa
            ∧ file_at sa pa (default "undefined" (head es)) = Some ent
            ∧ Sample.family (modules sa) ent = Some members
            ∧ if existsb (fun m => includes (extMap Css) (Node.posix_extname (Mod.file m)))
                   members
              then ∃ c pb bc e,
                     [2; 3] = [r; c]
                     ∧ packets first.2 !! 0 = Some pb
                     ∧ getEntry pb (Some es) = Some e
                     ∧ Packet.bundles pb !! replace_rExt e ".css" = Some c
                     ∧ bundles first.2 !! c = Some bc
                     ∧ Bundle.p_entries bc = Some es
              else [2; 3] = [r] ∧ first.2 = sa.
Proof.
  intros first.
  assert (Hfirst : first = (Ok [2; 3], first.2)) by (by vm_compute).
  split; [exact Hfirst|].
  exact (@wrap_stylesheet_bundle Node.host Sample.family Sample.home_options
           Sample.store first.2 [2; 3] Hfirst).
Defined.

(** ** A bundle without entries *)

(** A bundle with no entry at all, whose packet holds no file named
    [undefined], is not built: a script bundle throws "unable to find
    undefined in packet ...", the one case that the test of [obtain] on the
    first entry is left with; a bundle of another format fails on the
    property [isRootEntry] of [undefined]. *)
Theorem obtain_without_entries `{Host} (st : Store) (self : nat) (b : Bundle.t)
    (pkt : Packet.t) (loader : option bool) (minify : bool) :
  bundles st !! self = Some b →
  packets st !! Bundle.packet b = Some pkt →
  entries st pkt b = [] →
  file_at st pkt "undefined" = None →
  Bundle.p_etag b ≠ Some (etag_of []) →
  (obtain self loader minify st).1
  = Throw (if bool_decide (Bundle.format b = Js)
           then UnableToFind None (Packet.name pkt) (Packet.version pkt)
           else TypeError "mod.isRootEntry").
Proof.
  intros Hb Hp He Hf Hetag.
  unfold obtain, bind, this, packet_of, deref, gets, modify, lift, ret, throw.
  rewrite Hb, Hp, He. rewrite bool_decide_eq_false_2 by done.
  cbn [fst snd].
  unfold iterator. rewrite (entries_frame st) by done. rewrite He.
  cbn [iterator_from add_modules fst snd head default].
  rewrite (file_at_frame st) by done. rewrite Hf.
  by case_bool_decide.
Qed.

Lemma obtain_without_entries_witness :
  let b := with_entries None (Demo.bundle 0 [] Css) in
  let st := Demo.store ∅ {[ 0 := Demo.packet ∅ [] ]} {[ 0 := b ]} in
  (@obtain Node.host 0 None false st).1 = Throw (TypeError "mod.isRootEntry").
Proof.
  intros b st.
  exact (@obtain_without_entries Node.host st 0 b (Demo.packet ∅ []) None false
           eq_refl eq_refl eq_refl eq_refl ltac:(discriminate)).
Defined.

(** ** The headers of an asset *)

(** Whatever asset [readAsset] answers with, the headers are four: the
    time the file was last modified, a [Cache-Control] of [max-age=0], the
    content type that goes with the extension of the id, and an [ETag] that
    is the md5 digest of the very body of the answer. *)
Theorem readAsset_headers `{Host} `{Collaborators} (id : string) (isMain : bool)
    (body : string) (headers : Headers) :
  readAsset id isMain = Some (body, headers) →
  ∃ mtime,
    headers = [("Last-Modified", mtime); ("Cache-Control", "max-age=0");
               ("Content-Type", mime_lookup (extname id)); ("ETag", md5_hex body)]
    ∧ get_header "ETag" headers = Some (md5_hex body).
Proof.
  unfold readAsset.
  set (result := if bool_decide (id = "loader.js") then _ else _).
  assert (Hresult : ∀ x h, result = Some (x, h) → ∃ mtime, h = [("Last-Modified", mtime)]).
  { subst result. intros x h.
    unfold readSource, readScript, readComponent, readModule, readStyle.
    repeat case_match; intros; simplify_eq; by eexists. }
  destruct result as [[x h]|]; [|done].
  destruct (Hresult x h eq_refl) as [mtime ->].
  intros [= <- <-]. exists mtime. split; reflexivity.
Qed.

Lemma readAsset_headers_witness :
  ∃ body headers,
    @readAsset Node.host Demo.collaborators "stylesheets/app.css" false
    = Some (body, headers)
    ∧ get_header "ETag" headers = Some (MD5.digest body).
Proof.
  destruct (@readAsset Node.host Demo.collaborators "stylesheets/app.css" false)
    as [[body headers]|] eqn:Hrun; [|vm_compute in Hrun; discriminate].
  exists body, headers. split; [done|].
  destruct (@readAsset_headers Node.host Demo.collaborators "stylesheets/app.css" false
              body headers Hrun) as (mtime & _ & Hetag).
  exact Hetag.
Defined.

(** ** Ids that are yielded twice *)

Lemma iterator_from_repeats `{Host} (st : Store) (packet : nat) (pkt : Packet.t)
    (scope : Scope) (format : Format) (fuel : nat) (seen : gset string)
    (names : list string) (l1 l2 : list Mod.t) (y : Mod.t) :
  (iterator_from st packet pkt scope format fuel seen names).1 = l1 ++ y :: l2 →
  Mod.id y ∈ seen ∨ Mod.id y ∈ Mod.id <$> l1 →
  walked_entry st pkt names y.
Proof.
  revert seen l1. induction names as [|name rest IH]; intros seen l1; simpl.
  { by destruct l1. }
  assert (Hrest : ∀ seen0 l0,
            (iterator_from st packet pkt scope format fuel seen0 rest).1 = l0 ++ y :: l2 →
            Mod.id y ∈ seen0 ∨ Mod.id y ∈ Mod.id <$> l0 →
            walked_entry st pkt (name :: rest) y).
  { intros seen0 l0 Hz Hy. destruct (IH seen0 l0 Hz Hy) as (n & Hn & Hf & Hi).
    exists n. split; [by right|done]. }
  destruct (file_at st pkt name) as [entry|] eqn:Hfile; [|by destruct l1].
  destruct (Mod.instanceofModule entry) eqn:Hinst; simpl; [|by apply Hrest].
  destruct (iterateEntry _ _ _ _ _ fuel seen entry _) as [[ys seen1]|] eqn:Hv;
    [|by destruct l1].
  destruct (iterateEntry_visited _ _ _ _ _ _ _ _ _ _ _ Hv) as (Hsub & Hnd & Hin & Hold).
  specialize (Hrest seen1).
  destruct (iterator_from _ _ _ _ _ fuel seen1 rest) as [zs e]. simpl in *.
  intros Heq Hy.
  (* where [y] stands: among what the entry yields, or after *)
  assert (Hafter : ∀ k, l1 = ys ++ k → zs = k ++ y :: l2 →
            walked_entry st pkt (name :: rest) y).
  { intros k -> Hzs. apply (Hrest k Hzs).
    destruct Hy as [Hy|Hy]; [left; set_solver|].
    rewrite fmap_app in Hy. apply elem_of_app in Hy as [Hy|Hy]; [|by right].
    left. apply list_elem_of_fmap in Hy as (x & -> & Hx). by apply Hin. }
  apply app_eq_inv in Heq as [(k & Hys & Hk)|(k & Hl1 & Hzs)]; [|by eapply Hafter].
  destruct k as [|y' k'].
  { rewrite app_nil_r in Hys. simpl in Hk. apply (Hafter []); [by rewrite app_nil_r|done]. }
  simpl in Hk. injection Hk as <- ->. subst ys.
  assert (Hnot : Mod.id y ∉ Mod.id <$> l1).
  { rewrite fmap_app, fmap_cons in Hnd. apply NoDup_app in Hnd as (_ & Hd & _).
    intros Hyl. apply (Hd _ Hyl). by left. }
  destruct Hy as [Hy|Hy]; [|done].
  assert (y = entry) as -> by (apply Hold; [set_solver|done]).
  exists name. split; [by left|done].
Qed.

(** An id is yielded a second time only as the id of an entry that the
    loop over the entries walks: apart from entries that an earlier entry
    has reached already, one traversal yields no id twice. *)
Theorem iterator_repeats_entries_only `{Host} (st : Store) (pkt : Packet.t) (b : Bundle.t)
    (l1 l2 l3 : list Mod.t) (x y : Mod.t) :
  (iterator st pkt b).1 = l1 ++ x :: l2 ++ y :: l3 →
  Mod.id x = Mod.id y →
  walked_entry st pkt (entries st pkt b) y.
Proof.
  intros Heq Hid. unfold iterator in Heq.
  apply (iterator_from_repeats st (Bundle.packet b) pkt (Bundle.scope b) (Bundle.format b)
           (enough_fuel st) Object_prototype (entries st pkt b) (l1 ++ x :: l2) l3 y).
  - by rewrite <- app_assoc.
  - right. rewrite fmap_app, fmap_cons, <- Hid. apply elem_of_app. right. by left.
Qed.

Lemma iterator_repeats_entries_only_witness :
  let pkt := Demo.packet Demo.cycle_files [] in
  let b := Demo.bundle 0 ["a.js"; "b.js"] Js in
  walked_entry Demo.two_entries pkt (entries Demo.two_entries pkt b)
    (Demo.module_ "b.js" 0 [1]).
Proof.
  intros pkt b.
  apply (@iterator_repeats_entries_only Node.host Demo.two_entries pkt b
           [] [Demo.module_ "a.js" 0 [2]] [] (Demo.module_ "b.js" 0 [1])
           (Demo.module_ "b.js" 0 [1])); reflexivity.
Defined.

(** ** The cache of minified loaders *)

(** [minifyLoader] minifies the loader of a configuration once: a later
    call with a configuration that serializes to the same
    [URLSearchParams] string, the same configuration or another, is
    answered with the same minified loader and changes nothing. *)
Theorem minifyLoader_memoized `{Host} (self : nat) (cfg cfg' : LoaderConfig)
    (st st1 : Store) (x : option (string * option RawMap)) :
  minifyLoader self cfg st = (Ok x, st1) →
  URLSearchParams_toString cfg' = URLSearchParams_toString cfg →
  minifyLoader self cfg' st1 = (Ok x, st1).
Proof.
  unfold minifyLoader, bind, this, packet_of, deref, modify, lift, ret.
  intros Hrun Hkey. rewrite Hkey.
  destruct (bundles st !! self) as [b|] eqn:Hb; [|done].
  destruct (Bundle.loaderCache b !! _) as [cached|] eqn:Hc.
  - injection Hrun as <- <-. by rewrite Hb, Hc.
  - destruct (packets st !! Bundle.packet b) as [pkt|]; [|done].
    destruct (parseLoader pkt cfg) as [code|]; [|done].
    rewrite Hb in Hrun. injection Hrun as <- <-.
    cbn. rewrite lookup_insert_eq. cbn. by rewrite lookup_insert_eq.
Qed.

Lemma minifyLoader_memoized_witness :
  let first := @minifyLoader Node.host 0 ∅ (Demo.home true false false Js) in
  ∃ x, first = (Ok x, first.2)
       ∧ @minifyLoader Node.host 0 ∅ first.2 = (Ok x, first.2).
Proof.
  intros first.
  destruct first as [[x|e] st1] eqn:Hrun; [|vm_compute in Hrun; discriminate].
  exists x. split; [done|].
  exact (@minifyLoader_memoized Node.host 0 ∅ ∅ (Demo.home true false false Js) st1 x
           Hrun eq_refl).
Defined.

(** ** The names of the modules that the asset reader defines *)

(** [id.replace(RE_EXT, repl)], by which [readComponent], [readModule]
    and [formatMain] name a module: the extension of the id, a dot and word
    characters at its end, is replaced by [repl]; an id with no extension
    is left as it is. *)
Theorem replace_RE_EXT_spec (s repl : string) :
  (∃ stem ext, s = stem +:+ ext ∧ is_dot_word ext = true
               ∧ replace_RE_EXT s repl = stem +:+ repl)
  ∨ ((∀ stem ext, s = stem +:+ ext → is_dot_word ext = false)
     ∧ replace_RE_EXT s repl = s).
Proof.
  induction s as [|c r IH].
  - right. split; [|done]. intros [|d stem] ext; [|done].
    change ("" +:+ ext) with ext. by intros <-.
  - destruct (is_dot_word (String c r)) eqn:Hdot.
    + left. exists "", (String c r). split; [done|]. split; [done|].
      cbn [replace_RE_EXT]. by rewrite Hdot.
    + cbn [replace_RE_EXT]. rewrite Hdot.
      destruct IH as [(stem & ext & -> & Hext & ->)|[Hnone ->]].
      * left. exists (String c stem), ext. by repeat split.
      * right. split; [|done]. intros [|d stem] ext.
        -- change ("" +:+ ext) with ext. by intros <-.
        -- change (String d stem +:+ ext) with (String d (stem +:+ ext)).
           intros [= <- Hr]. by eapply Hnone.
Qed.

